(** * Citation generator ([app.py])

    A shallow embedding of the citation generator: the URL classifier,
    the Auditor General year / chapter derivations and title readers, the
    news release extractor with its ministry formatter, the e-Laws
    extractor, the markdown-subset tokenizer and paragraph loop of the
    DOCX renderer and the block of the page that processes a batch of
    URLs, together with the fragment of Python's [str] and [re] that
    these functions use.

    Conventions.
    - A Python [str] is a list of 8-bit characters ([ascii], code points
      0..255, i.e. the Latin-1 range).  On that range [\d] is [0-9] and
      [\s] / [str.strip] / [str.split] use the white-space set
      {9..13, 28..31, 32, 133, 160}.
    - Network and document access (requests, BeautifulSoup, pdfplumber,
      python-docx) is not computed: its outcome is an explicit argument of
      the function that consumes it.
    - A regular expression is a syntax tree transcribed from the pattern
      text; [matches] enumerates its matches in the priority order of a
      backtracking matcher, so the head of the enumeration is the match
      that [re] reports. *)

From Stdlib Require Import List Ascii String Bool Arith Lia.
Import ListNotations.

Open Scope string_scope.
Open Scope list_scope.
Open Scope nat_scope.

Set Implicit Arguments.

(** ** Python strings *)

Definition str := list ascii.

Coercion list_ascii_of_string : string >-> list.

Module PyStr.

(** [ord(c)] *)
Definition code (c : ascii) : nat := nat_of_ascii c.

(** Equality of characters and of strings. *)
Definition chr_eqb (a b : ascii) : bool := Ascii.eqb a b.

Fixpoint eqb (a b : str) : bool :=
  match a, b with
  | [], [] => true
  | x :: a', y :: b' => chr_eqb x y && eqb a' b'
  | _, _ => false
  end.

(** [s.startswith(p)] *)
Fixpoint startswith (s p : str) {struct p} : bool :=
  match p, s with
  | [], _ => true
  | x :: p', y :: s' => chr_eqb x y && startswith s' p'
  | _ :: _, [] => false
  end.

(** [s.endswith(p)] *)
Definition endswith (s p : str) : bool :=
  eqb (skipn (List.length s - List.length p) s) p.

(** [sub in s] *)
Fixpoint contains (s sub : str) : bool :=
  startswith s sub ||
  match s with
  | [] => false
  | _ :: s' => contains s' sub
  end.

(** [s[a:b]] for [0 <= a], [0 <= b] *)
Definition slice (s : str) (a b : nat) : str := firstn (b - a) (skipn a s).

(** [c.isspace()] on the Latin-1 range. *)
Definition isspace (c : ascii) : bool :=
  let n := code c in
  ((9 <=? n) && (n <=? 13)) || ((28 <=? n) && (n <=? 32))
  || (n =? 133) || (n =? 160).

(** Decimal digits ([\d], [str.isdecimal]) on the Latin-1 range. *)
Definition isdecimal (c : ascii) : bool :=
  let n := code c in (48 <=? n) && (n <=? 57).

(** [c.lower()] on the Latin-1 range: A-Z and the accented capitals
    192..222 (except the multiplication sign 215) move up by 32. *)
Definition lower_chr (c : ascii) : ascii :=
  let n := code c in
  if ((65 <=? n) && (n <=? 90))
     || ((192 <=? n) && (n <=? 222) && negb (n =? 215))
  then ascii_of_nat (n + 32) else c.

(** [s.lower()] *)
Definition lower (s : str) : str := map lower_chr s.

(** [s.lstrip()], [s.rstrip()] *)
Fixpoint lstrip (s : str) : str :=
  match s with
  | c :: s' => if isspace c then lstrip s' else s
  | [] => []
  end.

Definition rstrip (s : str) : str := rev (lstrip (rev s)).

(** [s.strip()] *)
Definition strip (s : str) : str := rstrip (lstrip s).

(** [s.split()] : the maximal runs of non-space characters.  [cur] is
    the word being read, in reverse. *)
Fixpoint split_ws_aux (cur : str) (s : str) : list str :=
  match s with
  | [] => match cur with [] => [] | _ => [rev cur] end
  | c :: s' =>
      if isspace c
      then match cur with
           | [] => split_ws_aux [] s'
           | _ => rev cur :: split_ws_aux [] s'
           end
      else split_ws_aux (c :: cur) s'
  end.

Definition split_ws (s : str) : list str := split_ws_aux [] s.

(** [sep.join(l)] *)
Fixpoint join (sep : str) (l : list str) : str :=
  match l with
  | [] => []
  | [x] => x
  | x :: l' => x ++ sep ++ join sep l'
  end.

(** [s.split(sep)] for a one-character separator. *)
Fixpoint split_chr_aux (sep : ascii) (cur : str) (s : str) : list str :=
  match s with
  | [] => [rev cur]
  | c :: s' =>
      if chr_eqb c sep
      then rev cur :: split_chr_aux sep [] s'
      else split_chr_aux sep (c :: cur) s'
  end.

Definition split_chr (sep : ascii) (s : str) : list str :=
  split_chr_aux sep [] s.

(** [int(s)] for a string of decimal digits. *)
Definition int_of_digits (s : str) : nat :=
  fold_left (fun acc c => 10 * acc + (code c - 48)) s 0.

(** Truthiness of an optional string: [None] and the empty string are falsy. *)
Definition truthy (o : option str) : bool :=
  match o with
  | Some (_ :: _) => true
  | _ => false
  end.

(** [c.isdigit()] on the Latin-1 range: the decimal digits and the
    superscripts two, three and one (178, 179, 185). *)
Definition isdigit_chr (c : ascii) : bool :=
  let n := code c in
  isdecimal c || (n =? 178) || (n =? 179) || (n =? 185).

(** [s.isdigit()]: every character is a digit and there is at least one. *)
Definition isdigit (s : str) : bool :=
  match s with
  | [] => false
  | _ :: _ => forallb isdigit_chr s
  end.

End PyStr.

(** ** The fragment of [re] used by the program *)

Module Re.

Import PyStr.

(** Patterns.  [Rep] is a counted repetition of a one-character class,
    which is the only form of repetition the program writes ([\d+],
    [\d{2,4}], [\s*], [.*?], [[^-]+], ...). *)
Inductive regex : Type :=
| Eps
| Chr (p : ascii -> bool)
| Cat (r1 r2 : regex)
| Alt (r1 r2 : regex)
| Rep (p : ascii -> bool) (lo : nat) (hi : option nat) (greedy : bool)
| Grp (n : nat) (r : regex)
| Bol.

(** A literal string. *)
Fixpoint Lit (w : str) : regex :=
  match w with
  | [] => Eps
  | c :: w' => Cat (Chr (chr_eqb c)) (Lit w')
  end.

(** [\d] *)
Definition digit : ascii -> bool := isdecimal.
(** [\s] *)
Definition space : ascii -> bool := isspace.
(** [.] without DOTALL: any character but the line feed. *)
Definition dot (c : ascii) : bool := negb (chr_eqb c "010"%char).
(** [[^x]] *)
Definition non (x : ascii) (c : ascii) : bool := negb (chr_eqb c x).

(** Group marks: group number, start and end offsets (latest first). *)
Definition marks := list (nat * (nat * nat)).

(** Matcher state: offset in the subject, remaining input, marks. *)
Definition mstate : Type := nat * str * marks.

(** [n] repetitions leave room for one more under the bound [hi]. *)
Definition below (hi : option nat) (n : nat) : bool :=
  match hi with
  | None => true
  | Some h => n <? h
  end.

(** Greedy repetition: first try one more character, then stop here. *)
Fixpoint rep_greedy (p : ascii -> bool) (lo : nat) (hi : option nat)
         (n i : nat) (s : str) : list (nat * str) :=
  match s with
  | c :: s' =>
      if p c && below hi n then rep_greedy p lo hi (S n) (S i) s' else []
  | [] => []
  end ++ (if lo <=? n then [(i, s)] else []).

(** Lazy repetition: first stop here, then try one more character. *)
Fixpoint rep_lazy (p : ascii -> bool) (lo : nat) (hi : option nat)
         (n i : nat) (s : str) : list (nat * str) :=
  (if lo <=? n then [(i, s)] else []) ++
  match s with
  | c :: s' =>
      if p c && below hi n then rep_lazy p lo hi (S n) (S i) s' else []
  | [] => []
  end.

(** All the ways [r] matches at the current state, in backtracking
    order. *)
Fixpoint matches (r : regex) (st : mstate) : list mstate :=
  let '(i, s, g) := st in
  match r with
  | Eps => [st]
  | Chr p =>
      match s with
      | c :: s' => if p c then [(S i, s', g)] else []
      | [] => []
      end
  | Cat r1 r2 => flat_map (matches r2) (matches r1 st)
  | Alt r1 r2 => matches r1 st ++ matches r2 st
  | Rep p lo hi greedy =>
      map (fun x => (fst x, snd x, g))
          ((if greedy then rep_greedy else rep_lazy) p lo hi 0 i s)
  | Grp n r1 =>
      map (fun x => let '(i', s', g') := x in (i', s', (n, (i, i')) :: g'))
          (matches r1 st)
  | Bol => if i =? 0 then [st] else []
  end.

(** Number of capturing groups. *)
Fixpoint groups (r : regex) : nat :=
  match r with
  | Cat r1 r2 | Alt r1 r2 => Nat.max (groups r1) (groups r2)
  | Grp n r1 => Nat.max n (groups r1)
  | _ => 0
  end.

(** Match objects. *)
Record Match : Type := mkMatch {
  m_string : str;
  m_start : nat;
  m_end : nat;
  m_marks : marks
}.

(** The span recorded last for group [n]. *)
Fixpoint mark (g : marks) (n : nat) : option (nat * nat) :=
  match g with
  | [] => None
  | (k, sp) :: g' => if k =? n then Some sp else mark g' n
  end.

(** [m.group(n)]; [None] when group [n] took no part in the match. *)
Definition group (m : Match) (n : nat) : option str :=
  match n with
  | 0 => Some (slice (m_string m) (m_start m) (m_end m))
  | _ => option_map (fun sp => slice (m_string m) (fst sp) (snd sp))
                    (mark (m_marks m) n)
  end.

(** One attempt at offset [i]; with [adv] an empty match is refused
    (the matcher's [must_advance] flag). *)
Definition attempt (r : regex) (whole : str) (adv : bool) (i : nat)
           (s : str) : option Match :=
  match filter (fun st => negb adv || negb (fst (fst st) =? i))
               (matches r (i, s, [])) with
  | (e, _, g) :: _ => Some (mkMatch whole i e g)
  | [] => None
  end.

(** Leftmost match starting at offset [i] or later. *)
Fixpoint search_from (r : regex) (whole : str) (adv : bool) (i : nat)
         (s : str) : option Match :=
  match attempt r whole adv i s with
  | Some m => Some m
  | None =>
      match s with
      | [] => None
      | _ :: s' => search_from r whole false (S i) s'
      end
  end.

(** [re.search(r, s)] *)
Definition search (r : regex) (s : str) : option Match :=
  search_from r s false 0 s.

(** [re.match(r, s)] *)
Definition match_ (r : regex) (s : str) : option Match :=
  attempt r s false 0 s.

(** The scanning loop shared by [findall] and [split]: search from
    [pos], record the match, go on from its end, and refuse an empty
    match right after an empty match.  [fuel] bounds the number of
    iterations; [None] means the bound was hit. *)
Fixpoint scan (fuel : nat) (r : regex) (whole : str) (pos : nat)
         (adv : bool) : option (list Match) :=
  match fuel with
  | 0 => None
  | S fuel' =>
      match search_from r whole adv pos (skipn pos whole) with
      | None => Some []
      | Some m =>
          option_map (cons m)
            (scan fuel' r whole (m_end m) (m_end m =? m_start m))
      end
  end.

(** The successive matches of [r] in [s]; the bound is never hit
    ([scan_total]). *)
Definition finditer (r : regex) (s : str) : option (list Match) :=
  scan (2 * List.length s + 2) r s 0 false.

(** [re.findall(r, s)] for a pattern with one capturing group: the
    texts of group 1 (empty when the group took no part). *)
Definition findall (r : regex) (s : str) : option (list str) :=
  option_map (map (fun m => match group m 1 with
                            | Some t => t
                            | None => []
                            end))
             (finditer r s).

(** The pieces of [split]: the text before each match, then its groups,
    and at last the text after the last match. *)
Fixpoint split_parts (ng : nat) (whole : str) (last : nat)
         (ms : list Match) : list (option str) :=
  match ms with
  | [] => [Some (slice whole last (List.length whole))]
  | m :: ms' =>
      Some (slice whole last (m_start m))
      :: map (group m) (seq 1 ng)
      ++ split_parts ng whole (m_end m) ms'
  end.

(** [re.compile(r).split(s)] *)
Definition split (r : regex) (s : str) : option (list (option str)) :=
  option_map (split_parts (groups r) s 0) (finditer r s).

(** A character of the pattern under [re.IGNORECASE]: it matches the
    characters with the same lower case. *)
Definition same_letter (c x : ascii) : bool :=
  chr_eqb (lower_chr x) (lower_chr c).

(** A literal string under [re.IGNORECASE]. *)
Fixpoint LitI (w : str) : regex :=
  match w with
  | [] => Eps
  | c :: w' => Cat (Chr (same_letter c)) (LitI w')
  end.

(** What [sub] keeps when the replacement is empty: the text before each
    match, and at last the text after the last match. *)
Fixpoint sub_parts (whole : str) (last : nat) (ms : list Match) : str :=
  match ms with
  | [] => slice whole last (List.length whole)
  | m :: ms' => slice whole last (m_start m) ++ sub_parts whole (m_end m) ms'
  end.

(** [re.sub(r, '', s)] *)
Definition sub (r : regex) (s : str) : option str :=
  option_map (sub_parts s 0) (finditer r s).

End Re.

(** ** The program *)

Import PyStr Re.

(** [Seq [r1; ...; rn]] is the concatenation [r1 ... rn]. *)
Definition Seq (rs : list regex) : regex := fold_right Cat Eps rs.

(** The literal character [c]. *)
Definition C (c : ascii) : regex := Chr (chr_eqb c).

(** The text of a group that is known to take part in the match. *)
Definition text (o : option str) : str :=
  match o with
  | Some t => t
  | None => []
  end.

(** The double quote character. *)
Definition dquote : str := ["034"%char].

(** *** URL detection *)

Inductive citation_type : Type := ag | news | elaws.

Definition detect_citation_type (url : str) : option citation_type :=
  if contains url "auditor.on.ca" then Some ag
  else if contains url "news.ontario.ca" then Some news
  else if contains url "ontario.ca/laws/statute"
          || contains url "ontario.ca/laws/regulation" then Some elaws
  else None.

(** *** AG annual reports *)

Definition is_pdf_url (url : str) : bool := endswith (lower url) ".pdf".

(** [(?:en|ar|fr)(\d{2,4})] *)
Definition year_pattern : regex :=
  Cat (Alt (Lit "en") (Alt (Lit "ar") (Lit "fr")))
      (Grp 1 (Rep digit 2 (Some 4) true)).

(** [19\d{2}|20\d{2}] *)
Definition bare_year_pattern : regex :=
  Alt (Cat (Lit "19") (Rep digit 2 (Some 2) true))
      (Cat (Lit "20") (Rep digit 2 (Some 2) true)).

Definition extract_year_from_url (url : str) : option str :=
  match search year_pattern url with
  | Some m =>
      let year := text (group m 1) in
      Some (if List.length year =? 2
            then if 50 <=? int_of_digits year
                 then "19" ++ year
                 else "20" ++ year
            else year)
  | None =>
      match search bare_year_pattern url with
      | Some m => Some (text (group m 0))
      | None => None
      end
  end.

(** [v\d+_(\d)(\d{2})] *)
Definition volume_pattern : regex :=
  Seq [C "v"; Rep digit 1 None true; C "_";
       Grp 1 (Chr digit); Grp 2 (Rep digit 2 (Some 2) true)].

(** [^(\d)(\d{2})en\d{2}] *)
Definition leading_pattern : regex :=
  Seq [Bol; Grp 1 (Chr digit); Grp 2 (Rep digit 2 (Some 2) true);
       Lit "en"; Rep digit 2 (Some 2) true].

Definition chapter_section (m : Match) : option str * option str :=
  let chapter := text (group m 1) in
  let section_digits := text (group m 2) in
  if negb (eqb section_digits "00")
  then (Some chapter, Some (chapter ++ "." ++ section_digits))
  else (Some chapter, None).

Definition extract_chapter_section_from_filename (filename : str)
  : option str * option str :=
  match search volume_pattern filename with
  | Some m => chapter_section m
  | None =>
      match search leading_pattern filename with
      | Some m => chapter_section m
      | None => (None, None)
      end
  end.

Definition org_name : str := "Office of the Auditor General of Ontario".

Section AG.

(** The two title readers fetch the document; each returns the title
    or [None], and lets no exception out. *)
Variable extract_title_from_pdf_metadata : str -> option str.
Variable extract_title_from_html : str -> option str.

(** The result is the pair (citation, error). *)
Definition fetch_ag_citation (url : str) : option str * option str :=
  let year := extract_year_from_url url in
  if negb (truthy year) then (None, Some ("Could not extract year" : str))
  else
    let year_report := text year ++ " Annual Report" in
    if is_pdf_url url then
      let title := extract_title_from_pdf_metadata url in
      if negb (truthy title)
      then (None, Some ("Could not extract title from PDF" : str))
      else
        let filename := last (split_chr "/" url) [] in
        let '(chapter, section) :=
          extract_chapter_section_from_filename filename in
        let title := join " " (split_ws (text title)) in
        let link := dquote ++ "[" ++ title ++ "](" ++ url ++ ")" ++ dquote in
        if truthy chapter && truthy section then
          (Some (org_name ++ ", " ++ link ++ ", Chapter " ++ text chapter
                 ++ ", Section " ++ text section
                 ++ ", *" ++ year_report ++ "*."), None)
        else if truthy chapter then
          (Some (org_name ++ ", " ++ link ++ ", Chapter " ++ text chapter
                 ++ ", *" ++ year_report ++ "*."), None)
        else
          (Some (org_name ++ ", " ++ link
                 ++ ", *" ++ year_report ++ "*."), None)
    else
      let title := extract_title_from_html url in
      if negb (truthy title)
      then (None, Some ("Could not extract title from page" : str))
      else
        let title := join " " (split_ws (text title)) in
        let link := dquote ++ "[" ++ title ++ "](" ++ url ++ ")" ++ dquote in
        (Some (org_name ++ ", " ++ link
               ++ ", *" ++ year_report ++ "*."), None).

End AG.

(** *** News releases *)

(** A JSON object with string fields. *)
Definition dict := list (str * str).

Fixpoint dict_get (d : dict) (k : str) : option str :=
  match d with
  | [] => None
  | (k', v) :: d' => if eqb k' k then Some v else dict_get d' k
  end.

Definition mem (x : str) (l : list str) : bool := existsb (eqb x) l.

(** [list(dict.fromkeys(l))]: the keys of an insertion-ordered dictionary
    filled from [l]; setting a key that is present keeps its place. *)
Definition fromkeys (l : list str) : list str :=
  fold_left (fun d k => if mem k d then d else d ++ [k]) l [].

Definition format_ministries (main_ministry : str)
           (partner_ministries : list dict) : str :=
  let ministries :=
    main_ministry ::
    flat_map (fun m => match dict_get m "name" with
                       | Some n => if negb (eqb n main_ministry)
                                   then [n] else []
                       | None => []
                       end) partner_ministries in
  let ministries := fromkeys ministries in
  match List.length ministries with
  | 1 => nth 0 ministries []
  | 2 => nth 0 ministries [] ++ " and " ++ nth 1 ministries []
  | _ => join ", " (removelast ministries)
         ++ ", and " ++ last ministries []
  end.

(** *** e-Laws *)

(** What the program reads from a fetched and parsed page: the value of
    [soup.title.string] when there is a title element and the empty
    string otherwise ([None] when the title element has no single string), and the outcome of the walk from the
    element with a given [id] to a heading that starts with digits. *)
Record page : Type := mkPage {
  page_title_string : option str;
  page_section : str -> option str
}.

(** Outcome of fetching and parsing: an exception with its message, or
    the page. *)
Inductive response : Type :=
| Failed (message : str)
| Fetched (p : page).

Inductive elaws_result : Type :=
| ElawsError (error : str) (full_title short_title section : option str)
             (is_regulation : bool)
| ElawsData (full_title : option str) (short_title : str)
            (section : option str) (clean_url : str) (is_regulation : bool)
            (full_citation : option str) (short_citation : str).

(** [^([^-]+)] *)
Definition full_title_pattern : regex :=
  Seq [Bol; Grp 1 (Rep (non "-") 1 None true)].

(** [O\.\s*Reg\.\s*\d+/\d+] *)
Definition regulation_body : list regex :=
  [C "O"; C "."; Rep space 0 None true;
   C "R"; C "e"; C "g"; C "."; Rep space 0 None true;
   Rep digit 1 None true; C "/"; Rep digit 1 None true].

(** [^(O\.\s*Reg\.\s*\d+/\d+)] *)
Definition regulation_pattern : regex :=
  Seq [Bol; Grp 1 (Seq regulation_body)].

(** [[^,]+, \d{4}] *)
Definition statute_body : list regex :=
  [Rep (non ",") 1 None true; C ","; C " "; Rep digit 4 (Some 4) true].

(** [^([^,]+, \d{4})] *)
Definition statute_pattern : regex :=
  Seq [Bol; Grp 1 (Seq statute_body)].

(** The titles computed from the page title: (full title, short title). *)
Definition elaws_titles (page_title : option str) (is_regulation : bool)
  : option str * str :=
  if truthy page_title then
    let page_title := text page_title in
    let full_title :=
      match search full_title_pattern page_title with
      | Some m => strip (text (group m 1))
      | None => page_title
      end in
    if is_regulation then
      let short_title :=
        match match_ regulation_pattern full_title with
        | Some m => text (group m 1)
        | None => full_title
        end in
      (None, short_title)
    else
      let short_title :=
        match match_ statute_pattern full_title with
        | Some m => text (group m 1)
        | None => full_title
        end in
      (Some full_title, short_title)
  else (Some ("Legislation" : str), ("Legislation" : str)).

Definition citation_of (title : str) (clean_url : str) (section : option str)
  : str :=
  "[" ++ title ++ "](" ++ clean_url ++ ")"
  ++ (if truthy section then ", s. " ++ text section ++ "." else ".").

Section ELaws.

(** [requests.get], [raise_for_status] and the HTML parse. *)
Variable fetch : str -> response.

Definition fetch_elaws_citation (url : str) : elaws_result :=
  match fetch url with
  | Fetched soup =>
      let page_title := page_title_string soup in
      let is_regulation := contains url "regulation" in
      let '(full_title, short_title) :=
        elaws_titles page_title is_regulation in
      let section :=
        if contains url "#" then
          let anchor :=
            hd [] (split_chr "?" (nth 1 (split_chr "#" url) [])) in
          if truthy (Some anchor) && startswith anchor "BK"
          then page_section soup anchor
          else None
        else None in
      let clean_url := hd [] (split_chr "#" (hd [] (split_chr "?" url))) in
      ElawsData full_title short_title section clean_url is_regulation
        (if truthy full_title
         then Some (citation_of (text full_title) clean_url section)
         else None)
        (citation_of short_title clean_url section)
  | Failed e =>
      ElawsError e None None None (contains url "regulation")
  end.

End ELaws.

(** *** DOCX rendering *)

(** The runs of a paragraph: a hyperlink, or a text run that is italic or
    not. *)
Inductive run : Type :=
| Hyperlink (text_ : str) (url : str)
| Run (italic : bool) (text_ : str).

Definition paragraph := list run.

(** Outcome of a computation that may raise: [IndexError] is the only
    exception the modelled statements raise; [Unfinished] is an
    exhausted scanning bound. *)
Inductive outcome (A : Type) : Type :=
| Returns (a : A)
| IndexError
| Unfinished.

Arguments IndexError {A}.
Arguments Unfinished {A}.

Definition bind {A B : Type} (x : outcome A) (f : A -> outcome B)
  : outcome B :=
  match x with
  | Returns a => f a
  | IndexError => IndexError
  | Unfinished => Unfinished
  end.

Notation "x <- e ;; k" := (bind e (fun x => k))
  (at level 61, e at next level, right associativity).

Definition of_scan {A : Type} (o : option A) : outcome A :=
  match o with
  | Some a => Returns a
  | None => Unfinished
  end.

(** [l[0]] *)
Definition first {A : Type} (l : list A) : outcome A :=
  match l with
  | x :: _ => Returns x
  | [] => IndexError
  end.

Definition lazy_dots : regex := Rep dot 0 None false.

(** The alternatives [\[.*?\]\(.*?\)|\*.*?\*|_.*?_] *)
Definition markup_body : regex :=
  Alt (Seq [C "["; lazy_dots; C "]"; C "("; lazy_dots; C ")"])
      (Alt (Seq [C "*"; lazy_dots; C "*"])
           (Seq [C "_"; lazy_dots; C "_"])).

(** [(\[.*?\]\(.*?\)|\*.*?\*|_.*?_)] *)
Definition markup_pattern : regex := Grp 1 markup_body.

(** [\[(.*?)\]] *)
Definition link_text_pattern : regex :=
  Seq [C "["; Grp 1 lazy_dots; C "]"].

(** [\((.*?)\)] *)
Definition link_url_pattern : regex :=
  Seq [C "("; Grp 1 lazy_dots; C ")"].

(** The runs added for one part of the split; an empty part adds none. *)
Definition render_part (part : option str) : outcome (list run) :=
  if negb (truthy part) then Returns []
  else
    let part := text part in
    if startswith part "[" && contains part "](" && endswith part ")" then
      texts <- of_scan (findall link_text_pattern part) ;;
      link_text <- first texts ;;
      urls <- of_scan (findall link_url_pattern part) ;;
      link_url <- first urls ;;
      Returns [Hyperlink link_text link_url]
    else if (startswith part "*" && endswith part "*")
            || (startswith part "_" && endswith part "_") then
      Returns [Run true (slice part 1 (List.length part - 1))]
    else
      Returns [Run false part].

Fixpoint render_parts (parts : list (option str)) : outcome (list run) :=
  match parts with
  | [] => Returns []
  | part :: parts' =>
      rs <- render_part part ;;
      rs' <- render_parts parts' ;;
      Returns (rs ++ rs')
  end.

Definition render_citation (citation_md : str) : outcome paragraph :=
  parts <- of_scan (split markup_pattern citation_md) ;;
  rs <- render_parts parts ;;
  Returns (rs ++ [Run false ["010"%char]]).

(** The paragraphs of the document that is saved to the buffer. *)
Fixpoint generate_docx (citation_texts : list str)
  : outcome (list paragraph) :=
  match citation_texts with
  | [] => Returns []
  | citation_md :: rest =>
      p <- render_citation citation_md ;;
      ps <- generate_docx rest ;;
      Returns (p :: ps)
  end.

(** *** The title readers of the AG extractor *)

(** [^\d{4}\s+(?:Provincial\s+)?Auditor\'?s?\s+Report:\s*] with [re.I] *)
Definition report_prefix_pattern : regex :=
  Seq [Bol; Rep digit 4 (Some 4) true; Rep space 1 None true;
       Alt (Seq [LitI "Provincial"; Rep space 1 None true]) Eps;
       LitI "Auditor";
       Rep (chr_eqb "'") 0 (Some 1) true;
       Rep (same_letter "s") 0 (Some 1) true;
       Rep space 1 None true; LitI "Report:"; Rep space 0 None true].

(** [^VFM\s+\d+\.\d{2}\s*:\s*] with [re.I] *)
Definition vfm_prefix_pattern : regex :=
  Seq [Bol; LitI "VFM"; Rep space 1 None true;
       Rep digit 1 None true; C "."; Rep digit 2 (Some 2) true;
       Rep space 0 None true; C ":"; Rep space 0 None true].

(** [^\d+\.\d{2}\s*:\s*] *)
Definition number_colon_pattern : regex :=
  Seq [Bol; Rep digit 1 None true; C "."; Rep digit 2 (Some 2) true;
       Rep space 0 None true; C ":"; Rep space 0 None true].

(** [^\d+\.\d{2}\s+] *)
Definition number_space_pattern : regex :=
  Seq [Bol; Rep digit 1 None true; C "."; Rep digit 2 (Some 2) true;
       Rep space 1 None true].

(** What the PDF reader gets from the network and the document: an
    exception, or the value of [metadata['Title']] as text ([None] when
    the document has no metadata or no title entry). *)
Inductive pdf_read : Type :=
| PdfRaises
| PdfMetadata (title : option str).

(** The headings the HTML reader asks the parsed page for. *)
Inductive tag : Type := h1 | h2 | h3.

(** What the HTML reader asks the parsed page for: the text of the first
    heading of each level, and the first element whose class names a
    content area with the text of its first heading, each [None] when
    there is no such element. *)
Record html_page : Type := mkHtml {
  find_heading : tag -> option str;
  find_content_area : option (option str)
}.

Inductive html_read : Type :=
| HtmlRaises
| HtmlPage (soup : html_page).

Section Readers.

(** [requests.get], [raise_for_status] and the parse of the document. *)
Variable read_pdf : str -> pdf_read.
Variable read_html : str -> html_read.

Definition extract_title_from_pdf_metadata (url : str)
  : outcome (option str) :=
  match read_pdf url with
  | PdfMetadata title =>
      if truthy title then
        let title := strip (text title) in
        title <- of_scan (sub report_prefix_pattern title) ;;
        title <- of_scan (sub vfm_prefix_pattern title) ;;
        title <- of_scan (sub number_colon_pattern title) ;;
        title <- of_scan (sub number_space_pattern title) ;;
        Returns (if truthy (Some title) then Some title else None)
      else Returns None
  | PdfRaises => Returns None
  end.

(** The loop over [h1], [h2], [h3]. *)
Fixpoint first_heading_title (soup : html_page) (tags : list tag)
  : option str :=
  match tags with
  | [] => None
  | t :: tags' =>
      match find_heading soup t with
      | Some heading_text =>
          if truthy (Some (strip heading_text)) then
            let title := strip heading_text in
            if negb (contains title "Office of the Auditor General")
               && negb (contains title "Auditor General")
            then Some title
            else first_heading_title soup tags'
          else first_heading_title soup tags'
      | None => first_heading_title soup tags'
      end
  end.

Definition extract_title_from_html (url : str) : option str :=
  match read_html url with
  | HtmlPage soup =>
      match first_heading_title soup [h1; h2; h3] with
      | Some title => Some title
      | None =>
          match find_content_area soup with
          | Some (Some heading_text) =>
              if truthy (Some (strip heading_text)) then
                let title := strip heading_text in
                if negb (contains title "Office of the Auditor General")
                then Some title
                else None
              else None
          | _ => None
          end
      end
  | HtmlRaises => None
  end.

End Readers.

(** *** News releases: the citation *)

Definition extract_release_id (url : str) : option str :=
  find isdigit (split_chr "/" url).

(** The [data] object of a release as the API serves it: each field is
    [None] when the key is absent, a string when it is present, and the
    partner ministries are a list of objects with string fields. *)
Record release : Type := mkRelease {
  ministry_name : option str;
  partner_ministries : option (list dict);
  content_title : option str;
  release_type_name : option str;
  release_date_time_formatted : option str
}.

(** Outcome of the API call: the request raises, reading [data] out of
    the answer raises, or the release is there. *)
Inductive api_response : Type :=
| RequestRaises (e : str)
| ParseRaises (e : str)
| Release (data : release).

(** [d.get(key, default)] *)
Definition get {A : Type} (field : option A) (default : A) : A :=
  match field with
  | Some v => v
  | None => default
  end.

Section News.

(** [requests.get] and [raise_for_status] on the API address. *)
Variable requests_get : str -> api_response.

(** The result is the pair (citation, error). *)
Definition fetch_news_release_citation (url : str)
  : option str * option str :=
  let release_id := extract_release_id url in
  if negb (truthy release_id)
  then (None, Some ("Could not extract release ID from URL" : str))
  else
    let api_url :=
      "https://api.news.ontario.ca/api/v1/releases/" ++ text release_id
      ++ "?language=en" in
    match requests_get api_url with
    | RequestRaises e => (None, Some ("Error fetching data: " ++ e))
    | ParseRaises e => (None, Some ("Error parsing data: " ++ e))
    | Release data =>
        let main_ministry := get (ministry_name data) [] in
        let partner_ministries := get (partner_ministries data) [] in
        let ministries_str :=
          format_ministries main_ministry partner_ministries in
        let title := get (content_title data) ("No title" : str) in
        let release_type :=
          lower (get (release_type_name data) ("News Release" : str)) in
        let date_str := get (release_date_time_formatted data) [] in
        (Some (ministries_str ++ ", " ++ dquote ++ "[" ++ title ++ "]("
               ++ url ++ ")" ++ dquote ++ ", *" ++ release_type ++ "*, "
               ++ date_str ++ "."), None)
    end.

End News.

(** *** The page *)

(** What the page does with one URL: it reports an error, or it adds
    the triple (url, citation, type) to [citations].  The other display
    calls (progress, previews, captions) are not represented. *)
Inductive entry : Type :=
| Reported (url : str) (error : str)
| Collected (url : str) (citation : option str) (kind : citation_type).

(** The outcome of the call of [generate_docx] by the page; a citation
    that is [None] makes [pattern.split] raise [TypeError]. *)
Inductive docx_outcome : Type :=
| Buffer (doc : list paragraph)
| RaisesIndexError
| RaisesTypeError
| ScanUnfinished.

Fixpoint generate_docx_call (citation_texts : list (option str))
  : docx_outcome :=
  match citation_texts with
  | [] => Buffer []
  | None :: _ => RaisesTypeError
  | Some citation_md :: rest =>
      match render_citation citation_md with
      | Returns p =>
          match generate_docx_call rest with
          | Buffer ps => Buffer (p :: ps)
          | e => e
          end
      | IndexError => RaisesIndexError
      | Unfinished => ScanUnfinished
      end
  end.

(** What a click on the button gives: the warning, or the entries of
    the URLs and the document offered for download (none without a
    citation). *)
Inductive page_result : Type :=
| Warning
| Results (entries : list entry) (docx_buffer : option docx_outcome).

Section Page.

Variable extract_title_from_pdf_metadata : str -> option str.
Variable extract_title_from_html : str -> option str.
Variable requests_get : str -> api_response.
Variable fetch : str -> response.

(** [[url.strip() for url in urls_input.split('\n') if url.strip()]] *)
Definition urls (urls_input : str) : list str :=
  flat_map (fun url => if truthy (Some (strip url)) then [strip url] else [])
           (split_chr "010" urls_input).

(** The body of the loop over [urls]. *)
Definition process_url (url : str) : entry :=
  match detect_citation_type url with
  | Some ag =>
      let '(citation, error) :=
        fetch_ag_citation extract_title_from_pdf_metadata
                          extract_title_from_html url in
      if truthy error then Reported url (text error)
      else Collected url citation ag
  | Some news =>
      let '(citation, error) :=
        fetch_news_release_citation requests_get url in
      if truthy error then Reported url (text error)
      else Collected url citation news
  | Some elaws =>
      match fetch_elaws_citation fetch url with
      | ElawsError error _ _ _ _ => Reported url error
      | ElawsData full_title _ _ _ _ full_citation short_citation =>
          if truthy full_title
          then Collected url full_citation elaws
          else Collected url (Some short_citation) elaws
      end
  | None =>
      Reported url "URL is not recognized. Please check the URL format."
  end.

(** The list [citations] after the loop. *)
Definition citations (entries : list entry)
  : list (str * option str * citation_type) :=
  flat_map (fun e => match e with
                     | Collected url citation kind => [(url, citation, kind)]
                     | Reported _ _ => []
                     end) entries.

(** [[c[1] for c in citations]] *)
Definition all_citation_texts
           (citations : list (str * option str * citation_type))
  : list (option str) :=
  map (fun c => snd (fst c)) citations.

(** The block run when the button is pressed. *)
Definition generate (urls_input : str) : page_result :=
  if negb (truthy (Some (strip urls_input))) then Warning
  else
    let entries := map process_url (urls urls_input) in
    let citations := citations entries in
    Results entries
      (match citations with
       | [] => None
       | _ :: _ => Some (generate_docx_call (all_citation_texts citations))
       end).

End Page.

(** ** Vocabulary of the statements

    The definitions below are not part of the program: they are the words
    in which its properties are stated (occurrences, leftmost suffixes,
    tokens, titles), and the step-by-step reading of a deterministic match
    that the proofs go through. *)

Unset Implicit Arguments.

(** String literals and character classes stay folded under [simpl]. *)
Arguments list_ascii_of_string : simpl never.
Arguments digit : simpl never.
Arguments space : simpl never.
Arguments dot : simpl never.
Arguments non : simpl never.
Arguments chr_eqb : simpl nomatch.
Arguments Ascii.eqb : simpl nomatch.

(** *** Strings *)

(** [sub] occurs in [s] (case-sensitive). *)
Definition occurs (sub s : str) : Prop :=
  exists pre suf, s = pre ++ sub ++ suf.

(** Every character of [w] is in the class [p]. *)
Definition all_in (p : ascii -> bool) (w : str) : Prop :=
  forallb p w = true.

(** [rest] does not go on with a character of the class [p]. *)
Definition stops (p : ascii -> bool) (rest : str) : Prop :=
  match rest with
  | c :: _ => p c = false
  | [] => True
  end.

(** [t] is the leftmost suffix of [s] with the property [P], and [pre]
    is the text before it. *)
Definition leftmost (P : str -> Prop) (s pre t : str) : Prop :=
  s = pre ++ t
  /\ P t
  /\ forall pre' t', s = pre' ++ t' ->
                     List.length pre' < List.length pre -> ~ P t'.

(** No suffix of [s] has the property [P]. *)
Definition nowhere (P : str -> Prop) (s : str) : Prop :=
  forall pre t, s = pre ++ t -> ~ P t.

(** The text of [s] before the first [x] (all of [s] without an [x]). *)
Fixpoint before_first (x : ascii) (s : str) : str :=
  match s with
  | [] => []
  | c :: s' => if chr_eqb c x then [] else c :: before_first x s'
  end.

(** A string without a line feed. *)
Definition one_line (s : str) : Prop := all_in dot s.

(** *** The classifier *)

(** The classification rules, in priority order. *)
Inductive classify_spec (url : str) : option citation_type -> Prop :=
| classify_ag :
    occurs "auditor.on.ca" url -> classify_spec url (Some ag)
| classify_news :
    ~ occurs "auditor.on.ca" url ->
    occurs "news.ontario.ca" url -> classify_spec url (Some news)
| classify_elaws :
    ~ occurs "auditor.on.ca" url ->
    ~ occurs "news.ontario.ca" url ->
    occurs "ontario.ca/laws/statute" url
    \/ occurs "ontario.ca/laws/regulation" url ->
    classify_spec url (Some elaws)
| classify_none :
    ~ occurs "auditor.on.ca" url ->
    ~ occurs "news.ontario.ca" url ->
    ~ occurs "ontario.ca/laws/statute" url ->
    ~ occurs "ontario.ca/laws/regulation" url ->
    classify_spec url None.

(** *** The format branch *)

(** The path part of a URL as the format-branch sentence reads it: the
    URL up to its query string or fragment. *)
Fixpoint url_path (url : str) : str :=
  match url with
  | [] => []
  | c :: u =>
      if chr_eqb c "?" || chr_eqb c "#" then [] else c :: url_path u
  end.

(** A file extension that is [.pdf] up to the case of its letters. *)
Definition pdf_extension (ext : str) : Prop :=
  exists a b c : ascii,
    ext = ["."%char; a; b; c]
    /\ (a = "p"%char \/ a = "P"%char)
    /\ (b = "d"%char \/ b = "D"%char)
    /\ (c = "f"%char \/ c = "F"%char).

(** *** Ministries *)

(** The names carried by the partner records, in order. *)
Definition partner_names (partner_ministries : list dict) : list str :=
  flat_map (fun m => match dict_get m "name" with
                     | Some n => [n]
                     | None => []
                     end) partner_ministries.

(** The elements of [l] that are not in [seen], each at its first
    occurrence. *)
Fixpoint first_occurrences (seen l : list str) : list str :=
  match l with
  | [] => []
  | x :: l' =>
      if mem x seen then first_occurrences seen l'
      else x :: first_occurrences (x :: seen) l'
  end.

(** The ministries of a release: the main one, then the partners that are
    neither the main ministry nor listed already. *)
Definition ministry_list (main_ministry : str)
           (partner_ministries : list dict) : list str :=
  main_ministry
  :: first_occurrences [main_ministry] (partner_names partner_ministries).

(** [l1] is [l2] with some elements left out, order kept. *)
Inductive sublist : list str -> list str -> Prop :=
| sublist_nil : sublist [] []
| sublist_keep x l1 l2 : sublist l1 l2 -> sublist (x :: l1) (x :: l2)
| sublist_drop x l1 l2 : sublist l1 l2 -> sublist l1 (x :: l2).

(** *** Years *)

(** [t] begins with a year token: [en], [ar] or [fr], then the digit
    group [ds] of two to four digits, as many as there are up to four. *)
Definition year_token (t ds : str) : Prop :=
  exists tok rest : str,
    t = tok ++ ds ++ rest
    /\ (tok = "en" \/ tok = "ar" \/ tok = "fr")
    /\ all_in digit ds
    /\ 2 <= List.length ds <= 4
    /\ (List.length ds = 4 \/ stops digit rest).

Definition has_year_token (t : str) : Prop := exists ds, year_token t ds.

(** [t] begins with the four-digit year [y] of 1900..2099. *)
Definition bare_year (t y : str) : Prop :=
  exists (c d : ascii) (rest : str),
    t = y ++ rest
    /\ (y = "19" ++ [c; d] \/ y = "20" ++ [c; d])
    /\ digit c = true /\ digit d = true.

Definition has_bare_year (t : str) : Prop := exists y, bare_year t y.

(** The value of a decimal digit. *)
Definition digit_value (c : ascii) : nat := code c - 48.

(** A two-digit group of value [v] becomes [19v] when [v >= 50] and
    [20v] otherwise; longer groups are kept. *)
Definition expand_year (ds : str) : str :=
  match ds with
  | [a; b] =>
      if 50 <=? 10 * digit_value a + digit_value b
      then "19" ++ ds else "20" ++ ds
  | _ => ds
  end.

(** The year derivation, as the specification words it. *)
Inductive year_spec (url : str) : option str -> Prop :=
| year_of_token pre t ds :
    leftmost has_year_token url pre t ->
    year_token t ds ->
    year_spec url (Some (expand_year ds))
| year_of_bare pre t y :
    nowhere has_year_token url ->
    leftmost has_bare_year url pre t ->
    bare_year t y ->
    year_spec url (Some y)
| year_missing :
    nowhere has_year_token url ->
    nowhere has_bare_year url ->
    year_spec url None.

(** *** Chapters and sections *)

(** [t] begins with [v<digits>_], the chapter digit [c] and the
    two-digit section code [ss]. *)
Definition volume_token (t : str) (c : ascii) (ss : str) : Prop :=
  exists ds rest : str,
    t = "v" ++ ds ++ "_" ++ [c] ++ ss ++ rest
    /\ ds <> [] /\ all_in digit ds
    /\ digit c = true
    /\ all_in digit ss /\ List.length ss = 2.

Definition has_volume_token (t : str) : Prop :=
  exists c ss, volume_token t c ss.

(** [t] begins with the chapter digit [c], the two-digit section code
    [ss], [en] and two digits. *)
Definition leading_token (t : str) (c : ascii) (ss : str) : Prop :=
  exists (d1 d2 : ascii) (rest : str),
    t = [c] ++ ss ++ "en" ++ [d1; d2] ++ rest
    /\ digit c = true
    /\ all_in digit ss /\ List.length ss = 2
    /\ digit d1 = true /\ digit d2 = true.

(** Chapter [c] alone when the section code is [00], else chapter [c]
    and section [c.ss]. *)
Definition chapter_section_of (c : ascii) (ss : str)
  : option str * option str :=
  if eqb ss "00" then (Some [c], None)
  else (Some [c], Some ([c] ++ "." ++ ss)).

(** The chapter/section derivation, as the specification words it. *)
Inductive chapter_section_spec (filename : str)
  : option str * option str -> Prop :=
| chapter_by_volume pre t c ss :
    leftmost has_volume_token filename pre t ->
    volume_token t c ss ->
    chapter_section_spec filename (chapter_section_of c ss)
| chapter_by_leading c ss :
    nowhere has_volume_token filename ->
    leading_token filename c ss ->
    chapter_section_spec filename (chapter_section_of c ss)
| chapter_absent :
    nowhere has_volume_token filename ->
    (forall c ss, ~ leading_token filename c ss) ->
    chapter_section_spec filename (None, None).

(** *** Titles *)

(** [full] is the regulation short form [short] followed by [rest]:
    [O.], white space, [Reg.], white space, digits, [/], digits as far as
    they go. *)
Definition regulation_cut (full short rest : str) : Prop :=
  exists ws1 ws2 d1 d2 : str,
    full = short ++ rest
    /\ short = "O." ++ ws1 ++ "Reg." ++ ws2 ++ d1 ++ "/" ++ d2
    /\ all_in space ws1 /\ all_in space ws2
    /\ d1 <> [] /\ all_in digit d1
    /\ d2 <> [] /\ all_in digit d2
    /\ stops digit rest.

(** [full] is the statute short form [short] followed by [rest]: a text
    without comma, a comma, a space and four digits. *)
Definition statute_cut (full short rest : str) : Prop :=
  exists name year : str,
    full = short ++ rest
    /\ short = name ++ ", " ++ year
    /\ name <> [] /\ all_in (non ",") name
    /\ all_in digit year /\ List.length year = 4.

Definition regulation_short (full short : str) : Prop :=
  exists rest, regulation_cut full short rest.

Definition statute_short (full short : str) : Prop :=
  exists rest, statute_cut full short rest.

(** The short title is the leading short form [P] of the full title, or
    the full title when it has none. *)
Definition short_title_spec (P : str -> str -> Prop) (full short : str)
  : Prop :=
  P full short \/ ((forall x, ~ P full x) /\ short = full).

(** The full title of a page title: the text before the first dash,
    trimmed; a title that begins with a dash is kept as it is. *)
Definition full_title_of (page_title : str) : str :=
  match page_title with
  | c :: _ =>
      if chr_eqb c "-" then page_title
      else strip (before_first "-" page_title)
  | [] => page_title
  end.

(** The titles of a page, as the code computes them. *)
Inductive titles_spec (page_title : option str) (is_regulation : bool)
  : option str * str -> Prop :=
| titles_default :
    truthy page_title = false ->
    titles_spec page_title is_regulation
      (Some ("Legislation" : str), ("Legislation" : str))
| titles_regulation title short :
    page_title = Some title -> title <> [] ->
    is_regulation = true ->
    short_title_spec regulation_short (full_title_of title) short ->
    titles_spec page_title is_regulation (None, short)
| titles_statute title short :
    page_title = Some title -> title <> [] ->
    is_regulation = false ->
    short_title_spec statute_short (full_title_of title) short ->
    titles_spec page_title is_regulation (Some (full_title_of title), short).

(** *** Markup *)

(** A citation whose bracketed text holds a line feed. *)
Definition broken_link : str := "[a" ++ ["010"%char] ++ "b](u)".

(** *** Reading a deterministic match step by step *)

(** How many characters a greedy repetition of the class [p] takes from
    [s], having taken [n] already, with the upper bound [hi]. *)
Fixpoint run_length (p : ascii -> bool) (hi : option nat) (n : nat)
         (s : str) : nat :=
  match s with
  | c :: s' => if p c && below hi n then S (run_length p hi (S n) s') else 0
  | [] => 0
  end.

(** One literal character. *)
Definition expect (c : ascii) (st : nat * str) : option (nat * str) :=
  match snd st with
  | x :: s' => if chr_eqb c x then Some (S (fst st), s') else None
  | [] => None
  end.

(** The whole run of a class, of at least [lo] characters. *)
Definition take_run (p : ascii -> bool) (lo : nat) (st : nat * str)
  : option (nat * str) :=
  let k := run_length p None 0 (snd st) in
  if lo <=? k then Some (fst st + k, skipn k (snd st)) else None.

(** Exactly [k] characters of a class. *)
Definition take_exact (p : ascii -> bool) (k : nat) (st : nat * str)
  : option (nat * str) :=
  if (k <=? List.length (snd st)) && forallb p (firstn k (snd st))
  then Some (fst st + k, skipn k (snd st)) else None.

(** One step after the other. *)
Definition and_then {A B : Type} (o : option A) (f : A -> option B)
  : option B :=
  match o with
  | Some a => f a
  | None => None
  end.

(** The patterns [rs] cannot start with a character of the class [p]. *)
Definition refuses (p : ascii -> bool) (rs : list regex) : Prop :=
  forall j c t g, p c = true -> matches (Seq rs) (j, c :: t, g) = [].

(** The rest of a sequence after a step. *)
Definition go_on (rs : list regex) (g : marks) (o : option (nat * str))
  : list mstate :=
  match o with
  | Some st => matches (Seq rs) (fst st, snd st, g)
  | None => []
  end.

(** The steps of [regulation_body]. *)
Definition regulation_parse (st : nat * str) : option (nat * str) :=
  and_then (expect "O" st) (fun st =>
  and_then (expect "." st) (fun st =>
  and_then (take_run space 0 st) (fun st =>
  and_then (expect "R" st) (fun st =>
  and_then (expect "e" st) (fun st =>
  and_then (expect "g" st) (fun st =>
  and_then (expect "." st) (fun st =>
  and_then (take_run space 0 st) (fun st =>
  and_then (take_run digit 1 st) (fun st =>
  and_then (expect "/" st) (fun st =>
  take_run digit 1 st)))))))))).

(** The steps of [statute_body]. *)
Definition statute_parse (st : nat * str) : option (nat * str) :=
  and_then (take_run (non ",") 1 st) (fun st =>
  and_then (expect "," st) (fun st =>
  and_then (expect " " st) (fun st =>
  take_exact digit 4 st))).

(** [t] begins with [en], [ar] or [fr]. *)
Definition year_prefix (t : str) : bool :=
  startswith t "en" || startswith t "ar" || startswith t "fr".

(** [s] begins with two digits. *)
Definition two_digits (s : str) : bool :=
  (2 <=? List.length s) && forallb digit (firstn 2 s).

(** The number of digits after the [v] when [t] begins with a volume
    token: [v], digits, [_] and three more digits. *)
Definition volume_digits (t : str) : option nat :=
  match t with
  | v :: s1 =>
      let k := run_length digit None 0 s1 in
      match skipn k s1 with
      | u :: c :: s4 =>
          if chr_eqb "v" v && (1 <=? k) && chr_eqb "_" u && digit c
             && two_digits s4
          then Some k else None
      | _ => None
      end
  | [] => None
  end.

(** [t] begins with three digits, [en] and two digits. *)
Definition leading_ok (t : str) : bool :=
  match t with
  | c :: s1 =>
      digit c && two_digits s1 && startswith (skipn 2 s1) "en"
      && two_digits (skipn 4 s1)
  | [] => false
  end.

(** *** Pieces, trimmed texts and words *)

(** The pieces of a text cut at the separator [sep]: at least one piece,
    none of them holding the separator. *)
Definition pieces_of (sep : ascii) (l : list str) : Prop :=
  l <> [] /\ Forall (all_in (non sep)) l.

(** The text of [s] after the first [x] (nothing without an [x]). *)
Fixpoint after_first (x : ascii) (s : str) : str :=
  match s with
  | [] => []
  | c :: s' => if chr_eqb c x then s' else after_first x s'
  end.

(** Neither a question mark nor a hash sign. *)
Definition url_chr (c : ascii) : bool := non "?" c && non "#" c.

(** No white space at either end. *)
Definition trimmed (s : str) : Prop :=
  stops isspace s /\ stops isspace (rev s).

(** A word: a non-empty string without white space. *)
Definition word (w : str) : Prop :=
  w <> [] /\ all_in (fun c => negb (isspace c)) w.

(** Every match of [r] takes at least one character. *)
Definition consuming (r : regex) : Prop :=
  forall i s g e s' g', In (e, s', g') (matches r (i, s, g)) -> i < e.

(** *** Citations as marked-up text *)

(** The link text of an AG citation: the words of the title that the
    reader of the URL's format returns, joined by single spaces. *)
Definition ag_link_text (pdf html : str -> option str) (url : str) : str :=
  join " " (split_ws (text (if is_pdf_url url then pdf url else html url))).

(** A character that starts no markup token. *)
Definition plain_chr (c : ascii) : bool :=
  non "[" c && non "*" c && non "_" c.

(** The markup tokens: a link with its text and its target, and an
    italic text between two asterisks or two underscores. *)
Inductive token : Type :=
| Link (link_text link_url : str)
| Italic (mark : ascii) (body : str).

(** How a token is written. *)
Definition token_text (k : token) : str :=
  match k with
  | Link t u => "[" ++ t ++ "](" ++ u ++ ")"
  | Italic m y => [m] ++ y ++ [m]
  end.

(** A token whose texts hold no line feed and no character that would
    end them early. *)
Definition well_formed (k : token) : Prop :=
  match k with
  | Link t u =>
      one_line t /\ all_in (non "]") t /\ all_in (non "(") t
      /\ one_line u /\ all_in (non ")") u
  | Italic m y =>
      (m = "*"%char \/ m = "_"%char) /\ one_line y /\ all_in (non m) y
  end.

(** The run a token stands for. *)
Definition token_run (k : token) : run :=
  match k with
  | Link t u => Hyperlink t u
  | Italic _ y => Run true y
  end.

(** The run of a plain text; an empty text gives no run. *)
Definition text_run (s : str) : list run :=
  match s with
  | [] => []
  | _ :: _ => [Run false s]
  end.

(** A text written as the plain text [a0] followed by tokens, each with
    the plain text after it; its parts; its runs. *)
Fixpoint markdown (a0 : str) (l : list (token * str)) : str :=
  match l with
  | [] => a0
  | (k, a) :: l' => a0 ++ token_text k ++ markdown a l'
  end.

Fixpoint markdown_parts (a0 : str) (l : list (token * str)) : list str :=
  match l with
  | [] => [a0]
  | (k, a) :: l' => a0 :: token_text k :: markdown_parts a l'
  end.

Fixpoint markdown_runs (a0 : str) (l : list (token * str)) : list run :=
  match l with
  | [] => text_run a0
  | (k, a) :: l' => text_run a0 ++ token_run k :: markdown_runs a l'
  end.

(** Every plain text is free of token starts and every token is well
    formed. *)
Fixpoint well_written (a0 : str) (l : list (token * str)) : Prop :=
  match l with
  | [] => all_in plain_chr a0
  | (k, a) :: l' => all_in plain_chr a0 /\ well_formed k /\ well_written a l'
  end.

(** The parts of a split at the odd places (the matched tokens) and at
    the even places (the texts around them). *)
Fixpoint token_parts (parts : list str) : list str :=
  match parts with
  | _ :: k :: parts' => k :: token_parts parts'
  | _ => []
  end.

Fixpoint text_parts (parts : list str) : list str :=
  match parts with
  | a :: _ :: parts' => a :: text_parts parts'
  | l => l
  end.

(** A text that the tokenizer's pattern matches as a whole: a link or an
    italic text, on one line. *)
Definition token_shape (p : str) : Prop :=
  one_line p
  /\ ((exists t u, p = "[" ++ t ++ "](" ++ u ++ ")")
      \/ (exists m y, (m = "*"%char \/ m = "_"%char) /\ p = [m] ++ y ++ [m])).

(** The hyperlink test of the renderer. *)
Definition hyperlink_test (part : str) : bool :=
  startswith part "[" && contains part "](" && endswith part ")".

(** A hyperlink or an italic run. *)
Definition markup_run (r : run) : Prop :=
  match r with
  | Hyperlink _ _ => True
  | Run italic _ => italic = true
  end.

(** *** The page *)

(** The URL an entry is about. *)
Definition entry_url (e : entry) : str :=
  match e with
  | Reported url _ => url
  | Collected url _ _ => url
  end.

(** ** Properties *)

(** *** Strings and lists *)

Lemma chr_eqb_eq (a b : ascii) : chr_eqb a b = true <-> a = b.
Proof. apply Ascii.eqb_eq. Qed.

Lemma chr_eqb_refl (a : ascii) : chr_eqb a a = true.
Proof. apply Ascii.eqb_refl. Qed.

Lemma eqb_eq (a b : str) : eqb a b = true <-> a = b.
Proof.
  revert b; induction a as [|x a IH]; intros [|y b]; simpl;
    try (split; [discriminate | discriminate]); try tauto.
  rewrite andb_true_iff, chr_eqb_eq, IH.
  split; [intros [-> ->]; reflexivity | intros [= -> ->]; auto].
Qed.

Lemma eqb_refl (a : str) : eqb a a = true.
Proof. apply eqb_eq; reflexivity. Qed.

Lemma eqb_neq (a b : str) : eqb a b = false <-> a <> b.
Proof.
  rewrite <- eqb_eq. destruct (eqb a b); split; congruence.
Qed.

Lemma startswith_prefix (s p : str) :
  startswith s p = true <-> exists t, s = p ++ t.
Proof.
  revert s; induction p as [|x p IH]; intros s; simpl.
  - split; [exists s; reflexivity | intros _; destruct s; reflexivity].
  - destruct s as [|y s]; simpl.
    + split; [discriminate | intros [t H]; discriminate].
    + rewrite andb_true_iff, chr_eqb_eq, IH. split.
      * intros [-> [t ->]]. exists t; reflexivity.
      * intros [t [= -> ->]]. split; [reflexivity | exists t; reflexivity].
Qed.

Lemma startswith_app (p t : str) : startswith (p ++ t) p = true.
Proof. apply startswith_prefix; exists t; reflexivity. Qed.

Lemma contains_occurs (s sub : str) :
  contains s sub = true <-> occurs sub s.
Proof.
  unfold occurs. induction s as [|c s IH]; cbn [contains].
  - rewrite orb_false_r, startswith_prefix. split.
    + intros [t H]. exists [], t. exact H.
    + intros [[|x pre] [suf H]]; [exists suf; exact H | discriminate].
  - rewrite orb_true_iff, startswith_prefix, IH. split.
    + intros [[t H] | [pre [suf H]]].
      * exists [], t. exact H.
      * exists (c :: pre), suf. simpl. rewrite H. reflexivity.
    + intros [[|x pre] [suf H]].
      * left. exists suf. exact H.
      * right. injection H as -> H. exists pre, suf. exact H.
Qed.

Lemma contains_false (s sub : str) :
  contains s sub = false <-> ~ occurs sub s.
Proof.
  rewrite <- contains_occurs. destruct (contains s sub); split; congruence.
Qed.

Lemma endswith_suffix (s p : str) :
  endswith s p = true <-> exists pre, s = pre ++ p.
Proof.
  unfold endswith. rewrite eqb_eq. split.
  - intros H. exists (firstn (List.length s - List.length p) s).
    rewrite <- (firstn_skipn (List.length s - List.length p) s) at 1.
    rewrite H. reflexivity.
  - intros [pre ->]. rewrite length_app.
    replace (List.length pre + List.length p - List.length p)
      with (List.length pre + 0) by lia.
    rewrite skipn_app, Nat.add_0_r, skipn_all.
    replace (List.length pre - List.length pre) with 0 by lia.
    reflexivity.
Qed.

Ltac case_chr c x :=
  let E := fresh "E" in
  destruct (chr_eqb c x) eqn:E;
  [apply chr_eqb_eq in E; subst x | ].

Ltac by_cases_on_char c :=
  destruct c as [[] [] [] [] [] [] [] []]; vm_compute;
  try (intros; discriminate); auto.

Lemma class_not_chr (p : ascii -> bool) (x c : ascii) :
  p x = false -> p c = true -> chr_eqb x c = false.
Proof.
  intros Hx Hc. destruct (chr_eqb x c) eqn:E; [|reflexivity].
  apply chr_eqb_eq in E. congruence.
Qed.

Lemma digit_not_chr (x c : ascii) :
  digit x = false -> digit c = true -> chr_eqb x c = false.
Proof.
  intros Hx Hc. destruct (chr_eqb x c) eqn:E; [|reflexivity].
  apply chr_eqb_eq in E. congruence.
Qed.

Lemma space_not_digit (c : ascii) : space c = true -> digit c = false.
Proof. by_cases_on_char c. Qed.

Lemma digit_not_space (c : ascii) : digit c = true -> space c = false.
Proof.
  intros H. destruct (space c) eqn:E; [|reflexivity].
  apply space_not_digit in E. congruence.
Qed.

Lemma non_not_chr (x c : ascii) : non x c = true -> chr_eqb x c = false.
Proof.
  unfold non. intros H. apply negb_true_iff in H.
  destruct (chr_eqb x c) eqn:E; [|reflexivity].
  apply chr_eqb_eq in E. subst c. rewrite chr_eqb_refl in H. discriminate.
Qed.

Lemma hd_error_app {A : Type} (l1 l2 : list A) :
  hd_error (l1 ++ l2)
  = match hd_error l1 with
    | Some x => Some x
    | None => hd_error l2
    end.
Proof. destruct l1; reflexivity. Qed.

Lemma hd_error_map {A B : Type} (f : A -> B) (l : list A) :
  hd_error (map f l) = option_map f (hd_error l).
Proof. destruct l; reflexivity. Qed.

Lemma hd_error_In {A : Type} (l : list A) (x : A) :
  hd_error l = Some x -> In x l.
Proof. destruct l; [discriminate | intros [= <-]; left; reflexivity]. Qed.

Lemma flat_map_single {A B : Type} (f : A -> list B) (x : A) :
  flat_map f [x] = f x.
Proof. simpl. apply app_nil_r. Qed.

Lemma flat_map_map_compose {A B X : Type} (f : B -> list X) (h : A -> B)
      (l : list A) :
  flat_map f (map h l) = flat_map (fun x => f (h x)) l.
Proof.
  induction l as [|x l IH]; simpl; [reflexivity | rewrite IH; reflexivity].
Qed.

Lemma filter_all {A : Type} (l : list A) : filter (fun _ => true) l = l.
Proof.
  induction l as [|x l IH]; simpl; [reflexivity | rewrite IH; reflexivity].
Qed.

Lemma skipn_app_length (pre s : str) : skipn (List.length pre) (pre ++ s) = s.
Proof. rewrite skipn_app, skipn_all, Nat.sub_diag. reflexivity. Qed.

Lemma firstn_app_length (w rest : str) :
  firstn (List.length (w ++ rest) - List.length rest) (w ++ rest) = w.
Proof.
  rewrite length_app.
  replace (List.length w + List.length rest - List.length rest)
    with (List.length w + 0) by lia.
  rewrite firstn_app_2. cbn. apply app_nil_r.
Qed.

Lemma slice_skipn (s : str) (a b : nat) :
  a <= b -> slice s a b ++ skipn b s = skipn a s.
Proof.
  intros H. unfold slice.
  replace (skipn b s) with (skipn (b - a) (skipn a s)).
  - apply firstn_skipn.
  - rewrite skipn_skipn. f_equal. lia.
Qed.

Lemma slice_to_end (s : str) (a : nat) :
  slice s a (List.length s) = skipn a s.
Proof.
  unfold slice. apply firstn_all2. rewrite length_skipn. lia.
Qed.

Lemma slice_app (pre s : str) (a k : nat) :
  slice (pre ++ s) (List.length pre + a) (List.length pre + a + k)
  = firstn k (skipn a s).
Proof.
  unfold slice.
  replace (List.length pre + a + k - (List.length pre + a)) with k by lia.
  replace (List.length pre + a) with (a + List.length pre) by lia.
  rewrite <- skipn_skipn, skipn_app_length. reflexivity.
Qed.

Lemma slice_app_0 (pre s : str) (k : nat) :
  slice (pre ++ s) (List.length pre) (List.length pre + k) = firstn k s.
Proof.
  pose proof (slice_app pre s 0 k) as H. rewrite Nat.add_0_r in H. exact H.
Qed.

Lemma slice_app_at (pre s : str) (a k x y : nat) :
  x = List.length pre + a -> y = x + k ->
  slice (pre ++ s) x y = firstn k (skipn a s).
Proof. intros -> ->. apply slice_app. Qed.

Lemma all_in_app p (a b : str) :
  all_in p (a ++ b) <-> all_in p a /\ all_in p b.
Proof. unfold all_in. rewrite forallb_app, andb_true_iff. reflexivity. Qed.

Lemma nonempty_length (w : str) : 1 <= List.length w -> w <> [].
Proof. intros H ->. cbn in H. lia. Qed.

Lemma length_nonempty (w : str) : w <> [] -> 1 <= List.length w.
Proof. destruct w; [congruence | cbn; lia]. Qed.

Lemma stops_app (p q : ascii -> bool) (w s : str) :
  (forall c, q c = true -> p c = false) ->
  w <> [] -> all_in q w -> stops p (w ++ s).
Proof.
  intros H Hne Hw. destruct w as [|c w]; [congruence|].
  unfold all_in in Hw. cbn in Hw. apply andb_true_iff in Hw.
  cbn. apply H, Hw.
Qed.

Lemma last_char_split (y : str) (c : ascii) (x : str) :
  y <> [] -> (exists z, x ++ y = z ++ [c]) -> exists y', y = y' ++ [c].
Proof.
  intros Hne [z Hz].
  destruct (exists_last Hne) as (y' & d & ->).
  rewrite app_assoc in Hz. apply app_inj_tail in Hz. destruct Hz as [_ ->].
  exists y'. reflexivity.
Qed.

Lemma leftmost_unique (P : str -> Prop) (s pre t pre' t' : str) :
  leftmost P s pre t -> leftmost P s pre' t' -> pre = pre' /\ t = t'.
Proof.
  intros (Hs & HP & Hmin) (Hs' & HP' & Hmin').
  assert (Hlen : List.length pre = List.length pre').
  { destruct (Nat.lt_trichotomy (List.length pre) (List.length pre'))
      as [Hlt | [Heq | Hgt]]; [|exact Heq|].
    - exfalso. apply (Hmin' pre t Hs Hlt HP).
    - exfalso. apply (Hmin pre' t' Hs' Hgt HP'). }
  rewrite Hs in Hs'. apply app_eq_app in Hs'.
  destruct Hs' as [l [[H1 H2] | [H1 H2]]];
    (destruct l as [|x l];
     [rewrite app_nil_r in H1; cbn in H2; subst; auto
     | apply (f_equal (@List.length ascii)) in H1;
       rewrite length_app in H1; cbn in H1; lia]).
Qed.

(** ** The matcher *)

(** *** The defining equations *)

Lemma matches_Cat (r1 r2 : regex) (st : mstate) :
  matches (Cat r1 r2) st = flat_map (matches r2) (matches r1 st).
Proof. destruct st as [[i s] g]. reflexivity. Qed.

Lemma matches_Alt (r1 r2 : regex) (st : mstate) :
  matches (Alt r1 r2) st = matches r1 st ++ matches r2 st.
Proof. destruct st as [[i s] g]. reflexivity. Qed.

Lemma matches_Seq_cons (r : regex) (rs : list regex) (st : mstate) :
  matches (Seq (r :: rs)) st = flat_map (matches (Seq rs)) (matches r st).
Proof. destruct st as [[i s] g]. reflexivity. Qed.

Lemma matches_Seq_nil (st : mstate) : matches (Seq []) st = [st].
Proof. destruct st as [[i s] g]. reflexivity. Qed.

Lemma flat_map_Seq_nil (l : list mstate) :
  flat_map (matches (Seq [])) l = l.
Proof.
  induction l as [|x l IH]; cbn [flat_map]; [reflexivity|].
  rewrite matches_Seq_nil, IH. reflexivity.
Qed.

Lemma matches_Seq_last (r : regex) (st : mstate) :
  matches (Seq [r]) st = matches r st.
Proof. rewrite matches_Seq_cons. apply flat_map_Seq_nil. Qed.

Lemma matches_C (c : ascii) (i : nat) (s : str) (g : marks) :
  matches (C c) (i, s, g)
  = match s with
    | x :: s' => if chr_eqb c x then [(S i, s', g)] else []
    | [] => []
    end.
Proof. reflexivity. Qed.

Lemma matches_Chr p i s g :
  matches (Chr p) (i, s, g)
  = match s with
    | c :: s' => if p c then [(S i, s', g)] else []
    | [] => []
    end.
Proof. reflexivity. Qed.

Lemma matches_Lit (w : str) (i : nat) (s : str) (g : marks) :
  matches (Lit w) (i, s, g)
  = if startswith s w
    then [(i + List.length w, skipn (List.length w) s, g)] else [].
Proof.
  revert i s. induction w as [|c w IH]; intros i s.
  - simpl. rewrite Nat.add_0_r. destruct s; reflexivity.
  - cbn [Lit]. rewrite matches_Cat. destruct s as [|x s]; [reflexivity|].
    cbn [matches startswith]. destruct (chr_eqb c x); [|reflexivity].
    rewrite flat_map_single, IH. cbn [andb List.length skipn].
    rewrite Nat.add_succ_r. reflexivity.
Qed.

Lemma matches_Grp n r i s g :
  matches (Grp n r) (i, s, g)
  = map (fun x : mstate => let '(i', s', g') := x in (i', s', (n, (i, i')) :: g'))
        (matches r (i, s, g)).
Proof. reflexivity. Qed.

Lemma matches_Rep_greedy p lo hi i s g :
  matches (Rep p lo hi true) (i, s, g)
  = map (fun x => (fst x, snd x, g)) (rep_greedy p lo hi 0 i s).
Proof. reflexivity. Qed.

Lemma matches_Bol_Seq rs i s g :
  matches (Seq (Bol :: rs)) (i, s, g)
  = if i =? 0 then matches (Seq rs) (i, s, g) else [].
Proof.
  rewrite matches_Seq_cons. cbn [matches].
  destruct (i =? 0); [apply flat_map_single | reflexivity].
Qed.

(** *** What a match consumes

    Whatever a repetition or a pattern consumes is a prefix of the
    input, and the offset moves by its length. *)

Lemma rep_greedy_consumes p lo hi n i s i' s' :
  In (i', s') (rep_greedy p lo hi n i s) ->
  exists w, s = w ++ s' /\ i' = i + List.length w.
Proof.
  revert n i. induction s as [|c s IH]; intros n i; cbn [rep_greedy];
    rewrite in_app_iff.
  - intros [[] | H]. destruct (lo <=? n); [|contradiction].
    destruct H as [[= <- <-] | []]. exists []. split; [reflexivity | simpl; lia].
  - intros [H | H].
    + destruct (p c && below hi n); [|contradiction].
      apply IH in H. destruct H as [w [-> ->]].
      exists (c :: w). split; [reflexivity | simpl; lia].
    + destruct (lo <=? n); [|contradiction].
      destruct H as [[= <- <-] | []]. exists []. split; [reflexivity | simpl; lia].
Qed.

Lemma rep_lazy_consumes p lo hi n i s i' s' :
  In (i', s') (rep_lazy p lo hi n i s) ->
  exists w, s = w ++ s' /\ i' = i + List.length w.
Proof.
  revert n i. induction s as [|c s IH]; intros n i; cbn [rep_lazy];
    rewrite in_app_iff.
  - intros [H | []]. destruct (lo <=? n); [|contradiction].
    destruct H as [[= <- <-] | []]. exists []. split; [reflexivity | simpl; lia].
  - intros [H | H].
    + destruct (lo <=? n); [|contradiction].
      destruct H as [[= <- <-] | []]. exists []. split; [reflexivity | simpl; lia].
    + destruct (p c && below hi n); [|contradiction].
      apply IH in H. destruct H as [w [-> ->]].
      exists (c :: w). split; [reflexivity | simpl; lia].
Qed.

Lemma matches_consumes (r : regex) i s g i' s' g' :
  In (i', s', g') (matches r (i, s, g)) ->
  exists w, s = w ++ s' /\ i' = i + List.length w.
Proof.
  revert i s g i' s' g'.
  induction r as [|p|r1 IH1 r2 IH2|r1 IH1 r2 IH2|p lo hi gr|n r IH|];
    intros i s g i' s' g'; cbn [matches].
  - intros [[= <- <- <-] | []]. exists []. split; [reflexivity | simpl; lia].
  - destruct s as [|c s]; [intros []|].
    destruct (p c); [|intros []].
    intros [[= <- <- <-] | []]. exists [c]. split; [reflexivity | simpl; lia].
  - rewrite in_flat_map. intros [[[j t] h] [H1 H2]].
    apply IH1 in H1. apply IH2 in H2.
    destruct H1 as [w1 [-> ->]], H2 as [w2 [-> ->]].
    exists (w1 ++ w2). rewrite <- app_assoc, length_app.
    split; [reflexivity | lia].
  - rewrite in_app_iff. intros [H | H]; [apply IH1 in H | apply IH2 in H];
      exact H.
  - rewrite in_map_iff. intros [[j t] [[= <- <- <-] H]].
    destruct gr; [apply rep_greedy_consumes in H | apply rep_lazy_consumes in H];
      exact H.
  - rewrite in_map_iff. intros [[[j t] h] [[= <- <- <-] H]].
    apply IH in H. exact H.
  - destruct (i =? 0); [|intros []].
    intros [[= <- <- <-] | []]. exists []. split; [reflexivity | simpl; lia].
Qed.

(** *** Repetitions *)

Lemma run_length_le p hi n s : run_length p hi n s <= List.length s.
Proof.
  revert n. induction s as [|c s IH]; intros n; cbn [run_length List.length].
  - lia.
  - destruct (p c && below hi n); [specialize (IH (S n))|]; lia.
Qed.

Lemma run_length_stop p hi n c t :
  p c = false -> run_length p hi n (c :: t) = 0.
Proof. intros H. cbn [run_length]. rewrite H. reflexivity. Qed.

Lemma run_length_unbounded p n s :
  run_length p None n s = run_length p None 0 s.
Proof.
  revert n. induction s as [|c s IH]; intros n; cbn [run_length below].
  - reflexivity.
  - destruct (p c); cbn [andb]; [|reflexivity].
    rewrite (IH (S n)), (IH 1). reflexivity.
Qed.

(** The first choice of a greedy repetition is the longest one. *)
Lemma rep_greedy_hd p lo hi n i s :
  hd_error (rep_greedy p lo hi n i s)
  = if lo <=? n + run_length p hi n s
    then Some (i + run_length p hi n s, skipn (run_length p hi n s) s)
    else None.
Proof.
  revert n i. induction s as [|c s IH]; intros n i; cbn [rep_greedy run_length].
  - rewrite !Nat.add_0_r. destruct (lo <=? n); reflexivity.
  - rewrite hd_error_app. destruct (p c && below hi n).
    + rewrite IH. rewrite !Nat.add_succ_r. cbn [skipn Nat.add].
      destruct (lo <=? S (n + run_length p hi (S n) s)) eqn:E; [reflexivity|].
      apply Nat.leb_gt in E.
      destruct (lo <=? n) eqn:E'; [apply Nat.leb_le in E'; lia | reflexivity].
    + rewrite !Nat.add_0_r. cbn. destruct (lo <=? n); reflexivity.
Qed.

(** An unbounded greedy repetition followed by something that refuses
    the characters of its class has one way to go on: after the full
    run. *)
Lemma rep_greedy_then {X : Type} (f : nat * str -> list X) p lo n i s :
  (forall j c t, p c = true -> f (j, c :: t) = []) ->
  flat_map f (rep_greedy p lo None n i s)
  = if lo <=? n + run_length p None n s
    then f (i + run_length p None n s, skipn (run_length p None n s) s)
    else [].
Proof.
  intros Hf. revert n i.
  induction s as [|c s IH]; intros n i; cbn [rep_greedy run_length below].
  - rewrite !Nat.add_0_r. cbn. destruct (lo <=? n); cbn;
      [apply app_nil_r | reflexivity].
  - rewrite andb_true_r, flat_map_app. destruct (p c) eqn:Hc.
    + rewrite IH. rewrite !Nat.add_succ_r. cbn [skipn Nat.add].
      match goal with
      | |- _ ++ ?b = _ =>
          assert (E : b = [])
            by (destruct (lo <=? n); cbn;
                [rewrite Hf by exact Hc|]; reflexivity);
          rewrite E
      end.
      apply app_nil_r.
    + rewrite !Nat.add_0_r. cbn. destruct (lo <=? n); cbn;
        [apply app_nil_r | reflexivity].
Qed.

(** A repetition of exactly [k] characters. *)
Lemma rep_greedy_exact p k n i s :
  n <= k ->
  rep_greedy p k (Some k) n i s
  = if (k - n <=? List.length s) && forallb p (firstn (k - n) s)
    then [(i + (k - n), skipn (k - n) s)] else [].
Proof.
  revert n i. induction s as [|c s IH]; intros n i Hn;
    cbn [rep_greedy below List.length].
  - destruct (k <=? n) eqn:E.
    + apply Nat.leb_le in E. replace (k - n) with 0 by lia.
      cbn. rewrite Nat.add_0_r. reflexivity.
    + apply Nat.leb_gt in E.
      replace (k - n <=? 0) with false by (symmetry; apply Nat.leb_gt; lia).
      reflexivity.
  - destruct (n <? k) eqn:E.
    + apply Nat.ltb_lt in E.
      replace (k <=? n) with false by (symmetry; apply Nat.leb_gt; lia).
      rewrite app_nil_r, andb_true_r.
      replace (k - n) with (S (k - S n)) by lia.
      cbn [firstn forallb skipn]. destruct (p c).
      * rewrite IH by lia. cbn [andb].
        replace (S (k - S n) <=? S (List.length s))
          with (k - S n <=? List.length s) by reflexivity.
        rewrite Nat.add_succ_r. reflexivity.
      * cbn [andb]. rewrite andb_false_r. reflexivity.
    + apply Nat.ltb_ge in E. rewrite andb_false_r.
      replace (k <=? n) with true by (symmetry; apply Nat.leb_le; lia).
      replace (k - n) with 0 by lia. cbn. rewrite Nat.add_0_r. reflexivity.
Qed.

Lemma matches_exact_digits (k i : nat) (s : str) (g : marks) :
  matches (Rep digit k (Some k) true) (i, s, g)
  = if (k <=? List.length s) && forallb digit (firstn k s)
    then [(i + k, skipn k s, g)] else [].
Proof.
  cbn [matches]. rewrite rep_greedy_exact by lia. rewrite Nat.sub_0_r.
  destruct ((k <=? List.length s) && forallb digit (firstn k s)); reflexivity.
Qed.

(** The run of a class, read off a decomposition of the input. *)
Lemma run_app p hi n w rest :
  all_in p w ->
  (forall h, hi = Some h -> n + List.length w <= h) ->
  stops p rest \/ hi = Some (n + List.length w) ->
  run_length p hi n (w ++ rest) = List.length w.
Proof.
  unfold all_in. revert n. induction w as [|c w IH]; intros n Hw Hh Hr.
  - cbn [app List.length]. destruct rest as [|c rest]; [reflexivity|].
    cbn [run_length]. destruct Hr as [Hr | ->].
    + cbn in Hr. rewrite Hr. reflexivity.
    + cbn [below List.length]. rewrite Nat.add_0_r, Nat.ltb_irrefl.
      rewrite andb_false_r. reflexivity.
  - cbn in Hw. apply andb_true_iff in Hw. destruct Hw as [Hc Hw].
    cbn [app run_length List.length]. rewrite Hc.
    replace (below hi n) with true.
    + cbn [andb]. f_equal. apply IH; [exact Hw | |].
      * intros h Hhi. specialize (Hh h Hhi). cbn in Hh. lia.
      * destruct Hr as [Hr | ->]; [left; exact Hr | right; f_equal; cbn; lia].
    + destruct hi as [h|]; [|reflexivity]. cbn.
      specialize (Hh h eq_refl). cbn in Hh. symmetry. apply Nat.ltb_lt. lia.
Qed.

Lemma run_split p hi n s :
  (forall h, hi = Some h -> n <= h) ->
  all_in p (firstn (run_length p hi n s) s)
  /\ (forall h, hi = Some h -> n + run_length p hi n s <= h)
  /\ (stops p (skipn (run_length p hi n s) s) \/ hi = Some (n + run_length p hi n s)).
Proof.
  unfold all_in. revert n. induction s as [|c s IH]; intros n Hn; cbn [run_length].
  - repeat split; [intros h Hh; specialize (Hn h Hh); lia | left; exact I].
  - destruct (p c) eqn:Hc; cbn [andb].
    + destruct (below hi n) eqn:Hb.
      * destruct (IH (S n)) as (H1 & H2 & H3).
        { intros h Hh. subst hi. cbn in Hb. apply Nat.ltb_lt in Hb. lia. }
        cbn [firstn forallb skipn]. rewrite Hc, H1. repeat split.
        -- intros h Hhi. specialize (H2 h Hhi). lia.
        -- destruct H3 as [H3 | H3]; [left; exact H3|].
           right. etransitivity; [exact H3|]. f_equal. lia.
      * cbn. repeat split; [intros h Hh; specialize (Hn h Hh); lia|].
        destruct hi as [h|]; [|discriminate]. cbn in Hb.
        apply Nat.ltb_ge in Hb. specialize (Hn h eq_refl).
        right. f_equal. lia.
    + cbn. repeat split; [intros h Hh; specialize (Hn h Hh); lia|].
      left. exact Hc.
Qed.

Lemma rep_lazy_reach p n i w rest :
  all_in p w -> In (i + List.length w, rest) (rep_lazy p 0 None n i (w ++ rest)).
Proof.
  unfold all_in. revert n i. induction w as [|c w IH]; intros n i Hw.
  - cbn [app List.length]. rewrite Nat.add_0_r.
    destruct rest; cbn [rep_lazy Nat.leb]; left; reflexivity.
  - cbn in Hw. apply andb_true_iff in Hw. destruct Hw as [Hc Hw].
    cbn [app rep_lazy Nat.leb below List.length]. rewrite Hc. cbn [andb].
    right. cbn [app]. rewrite Nat.add_succ_r. apply (IH (S n) (S i) Hw).
Qed.

(** *** Deterministic steps of a match

    A literal character, the whole run of a class before something
    that refuses the class, and an exact count leave the matcher one way
    to go on. *)

Lemma matches_Seq_C c rs i s g :
  matches (Seq (C c :: rs)) (i, s, g) = go_on rs g (expect c (i, s)).
Proof.
  rewrite matches_Seq_cons, matches_C. unfold expect, go_on. cbn [fst snd].
  destruct s as [|x s]; [reflexivity|].
  destruct (chr_eqb c x); [apply flat_map_single | reflexivity].
Qed.

Lemma matches_Seq_run p lo rs i s g :
  refuses p rs ->
  matches (Seq (Rep p lo None true :: rs)) (i, s, g)
  = go_on rs g (take_run p lo (i, s)).
Proof.
  intros Hr. rewrite matches_Seq_cons, matches_Rep_greedy.
  rewrite flat_map_map_compose, rep_greedy_then.
  - unfold take_run, go_on. cbn [fst snd Nat.add].
    destruct (lo <=? run_length p None 0 s); reflexivity.
  - intros j c t Hc. cbn [fst snd]. apply Hr, Hc.
Qed.

Lemma matches_Seq_exact p k rs i s g :
  matches (Seq (Rep p k (Some k) true :: rs)) (i, s, g)
  = go_on rs g (take_exact p k (i, s)).
Proof.
  rewrite matches_Seq_cons. cbn [matches].
  rewrite rep_greedy_exact by lia. rewrite Nat.sub_0_r.
  unfold take_exact, go_on. cbn [fst snd].
  destruct ((k <=? List.length s) && forallb p (firstn k s));
    [apply flat_map_single | reflexivity].
Qed.

Lemma hd_matches_Seq_run_last p lo i s g :
  hd_error (matches (Seq [Rep p lo None true]) (i, s, g))
  = option_map (fun st => (fst st, snd st, g)) (take_run p lo (i, s)).
Proof.
  rewrite matches_Seq_last, matches_Rep_greedy, hd_error_map, rep_greedy_hd.
  unfold take_run. cbn [fst snd Nat.add].
  destruct (lo <=? run_length p None 0 s); reflexivity.
Qed.

Lemma refuses_C p x rs :
  (forall c, p c = true -> chr_eqb x c = false) -> refuses p (C x :: rs).
Proof.
  intros H j c t g Hc. rewrite matches_Seq_C. unfold expect. cbn [snd].
  rewrite (H c Hc). reflexivity.
Qed.

Lemma refuses_run p q lo rs :
  (forall c, p c = true -> q c = false) ->
  1 <= lo -> refuses q rs ->
  refuses p (Rep q lo None true :: rs).
Proof.
  intros H Hlo Hr j c t g Hc. rewrite matches_Seq_run by exact Hr.
  unfold take_run. cbn [snd]. rewrite run_length_stop by (apply H, Hc).
  replace (lo <=? 0) with false by (symmetry; apply Nat.leb_gt; lia).
  reflexivity.
Qed.

(** What the steps say about the input. *)
Lemma expect_some c i s st :
  expect c (i, s) = Some st <-> s = c :: snd st /\ fst st = S i.
Proof.
  unfold expect. cbn [fst snd]. destruct s as [|x s].
  - split; [discriminate | intros [H _]; discriminate].
  - destruct (chr_eqb c x) eqn:E.
    + apply chr_eqb_eq in E. subst x. split.
      * intros [= <-]. auto.
      * intros [[= ->] H]. destruct st; cbn in *; subst; reflexivity.
    + split; [discriminate|]. intros [[= -> _] _].
      rewrite chr_eqb_refl in E. discriminate.
Qed.

Lemma take_run_some p lo i s st :
  take_run p lo (i, s) = Some st
  <-> exists w, s = w ++ snd st /\ all_in p w /\ lo <= List.length w
                /\ stops p (snd st) /\ fst st = i + List.length w.
Proof.
  unfold take_run. cbn [fst snd]. split.
  - destruct (lo <=? run_length p None 0 s) eqn:E; [|discriminate].
    intros [= <-]. cbn [fst snd]. apply Nat.leb_le in E.
    destruct (run_split p None 0 s) as (H1 & _ & H3); [discriminate|].
    pose proof (run_length_le p None 0 s) as Hle.
    exists (firstn (run_length p None 0 s) s).
    rewrite firstn_skipn, length_firstn.
    replace (Init.Nat.min (run_length p None 0 s) (List.length s))
      with (run_length p None 0 s) by lia.
    repeat split; auto.
    destruct H3 as [H3 | H3]; [exact H3 | discriminate].
  - intros (w & -> & Hw & Hlo & Hs & Hi).
    rewrite (run_app p None 0 w (snd st) Hw) by (discriminate || auto).
    replace (lo <=? List.length w) with true
      by (symmetry; apply Nat.leb_le; exact Hlo).
    rewrite skipn_app, skipn_all, Nat.sub_diag. cbn [skipn app].
    rewrite <- Hi. destruct st; reflexivity.
Qed.

Lemma take_exact_some p k i s st :
  take_exact p k (i, s) = Some st
  <-> exists w, s = w ++ snd st /\ all_in p w /\ List.length w = k
                /\ fst st = i + k.
Proof.
  unfold take_exact. cbn [fst snd]. split.
  - destruct (k <=? List.length s) eqn:E; [|discriminate].
    destruct (forallb p (firstn k s)) eqn:F; [|discriminate].
    intros [= <-]. cbn [fst snd]. apply Nat.leb_le in E.
    exists (firstn k s). rewrite firstn_skipn, length_firstn.
    repeat split; auto. lia.
  - intros (w & -> & Hw & <- & Hi).
    rewrite length_app, firstn_app, Nat.sub_diag, firstn_all.
    cbn [firstn]. rewrite app_nil_r, Hw.
    replace (List.length w <=? List.length w + List.length (snd st))
      with true by (symmetry; apply Nat.leb_le; lia).
    rewrite skipn_app, skipn_all, Nat.sub_diag. cbn [skipn app andb].
    rewrite <- Hi. destruct st; reflexivity.
Qed.

Lemma expect_cons c i s : expect c (i, c :: s) = Some (S i, s).
Proof. unfold expect. cbn [fst snd]. rewrite chr_eqb_refl. reflexivity. Qed.

Lemma take_run_app p lo i w s :
  all_in p w -> lo <= List.length w -> stops p s ->
  take_run p lo (i, w ++ s) = Some (i + List.length w, s).
Proof.
  intros Hw Hlo Hs. apply take_run_some. exists w. cbn [fst snd]. auto.
Qed.

Lemma take_exact_app p i w s :
  all_in p w ->
  take_exact p (List.length w) (i, w ++ s) = Some (i + List.length w, s).
Proof.
  intros Hw. apply take_exact_some. exists w. cbn [fst snd]. auto.
Qed.

Ltac step_go_on :=
  match goal with
  | |- context [go_on _ _ ?o] =>
      destruct o as [[? ?]|]; cbn [go_on and_then fst snd option_map];
      [|reflexivity]
  end.

Ltac open_step H :=
  match type of H with
  | and_then ?o _ = Some _ =>
      let E := fresh "E" in
      destruct o as [[? ?]|] eqn:E; cbn [and_then] in H; [|discriminate H];
      first [apply expect_some in E; cbn [fst snd] in E; destruct E as [E _]
            | apply take_run_some in E; cbn [fst snd] in E;
              destruct E as (? & E & ? & ? & ? & _)
            | apply take_exact_some in E; cbn [fst snd] in E;
              destruct E as (? & E & ? & ? & _)]
  end.

(** *** Search *)

Lemma attempt_false (r : regex) (whole : str) (i : nat) (s : str) :
  attempt r whole false i s
  = match matches r (i, s, []) with
    | (e, _, g) :: _ => Some (mkMatch whole i e g)
    | [] => None
    end.
Proof. unfold attempt. cbn [negb orb]. rewrite filter_all. reflexivity. Qed.

Lemma attempt_none (r : regex) (whole : str) (i : nat) (s : str) :
  attempt r whole false i s = None -> matches r (i, s, []) = [].
Proof.
  rewrite attempt_false.
  destruct (matches r (i, s, [])) as [|[[? ?] ?] ?];
    [reflexivity | discriminate].
Qed.

Lemma attempt_hd (r : regex) (whole : str) (i : nat) (s : str) :
  attempt r whole false i s
  = option_map (fun st : mstate => mkMatch whole i (fst (fst st)) (snd st))
               (hd_error (matches r (i, s, []))).
Proof.
  rewrite attempt_false.
  destruct (matches r (i, s, [])) as [|[[? ?] ?] ?]; reflexivity.
Qed.

Lemma attempt_result (r : regex) whole adv i s m :
  attempt r whole adv i s = Some m ->
  m_string m = whole /\ m_start m = i
  /\ (exists s', In (m_end m, s', m_marks m) (matches r (i, s, [])))
  /\ (adv = true -> m_end m <> i).
Proof.
  unfold attempt.
  match goal with
  | |- context [filter ?f ?x] => remember (filter f x) as l eqn:E
  end.
  destruct l as [|[[e s'] g] l]; cbn beta iota; [discriminate|].
  intros [= <-]. cbn.
  assert (Hin : In (e, s', g) ((e, s', g) :: l)) by (left; reflexivity).
  rewrite E in Hin.
  apply filter_In in Hin. destruct Hin as [Hin Hc]. cbn in Hc.
  repeat split.
  - exists s'. exact Hin.
  - intros ->. cbn in Hc. apply negb_true_iff, Nat.eqb_neq in Hc. exact Hc.
Qed.

Lemma search_from_result (r : regex) whole adv i s m :
  search_from r whole adv i s = Some m ->
  exists pre t,
    s = pre ++ t
    /\ m_string m = whole
    /\ m_start m = i + List.length pre
    /\ (exists s', In (m_end m, s', m_marks m)
                      (matches r (m_start m, t, [])))
    /\ (adv = true -> pre = [] -> m_end m <> m_start m).
Proof.
  revert adv i. induction s as [|c s IH]; intros adv i; cbn [search_from].
  - destruct (attempt r whole adv i []) as [m'|] eqn:E; [|discriminate].
    intros [= ->]. apply attempt_result in E.
    destruct E as (H1 & H2 & H3 & H4).
    exists [], []. rewrite H2 in *. cbn. rewrite Nat.add_0_r. intuition auto.
  - destruct (attempt r whole adv i (c :: s)) as [m'|] eqn:E.
    + intros [= ->]. apply attempt_result in E.
      destruct E as (H1 & H2 & H3 & H4).
      exists [], (c :: s). rewrite H2 in *. cbn. rewrite Nat.add_0_r.
      intuition auto.
    + intros H. apply IH in H.
      destruct H as (pre & t & -> & H1 & H2 & H3 & _).
      exists (c :: pre), t. cbn. rewrite H2.
      repeat split; auto; try lia.
      * rewrite <- H2. exact H3.
      * discriminate.
Qed.

(** Searching without [must_advance]: the match is the head of the
    enumeration at the leftmost offset where the enumeration is not
    empty. *)
Lemma search_from_some (r : regex) whole i s m :
  search_from r whole false i s = Some m ->
  exists pre t,
    s = pre ++ t
    /\ attempt r whole false (i + List.length pre) t = Some m
    /\ forall pre' t', s = pre' ++ t' ->
                       List.length pre' < List.length pre ->
                       matches r (i + List.length pre', t', []) = [].
Proof.
  revert i. induction s as [|c s IH]; intros i; cbn [search_from].
  - destruct (attempt r whole false i []) as [m'|] eqn:E; [|discriminate].
    intros [= ->]. exists [], []. cbn. rewrite Nat.add_0_r.
    repeat split; auto. intros; lia.
  - destruct (attempt r whole false i (c :: s)) as [m'|] eqn:E.
    + intros [= ->]. exists [], (c :: s). cbn. rewrite Nat.add_0_r.
      repeat split; auto. intros; lia.
    + intros H. apply IH in H. destruct H as (pre & t & -> & H1 & H2).
      exists (c :: pre), t. cbn [List.length app].
      replace (i + S (List.length pre)) with (S i + List.length pre) by lia.
      repeat split; auto.
      intros [|x pre'] t' Hs Hl.
      * cbn in Hs. subst t'. cbn. rewrite Nat.add_0_r.
        apply attempt_none in E. exact E.
      * cbn in Hs. injection Hs as -> Hs. cbn [List.length] in *.
        replace (i + S (List.length pre')) with (S i + List.length pre')
          by lia.
        apply H2; [exact Hs | lia].
Qed.

Lemma search_from_none (r : regex) whole i s :
  search_from r whole false i s = None ->
  forall pre t, s = pre ++ t -> matches r (i + List.length pre, t, []) = [].
Proof.
  revert i. induction s as [|c s IH]; intros i; cbn [search_from].
  - destruct (attempt r whole false i []) as [m'|] eqn:E; [discriminate|].
    intros _ pre t Hs. symmetry in Hs. apply app_eq_nil in Hs.
    destruct Hs as [-> ->]. cbn. rewrite Nat.add_0_r.
    apply attempt_none in E. exact E.
  - destruct (attempt r whole false i (c :: s)) as [m'|] eqn:E;
      [discriminate|].
    intros H [|x pre] t Hs.
    + cbn in Hs. subst t. cbn. rewrite Nat.add_0_r.
      apply attempt_none in E. exact E.
    + cbn in Hs. injection Hs as -> Hs. cbn [List.length].
      replace (i + S (List.length pre)) with (S i + List.length pre) by lia.
      apply (IH (S i) H pre t Hs).
Qed.

(** The leftmost non-empty enumeration is at the leftmost suffix with the
    property that makes enumerations non-empty. *)
Lemma search_leftmost (r : regex) (P : str -> Prop) (s : str) (m : Match) :
  (forall i t, matches r (i, t, []) <> [] <-> P t) ->
  search r s = Some m ->
  exists pre t,
    leftmost P s pre t
    /\ attempt r (pre ++ t) false (List.length pre) t = Some m.
Proof.
  intros HP H. unfold search in H. apply search_from_some in H.
  destruct H as (pre & t & Hs & Hatt & Hearly). cbn [Nat.add] in *.
  exists pre, t. split; [|rewrite <- Hs; exact Hatt].
  split; [exact Hs|]. split.
  - apply (HP (List.length pre) t). intros E.
    rewrite attempt_false, E in Hatt. discriminate.
  - intros pre' t' Hs' Hl HP'. apply (HP (List.length pre') t') in HP'.
    apply HP'. apply Hearly; assumption.
Qed.

Lemma search_nowhere (r : regex) (P : str -> Prop) (s : str) :
  (forall i t, matches r (i, t, []) <> [] <-> P t) ->
  search r s = None -> nowhere P s.
Proof.
  intros HP H pre t Hs HPt. unfold search in H.
  apply (HP (List.length pre) t) in HPt. apply HPt.
  apply (search_from_none _ _ _ _ H pre t Hs).
Qed.

Lemma search_from_Bol rs whole i s :
  0 < i -> search_from (Seq (Bol :: rs)) whole false i s = None.
Proof.
  revert i. induction s as [|c s IH]; intros i Hi; cbn [search_from];
    rewrite attempt_false, matches_Bol_Seq;
    replace (i =? 0) with false by (symmetry; apply Nat.eqb_neq; lia).
  - reflexivity.
  - apply IH. lia.
Qed.

(** An anchored pattern is only tried at the start. *)
Lemma search_Bol rs s :
  search (Seq (Bol :: rs)) s = match_ (Seq (Bol :: rs)) s.
Proof.
  unfold search, match_.
  destruct s as [|c s]; cbn [search_from];
    destruct (attempt _ _ false 0 _); try reflexivity.
  apply search_from_Bol. lia.
Qed.

Lemma match_anchored_group (r : regex)
      (parse : nat * str -> option (nat * str)) (s : str) :
  (forall i t g,
      hd_error (matches r (i, t, g))
      = option_map (fun st => (fst st, snd st, g)) (parse (i, t))) ->
  match match_ (Seq [Bol; Grp 1 r]) s with
  | Some m => Some (text (group m 1))
  | None => None
  end
  = option_map (fun st => firstn (List.length s - List.length (snd st)) s)
               (parse (0, s)).
Proof.
  intros Hhd. unfold match_. rewrite attempt_hd, matches_Bol_Seq.
  cbn [Nat.eqb]. rewrite matches_Seq_last, matches_Grp, hd_error_map.
  pose proof (hd_error_In (matches r (0, s, []))) as Hin.
  rewrite Hhd in *.
  destruct (parse (0, s)) as [[e rest]|]; [|reflexivity].
  cbn [option_map fst snd] in *. specialize (Hin _ eq_refl).
  apply matches_consumes in Hin. destruct Hin as (w & -> & ->).
  unfold group. cbn [m_marks m_string mark Nat.eqb option_map fst snd text].
  unfold slice. cbn [skipn Nat.add]. rewrite Nat.sub_0_r, firstn_app_length.
  rewrite firstn_app, Nat.sub_diag, firstn_all. cbn. rewrite app_nil_r.
  reflexivity.
Qed.

(** *** The scanning loop *)

Lemma search_from_bounds (r : regex) (whole : str) adv pos m :
  pos <= List.length whole ->
  search_from r whole adv pos (skipn pos whole) = Some m ->
  m_string m = whole
  /\ pos <= m_start m /\ m_start m <= m_end m
  /\ m_end m <= List.length whole
  /\ (exists t s', In (m_end m, s', m_marks m)
                      (matches r (m_start m, t, [])))
  /\ (adv = true -> m_start m = pos -> m_end m <> m_start m).
Proof.
  intros Hpos H. apply search_from_result in H.
  destruct H as (pre & t & Hs & H1 & H2 & [s' H3] & H4).
  pose proof (matches_consumes _ _ _ _ _ _ _ H3) as [w [Hw He]].
  apply (f_equal (@List.length ascii)) in Hs.
  rewrite length_skipn, length_app, Hw, length_app in Hs.
  repeat split; try lia.
  - exact H1.
  - exists t, s'. exact H3.
  - intros Ha Hp. apply H4; [exact Ha|].
    destruct pre; [reflexivity | simpl in H2; lia].
Qed.

(** The loop ends within its bound, for every pattern. *)
Lemma scan_total (r : regex) (whole : str) (fuel pos : nat) (adv : bool) :
  pos <= List.length whole ->
  2 * (List.length whole - pos) + (if adv then 0 else 1) < fuel ->
  exists ms, scan fuel r whole pos adv = Some ms.
Proof.
  revert pos adv. induction fuel as [|fuel IH]; intros pos adv Hpos Hfuel;
    [lia|].
  cbn [scan].
  destruct (search_from r whole adv pos (skipn pos whole)) as [m|] eqn:E.
  - apply search_from_bounds in E; [|exact Hpos].
    destruct E as (_ & H1 & H2 & H3 & _ & H4).
    destruct (IH (m_end m) (m_end m =? m_start m)) as [ms Hms].
    + exact H3.
    + destruct (m_end m =? m_start m) eqn:Ee.
      * apply Nat.eqb_eq in Ee. destruct adv.
        -- assert (m_start m <> pos)
             by (intros Hp; apply (H4 eq_refl Hp); exact Ee).
           lia.
        -- lia.
      * apply Nat.eqb_neq in Ee. destruct adv; lia.
    + rewrite Hms. eexists. reflexivity.
  - eexists. reflexivity.
Qed.

Lemma finditer_total (r : regex) (s : str) :
  exists ms, finditer r s = Some ms.
Proof. apply scan_total; simpl; lia. Qed.

(** When the whole pattern is group 1, the pieces of [split] are all
    strings and put together they give back the text they were cut
    from. *)
Lemma scan_split_concat (r : regex) (whole : str) :
  groups r = 0 ->
  forall fuel pos adv ms,
    pos <= List.length whole ->
    scan fuel (Grp 1 r) whole pos adv = Some ms ->
    exists parts,
      split_parts 1 whole pos ms = map Some parts
      /\ List.concat parts = skipn pos whole.
Proof.
  intros Hg. induction fuel as [|fuel IH]; intros pos adv ms Hpos;
    [discriminate|].
  cbn [scan].
  destruct (search_from (Grp 1 r) whole adv pos (skipn pos whole))
    as [m|] eqn:E.
  - destruct (scan fuel (Grp 1 r) whole (m_end m) (m_end m =? m_start m))
      as [ms'|] eqn:E'; [|discriminate].
    intros [= <-].
    apply search_from_bounds in E; [|exact Hpos].
    destruct E as (H0 & H1 & H2 & H3 & (t & s' & Hin) & _).
    apply IH in E'; [|exact H3]. destruct E' as (parts & Hp & Hc).
    assert (Hgrp : group m 1 = Some (slice whole (m_start m) (m_end m))).
    { cbn [matches] in Hin. apply in_map_iff in Hin.
      destruct Hin as [[[e u] g] [Heq _]].
      unfold group. injection Heq as He Hu Hm. rewrite <- Hm, H0. cbn.
      rewrite He. reflexivity. }
    exists (slice whole pos (m_start m)
            :: slice whole (m_start m) (m_end m) :: parts).
    split.
    + cbn [split_parts seq map app]. rewrite Hgrp, Hp. reflexivity.
    + cbn [List.concat]. rewrite Hc, slice_skipn, slice_skipn by lia.
      reflexivity.
  - intros [= <-]. exists [skipn pos whole]. split.
    + cbn [split_parts map]. rewrite slice_to_end. reflexivity.
    + cbn [List.concat]. apply app_nil_r.
Qed.

Lemma split_whole_group (r : regex) :
  groups r = 0 ->
  forall s : str,
    exists parts : list str,
      split (Grp 1 r) s = Some (map Some parts)
      /\ List.concat parts = s.
Proof.
  intros Hg s. unfold split.
  destruct (finditer_total (Grp 1 r) s) as [ms Hms].
  rewrite Hms. cbn [option_map].
  unfold finditer in Hms.
  apply (scan_split_concat r s Hg) in Hms; [|lia].
  destruct Hms as (parts & Hp & Hc).
  exists parts. split; [|exact Hc].
  cbn [groups]. rewrite Hg. f_equal. exact Hp.
Qed.

(** A pattern that matches somewhere is found by [findall]. *)
Lemma findall_nonempty (r : regex) (s pre t : str) :
  s = pre ++ t ->
  matches r (List.length pre, t, []) <> [] ->
  exists x l, findall r s = Some (x :: l).
Proof.
  intros Hs Hne. unfold findall.
  destruct (finditer_total r s) as [ms Hms]. rewrite Hms.
  unfold finditer in Hms.
  replace (2 * List.length s + 2) with (S (2 * List.length s + 1)) in Hms
    by lia.
  cbn [scan skipn] in Hms.
  destruct (search_from r s false 0 s) as [m|] eqn:E.
  - destruct (scan _ r s (m_end m) _) as [ms'|]; [|discriminate].
    cbn in Hms. injection Hms as <-. cbn [option_map map].
    eexists. eexists. reflexivity.
  - exfalso. apply Hne.
    apply (search_from_none r s 0 s E pre t Hs).
Qed.

(** ** The classifier *)

(** C6: the classifier is a total function of the URL that follows the
    four substring rules in priority order; a URL in which
    [auditor.on.ca] occurs is an audit report whatever else occurs in it,
    and the result is one of the three kinds or none. *)
Theorem detect_citation_type_rules (url : str) :
  classify_spec url (detect_citation_type url)
  /\ (forall pre suf : str,
        detect_citation_type (pre ++ "auditor.on.ca" ++ suf) = Some ag).
Proof.
  split.
  - unfold detect_citation_type.
    destruct (contains url "auditor.on.ca") eqn:Hag.
    { apply classify_ag, contains_occurs, Hag. }
    apply contains_false in Hag.
    destruct (contains url "news.ontario.ca") eqn:Hnews.
    { apply classify_news; [exact Hag | apply contains_occurs, Hnews]. }
    apply contains_false in Hnews.
    destruct (contains url "ontario.ca/laws/statute") eqn:Hst; cbn [orb].
    { apply classify_elaws; auto. left. apply contains_occurs, Hst. }
    apply contains_false in Hst.
    destruct (contains url "ontario.ca/laws/regulation") eqn:Hreg.
    { apply classify_elaws; auto. right. apply contains_occurs, Hreg. }
    apply contains_false in Hreg.
    apply classify_none; assumption.
  - intros pre suf. unfold detect_citation_type.
    replace (contains (pre ++ "auditor.on.ca" ++ suf) "auditor.on.ca")
      with true; [reflexivity|].
    symmetry. apply contains_occurs. exists pre, suf. reflexivity.
Qed.

(** ** Year derivation *)

Lemma matches_year_prefix (i : nat) (s : str) (g : marks) :
  matches (Alt (Lit "en") (Alt (Lit "ar") (Lit "fr"))) (i, s, g)
  = if year_prefix s then [(i + 2, skipn 2 s, g)] else [].
Proof.
  cbn [matches]. rewrite !matches_Lit. unfold year_prefix.
  destruct s as [|a [|b s]]; try reflexivity.
  - cbv [list_ascii_of_string startswith]. rewrite !andb_false_r. reflexivity.
  - cbv [list_ascii_of_string startswith].
    case_chr "e"%char a; [|case_chr "a"%char a; [|case_chr "f"%char a]];
      cbn; try reflexivity.
  all: case_chr "n"%char b; try case_chr "r"%char b; cbn; reflexivity.
Qed.

Lemma year_pattern_hd (i : nat) (s : str) :
  hd_error (matches year_pattern (i, s, []))
  = let k := run_length digit (Some 4) 0 (skipn 2 s) in
    if year_prefix s && (2 <=? k)
    then Some (i + 2 + k, skipn k (skipn 2 s), [(1, (i + 2, i + 2 + k))])
    else None.
Proof.
  unfold year_pattern. rewrite matches_Cat, matches_year_prefix.
  destruct (year_prefix s); [|reflexivity].
  rewrite flat_map_single. cbn [matches andb].
  rewrite !hd_error_map, rep_greedy_hd. cbn [Nat.add].
  destruct (2 <=? run_length digit (Some 4) 0 (skipn 2 s)); reflexivity.
Qed.

Lemma year_attempt (whole : str) (i : nat) (s : str) :
  attempt year_pattern whole false i s
  = let k := run_length digit (Some 4) 0 (skipn 2 s) in
    if year_prefix s && (2 <=? k)
    then Some (mkMatch whole i (i + 2 + k) [(1, (i + 2, i + 2 + k))])
    else None.
Proof.
  rewrite attempt_false. pose proof (year_pattern_hd i s) as H.
  destruct (matches year_pattern (i, s, [])) as [|[[e u] g] l];
    cbn [hd_error] in H; cbv zeta in *;
    destruct (year_prefix s && _); try discriminate; try reflexivity.
  injection H as -> _ ->. reflexivity.
Qed.

Lemma year_prefix_split (t : str) :
  year_prefix t = true
  <-> exists tok : str,
        (tok = "en" \/ tok = "ar" \/ tok = "fr") /\ t = tok ++ skipn 2 t.
Proof.
  unfold year_prefix. rewrite !orb_true_iff, !startswith_prefix. split.
  - intros [[[u ->] | [u ->]] | [u ->]];
      [exists ("en" : str) | exists ("ar" : str) | exists ("fr" : str)];
      split; auto.
  - intros (tok & [-> | [-> | ->]] & H); [left; left | left; right | right];
      exists (skipn 2 t); exact H.
Qed.

Lemma year_token_iff (t ds : str) :
  year_token t ds
  <-> let k := run_length digit (Some 4) 0 (skipn 2 t) in
      year_prefix t = true /\ 2 <= k /\ ds = firstn k (skipn 2 t).
Proof.
  cbv zeta. split.
  - intros (tok & rest & -> & Htok & Hds & Hlen & Hstop).
    assert (Hskip : skipn 2 (tok ++ ds ++ rest) = ds ++ rest)
      by (destruct Htok as [-> | [-> | ->]]; reflexivity).
    rewrite Hskip.
    assert (Hk : run_length digit (Some 4) 0 (ds ++ rest) = List.length ds).
    { apply run_app; [exact Hds | intros h [= <-]; lia |].
      destruct Hstop as [H4 | Hs]; [right; f_equal; lia | left; exact Hs]. }
    rewrite Hk. repeat split; try lia.
    + apply year_prefix_split. exists tok. split; [exact Htok|].
      rewrite Hskip. reflexivity.
    + rewrite firstn_app, Nat.sub_diag, firstn_all. cbn. rewrite app_nil_r.
      reflexivity.
  - intros (Hp & Hk & ->). apply year_prefix_split in Hp.
    destruct Hp as (tok & Htok & Ht).
    set (u := skipn 2 t) in *. set (k := run_length digit (Some 4) 0 u) in *.
    destruct (run_split digit (Some 4) 0 u) as (H1 & H2 & H3);
      [intros h [= <-]; lia|]. fold k in H1, H2, H3.
    specialize (H2 4 eq_refl).
    pose proof (run_length_le digit (Some 4) 0 u) as Hle. fold k in Hle.
    exists tok, (skipn k u). repeat split.
    + rewrite firstn_skipn. exact Ht.
    + exact Htok.
    + exact H1.
    + rewrite length_firstn. lia.
    + rewrite length_firstn. lia.
    + rewrite length_firstn.
      destruct H3 as [H3 | [= H3]]; [right; exact H3 | left; lia].
Qed.

Lemma year_pattern_some (i : nat) (t : str) :
  matches year_pattern (i, t, []) <> [] <-> has_year_token t.
Proof.
  pose proof (year_pattern_hd i t) as H. cbv zeta in H. split.
  - intros Hne.
    destruct (matches year_pattern (i, t, [])) as [|x l]; [congruence|].
    destruct (year_prefix t) eqn:Hp; [|discriminate].
    destruct (2 <=? run_length digit (Some 4) 0 (skipn 2 t)) eqn:Hk;
      [|discriminate].
    apply Nat.leb_le in Hk. eexists. apply year_token_iff. cbv zeta.
    repeat split; [exact Hp | exact Hk].
  - intros [ds Hds] E. rewrite E in H. apply year_token_iff in Hds.
    cbv zeta in Hds. destruct Hds as (Hp & Hk & _).
    rewrite Hp in H. apply Nat.leb_le in Hk. rewrite Hk in H. discriminate.
Qed.

Lemma year_attempt_token (pre t : str) (m : Match) :
  attempt year_pattern (pre ++ t) false (List.length pre) t = Some m ->
  exists ds, group m 1 = Some ds /\ year_token t ds.
Proof.
  rewrite year_attempt. cbv zeta.
  destruct (year_prefix t) eqn:Hp; [|discriminate].
  destruct (2 <=? run_length digit (Some 4) 0 (skipn 2 t)) eqn:Hk;
    [|discriminate].
  intros [= <-]. eexists. split.
  - unfold group. cbn [m_marks m_string mark Nat.eqb option_map fst snd].
    rewrite slice_app. reflexivity.
  - apply year_token_iff. cbv zeta. apply Nat.leb_le in Hk.
    repeat split; [exact Hp | exact Hk].
Qed.

Lemma expand_year_code (ds : str) :
  (if List.length ds =? 2
   then if 50 <=? int_of_digits ds then "19" ++ ds else "20" ++ ds
   else ds)
  = expand_year ds.
Proof.
  destruct ds as [|a [|b [|c ds]]]; reflexivity.
Qed.

Lemma startswith_19_20 (s : str) :
  startswith s "19" = true -> startswith s "20" = false.
Proof.
  destruct s as [|a s]; [discriminate|].
  cbv [list_ascii_of_string]. cbn [startswith].
  case_chr "1"%char a; [reflexivity | discriminate].
Qed.

Lemma bare_year_hd (i : nat) (s : str) :
  hd_error (matches bare_year_pattern (i, s, []))
  = if (startswith s "19" || startswith s "20")
       && ((2 <=? List.length (skipn 2 s))
           && forallb digit (firstn 2 (skipn 2 s)))
    then Some (i + 4, skipn 4 s, []) else None.
Proof.
  unfold bare_year_pattern. rewrite matches_Alt, !matches_Cat, !matches_Lit.
  change (List.length (list_ascii_of_string "19")) with 2.
  change (List.length (list_ascii_of_string "20")) with 2.
  destruct (startswith s "19") eqn:E19.
  - rewrite (startswith_19_20 s E19). rewrite flat_map_single.
    cbn [flat_map orb]. rewrite app_nil_r, matches_exact_digits.
    destruct ((2 <=? _) && _); [|reflexivity].
    cbn [hd_error andb]. rewrite skipn_skipn.
    replace (i + 2 + 2) with (i + 4) by lia. reflexivity.
  - cbn [flat_map app orb]. destruct (startswith s "20"); [|reflexivity].
    rewrite flat_map_single, matches_exact_digits.
    destruct ((2 <=? _) && _); [|reflexivity].
    cbn [hd_error andb]. rewrite skipn_skipn.
    replace (i + 2 + 2) with (i + 4) by lia. reflexivity.
Qed.

Lemma bare_year_iff (t y : str) :
  bare_year t y
  <-> ((startswith t "19" || startswith t "20")
       && ((2 <=? List.length (skipn 2 t))
           && forallb digit (firstn 2 (skipn 2 t))) = true
       /\ y = firstn 4 t).
Proof.
  split.
  - intros (c & d & rest & -> & Hy & Hc & Hd).
    destruct Hy as [-> | ->]; cbv [list_ascii_of_string]; cbn;
      rewrite Hc, Hd; split; reflexivity.
  - rewrite !andb_true_iff, orb_true_iff, !startswith_prefix.
    intros [[Hpre [Hlen Hdig]] ->].
    assert (Hu : exists u : str,
               (t = "19" ++ u \/ t = "20" ++ u) /\ skipn 2 t = u).
    { destruct Hpre as [[u ->] | [u ->]]; exists u; auto. }
    destruct Hu as (u & Ht & Hskip). rewrite Hskip in *.
    destruct u as [|c [|d rest]]; try discriminate.
    cbn in Hdig. rewrite !andb_true_iff in Hdig.
    destruct Hdig as (Hc & Hd & _).
    exists c, d, rest. destruct Ht as [-> | ->]; cbn; auto.
Qed.

Lemma bare_year_some (i : nat) (t : str) :
  matches bare_year_pattern (i, t, []) <> [] <-> has_bare_year t.
Proof.
  pose proof (bare_year_hd i t) as H. split.
  - intros Hne.
    destruct (matches bare_year_pattern (i, t, [])) as [|x l]; [congruence|].
    match type of H with
    | _ = (if ?c then _ else _) => destruct c eqn:Hc; [|discriminate]
    end.
    exists (firstn 4 t). apply bare_year_iff. split; [exact Hc | reflexivity].
  - intros [y Hy] E. rewrite E in H. apply bare_year_iff in Hy.
    destruct Hy as [Hc _]. rewrite Hc in H. discriminate.
Qed.

Lemma bare_year_attempt (pre t : str) (m : Match) :
  attempt bare_year_pattern (pre ++ t) false (List.length pre) t = Some m ->
  exists y, group m 0 = Some y /\ bare_year t y.
Proof.
  rewrite attempt_false. pose proof (bare_year_hd (List.length pre) t) as H.
  destruct (matches bare_year_pattern (List.length pre, t, []))
    as [|[[e u] g] l]; [discriminate|].
  match type of H with
  | _ = (if ?c then _ else _) => destruct c eqn:Hc; [|discriminate]
  end.
  injection H as -> _ ->. intros [= <-].
  exists (firstn 4 t). split.
  - unfold group. cbn [m_string m_start m_end]. rewrite slice_app_0.
    reflexivity.
  - apply bare_year_iff. split; [exact Hc | reflexivity].
Qed.

Lemma extract_year_from_url_year_spec (url : str) :
  year_spec url (extract_year_from_url url).
Proof.
  unfold extract_year_from_url.
  destruct (search year_pattern url) as [m|] eqn:E.
  - apply (search_leftmost _ has_year_token) in E;
      [|exact year_pattern_some].
    destruct E as (pre & t & Hleft & Hatt).
    apply year_attempt_token in Hatt. destruct Hatt as (ds & Hg & Hds).
    rewrite Hg. cbn [text]. rewrite expand_year_code.
    apply (year_of_token url pre t ds Hleft Hds).
  - apply (search_nowhere _ has_year_token) in E;
      [|exact year_pattern_some].
    destruct (search bare_year_pattern url) as [m|] eqn:E'.
    + apply (search_leftmost _ has_bare_year) in E';
        [|exact bare_year_some].
      destruct E' as (pre & t & Hleft & Hatt).
      apply bare_year_attempt in Hatt. destruct Hatt as (y & Hg & Hy).
      rewrite Hg. cbn [text].
      apply (year_of_bare url pre t y E Hleft Hy).
    + apply (search_nowhere _ has_bare_year) in E';
        [|exact bare_year_some].
      apply year_missing; assumption.
Qed.

Lemma year_token_functional (t ds ds' : str) :
  year_token t ds -> year_token t ds' -> ds = ds'.
Proof.
  intros H H'. apply year_token_iff in H, H'. cbv zeta in *.
  destruct H as (_ & _ & ->), H' as (_ & _ & ->). reflexivity.
Qed.

Lemma bare_year_functional (t y y' : str) :
  bare_year t y -> bare_year t y' -> y = y'.
Proof.
  intros H H'. apply bare_year_iff in H, H'.
  destruct H as (_ & ->), H' as (_ & ->). reflexivity.
Qed.

(** The wording of the year derivation determines the year. *)
Lemma year_spec_functional (url : str) (a b : option str) :
  year_spec url a -> year_spec url b -> a = b.
Proof.
  intros [pre t ds Hl Ht | pre t y Hno Hl Hy | Hno Hnb]
         [pre' t' ds' Hl' Ht' | pre' t' y' Hno' Hl' Hy' | Hno' Hnb'].
  - destruct (leftmost_unique _ _ _ _ _ _ Hl Hl') as [-> ->].
    rewrite (year_token_functional _ _ _ Ht Ht'). reflexivity.
  - destruct Hl as (Hs & HP & _). exfalso. apply (Hno' pre t Hs HP).
  - destruct Hl as (Hs & HP & _). exfalso. apply (Hno' pre t Hs HP).
  - destruct Hl' as (Hs & HP & _). exfalso. apply (Hno pre' t' Hs HP).
  - destruct (leftmost_unique _ _ _ _ _ _ Hl Hl') as [-> ->].
    rewrite (bare_year_functional _ _ _ Hy Hy'). reflexivity.
  - destruct Hl as (Hs & HP & _). exfalso. apply (Hnb' pre t Hs HP).
  - destruct Hl' as (Hs & HP & _). exfalso. apply (Hno pre' t' Hs HP).
  - destruct Hl' as (Hs & HP & _). exfalso. apply (Hnb pre' t' Hs HP).
  - reflexivity.
Qed.

(** C1: the year is the digit group of the leftmost year token, a
    two-digit group of value [v] expanded to [19v] when [v >= 50] and to
    [20v] otherwise; without a year token it is the leftmost four-digit
    year 19dd or 20dd; without either there is no year and the AG
    extractor fails for want of a year.  The four sample URLs give 2024,
    2018, 1987 and 1995. *)
Theorem extract_year_from_url_spec (url : str) :
  year_spec url (extract_year_from_url url)
  /\ (forall pdf html,
        extract_year_from_url url = None ->
        fetch_ag_citation pdf html url
        = (None, Some ("Could not extract year" : str)))
  /\ extract_year_from_url "en2024" = Some ("2024" : str)
  /\ extract_year_from_url "ar18" = Some ("2018" : str)
  /\ extract_year_from_url "fr87" = Some ("1987" : str)
  /\ extract_year_from_url "https://www.auditor.on.ca/reports/1995/summary.html"
     = Some ("1995" : str).
Proof.
  split; [apply extract_year_from_url_year_spec|].
  split; [|repeat split].
  intros pdf html H. unfold fetch_ag_citation. rewrite H. reflexivity.
Qed.

Lemma extract_year_from_url_spec_witness :
  fetch_ag_citation (fun _ => None) (fun _ => None)
    "https://www.auditor.on.ca/en/content/about.html"
  = (None, Some ("Could not extract year" : str)).
Proof.
  apply (proj1 (proj2 (extract_year_from_url_spec
                         "https://www.auditor.on.ca/en/content/about.html"))).
  reflexivity.
Defined.

Lemma year_phrase_tail (x ds : str) :
  x ++ ", *" ++ (ds ++ " Annual Report") ++ "*."
  = x ++ ", *" ++ ds ++ " Annual Report*.".
Proof. rewrite <- (app_assoc ds). reflexivity. Qed.

(** What the AG extractor returns once the year is known. *)
Lemma fetch_ag_citation_with_year pdf html (url ds : str) :
  extract_year_from_url url = Some ds ->
  ds <> [] ->
  (truthy (if is_pdf_url url then pdf url else html url) = false
   /\ exists msg : str,
        fetch_ag_citation pdf html url = (None, Some msg)
        /\ msg <> "Could not extract year")
  \/ (truthy (if is_pdf_url url then pdf url else html url) = true
      /\ exists body : str,
           fetch_ag_citation pdf html url
           = (Some (body ++ ", *" ++ ds ++ " Annual Report*."), None)).
Proof.
  intros Hy Hne.
  assert (Hds : truthy (Some ds) = true)
    by (destruct ds; [congruence | reflexivity]).
  unfold fetch_ag_citation. rewrite Hy, Hds. cbn [negb text].
  destruct (is_pdf_url url).
  - destruct (truthy (pdf url)); cbn [negb].
    + right. split; [reflexivity|].
      destruct (extract_chapter_section_from_filename _) as [ch sec].
      cbv zeta.
      destruct (truthy ch && truthy sec); [|destruct (truthy ch)];
        eexists; rewrite <- year_phrase_tail; f_equal; f_equal;
        rewrite !app_assoc; reflexivity.
    + left. split; [reflexivity|]. eexists. split; [reflexivity|].
      intros H. apply (f_equal (@List.length ascii)) in H.
      vm_compute in H. discriminate.
  - destruct (truthy (html url)); cbn [negb].
    + right. split; [reflexivity|]. cbv zeta.
      eexists; rewrite <- year_phrase_tail; f_equal; f_equal;
        rewrite !app_assoc; reflexivity.
    + left. split; [reflexivity|]. eexists. split; [reflexivity|].
      intros H. apply (f_equal (@List.length ascii)) in H.
      vm_compute in H. discriminate.
Qed.

(** C10: when the digit group of the leftmost year token has exactly
    three digits, the year is that group unchanged (no expansion, no
    fallback); the AG extractor does not fail for want of a year, gives a
    citation whenever the title reader of its branch gives a title, and
    every citation it gives ends with the three-digit year phrase. *)
Theorem extract_year_three_digits (url pre t ds : str) :
  leftmost has_year_token url pre t ->
  year_token t ds ->
  List.length ds = 3 ->
  extract_year_from_url url = Some ds
  /\ (forall pdf html,
        snd (fetch_ag_citation pdf html url)
        <> Some ("Could not extract year" : str))
  /\ (forall pdf html,
        truthy (if is_pdf_url url then pdf url else html url) = true ->
        exists citation,
          fetch_ag_citation pdf html url = (Some citation, None))
  /\ (forall pdf html citation,
        fst (fetch_ag_citation pdf html url) = Some citation ->
        exists body,
          citation = body ++ ", *" ++ ds ++ " Annual Report*.").
Proof.
  intros Hl Ht Hlen.
  assert (Hy : extract_year_from_url url = Some ds).
  { apply (year_spec_functional url);
      [apply extract_year_from_url_year_spec|].
    replace ds with (expand_year ds)
      by (destruct ds as [|a [|b [|c [|d ds]]]]; try discriminate;
          reflexivity).
    apply (year_of_token url pre t ds Hl Ht). }
  assert (Hne : ds <> []) by (intros ->; discriminate).
  split; [exact Hy|].
  split; [|split].
  - intros pdf html.
    destruct (fetch_ag_citation_with_year pdf html url ds Hy Hne)
      as [(_ & msg & -> & Hmsg) | (_ & body & ->)]; cbn [snd].
    + intros [= H]. apply Hmsg, H.
    + discriminate.
  - intros pdf html Htitle.
    destruct (fetch_ag_citation_with_year pdf html url ds Hy Hne)
      as [(Hf & _) | (_ & body & ->)]; [congruence|].
    eexists. reflexivity.
  - intros pdf html citation.
    destruct (fetch_ag_citation_with_year pdf html url ds Hy Hne)
      as [(_ & msg & -> & _) | (_ & body & ->)]; cbn [fst].
    + discriminate.
    + intros [= <-]. exists body. reflexivity.
Qed.

Lemma extract_year_three_digits_witness :
  extract_year_from_url "https://www.auditor.on.ca/en123/report.html"
  = Some ("123" : str).
Proof.
  apply (extract_year_three_digits
           "https://www.auditor.on.ca/en123/report.html"
           "https://www.auditor.on.ca/" "en123/report.html" "123").
  - split; [reflexivity|]. split.
    + exists ("123" : str). apply year_token_iff. vm_compute.
      repeat split; lia.
    + intros pre' t' Hs Hlen [ds' Hds']. apply year_token_iff in Hds'.
      cbv zeta in Hds'. destruct Hds' as (Hp & _).
      assert (Ht' : t' = skipn (List.length pre')
                          ("https://www.auditor.on.ca/en123/report.html" : str))
        by (rewrite Hs, skipn_app, skipn_all, Nat.sub_diag; reflexivity).
      subst t'. clear Hs.
      change (List.length ("https://www.auditor.on.ca/" : str)) with 26
        in Hlen.
      remember (List.length pre') as n eqn:En. clear En.
      do 26 (destruct n as [|n]; [vm_compute in Hp; discriminate Hp|]).
      lia.
  - apply year_token_iff. vm_compute. repeat split; lia.
  - reflexivity.
Defined.

(** ** Chapter and section derivation *)

Lemma volume_hd (i : nat) (t : str) :
  hd_error (matches volume_pattern (i, t, []))
  = match volume_digits t with
    | Some k =>
        Some (i + k + 5, skipn (k + 5) t,
              [(2, (i + k + 3, i + k + 5)); (1, (i + k + 2, i + k + 3))])
    | None => None
    end.
Proof.
  unfold volume_pattern, volume_digits.
  rewrite matches_Seq_cons, matches_C.
  destruct t as [|v s1]; [reflexivity|].
  destruct (chr_eqb "v" v); cbn [andb];
    [|destruct (skipn _ s1) as [|? [|? ?]]; reflexivity].
  rewrite flat_map_single, matches_Seq_cons, matches_Rep_greedy.
  rewrite flat_map_map_compose, rep_greedy_then.
  2:{ intros j c u Hc. cbn [fst snd]. rewrite matches_Seq_cons, matches_C.
      rewrite (digit_not_chr "_" c eq_refl Hc). reflexivity. }
  cbn [fst snd Nat.add].
  set (k := run_length digit None 0 s1).
  destruct (1 <=? k) eqn:Hk; cbn [andb];
    [|destruct (skipn k s1) as [|? [|? ?]]; reflexivity].
  rewrite matches_Seq_cons, matches_C.
  destruct (skipn k s1) as [|u s3] eqn:E3; [reflexivity|].
  destruct (chr_eqb "_" u); cbn [andb];
    [|destruct s3; reflexivity].
  rewrite flat_map_single, matches_Seq_cons, matches_Grp, matches_Chr.
  destruct s3 as [|c s4]; [reflexivity|].
  destruct (digit c); cbn [andb]; [|reflexivity].
  cbn [map]. rewrite flat_map_single, matches_Seq_last, matches_Grp.
  rewrite matches_exact_digits. fold (two_digits s4).
  destruct (two_digits s4); [|reflexivity].
  cbn [map hd_error].
  replace (skipn (k + 5) (v :: s1)) with (skipn 2 s4).
  2:{ replace (k + 5) with (S (4 + k)) by lia. cbn [skipn].
      rewrite <- skipn_skipn, E3. reflexivity. }
  replace (S (S (S (i + k))) + 2) with (i + k + 5) by lia.
  replace (S (S (S (i + k)))) with (i + k + 3) by lia.
  replace (S (S (i + k))) with (i + k + 2) by lia.
  reflexivity.
Qed.

Lemma two_digits_split (s : str) :
  two_digits s = true
  <-> exists a b rest, s = a :: b :: rest /\ digit a = true /\ digit b = true.
Proof.
  unfold two_digits. split.
  - destruct s as [|a [|b rest]]; try discriminate.
    cbn. rewrite !andb_true_iff. intros (Ha & Hb & _).
    exists a, b, rest. auto.
  - intros (a & b & rest & -> & Ha & Hb). cbn. rewrite Ha, Hb. reflexivity.
Qed.

Lemma volume_digits_token (t : str) (k : nat) :
  volume_digits t = Some k ->
  exists c ss,
    volume_token t c ss
    /\ firstn 1 (skipn (k + 2) t) = [c]
    /\ firstn 2 (skipn (k + 3) t) = ss.
Proof.
  unfold volume_digits. destruct t as [|v s1]; [discriminate|].
  set (k' := run_length digit None 0 s1).
  destruct (skipn k' s1) as [|u [|c s4]] eqn:E; try discriminate.
  destruct (chr_eqb "v" v) eqn:Ev; [|discriminate].
  destruct (1 <=? k') eqn:Hk; [|discriminate].
  destruct (chr_eqb "_" u) eqn:Eu; [|discriminate].
  destruct (digit c) eqn:Hc; [|discriminate].
  destruct (two_digits s4) eqn:H2; [|discriminate].
  cbn [andb]. intros [= <-].
  apply chr_eqb_eq in Ev, Eu. subst v u. apply Nat.leb_le in Hk.
  apply two_digits_split in H2. destruct H2 as (a & b & rest & -> & Ha & Hb).
  destruct (run_split digit None 0 s1) as (H1 & _ & _); [discriminate|].
  fold k' in H1.
  pose proof (run_length_le digit None 0 s1) as Hle. fold k' in Hle.
  assert (Hs1 : s1 = firstn k' s1 ++ "_"%char :: c :: a :: b :: rest)
    by (rewrite <- E; symmetry; apply firstn_skipn).
  assert (Hlen : List.length (firstn k' s1) = k')
    by (rewrite length_firstn; lia).
  exists c, [a; b]. split; [|split].
  - exists (firstn k' s1), rest. repeat split; auto.
    + cbv [list_ascii_of_string]. cbn [app]. f_equal. exact Hs1.
    + intros H0. rewrite H0 in Hlen. cbn in Hlen. lia.
    + unfold all_in. cbn. rewrite Ha, Hb. reflexivity.
  - replace (k' + 2) with (S (1 + k')) by lia. cbn [skipn].
    rewrite <- skipn_skipn, E. reflexivity.
  - replace (k' + 3) with (S (2 + k')) by lia. cbn [skipn].
    rewrite <- skipn_skipn, E. reflexivity.
Qed.

Lemma token_volume_digits (t : str) (c : ascii) (ss : str) :
  volume_token t c ss ->
  exists k, volume_digits t = Some k
            /\ firstn 1 (skipn (k + 2) t) = [c]
            /\ firstn 2 (skipn (k + 3) t) = ss.
Proof.
  intros (ds & rest & -> & Hne & Hds & Hc & Hss & Hlen).
  destruct ss as [|a [|b [|? ?]]]; try discriminate.
  unfold all_in in Hss. cbn in Hss. rewrite !andb_true_iff in Hss.
  destruct Hss as (Ha & Hb & _).
  exists (List.length ds).
  assert (Hk : run_length digit None 0
                 (ds ++ "_" ++ [c] ++ [a; b] ++ rest) = List.length ds).
  { apply run_app; [exact Hds | discriminate | left; reflexivity]. }
  cbv [list_ascii_of_string] in *. cbn [app] in *.
  unfold volume_digits. rewrite Hk.
  rewrite skipn_app, skipn_all, Nat.sub_diag. cbn [skipn app].
  rewrite chr_eqb_refl, chr_eqb_refl, Hc.
  replace (1 <=? List.length ds) with true
    by (symmetry; apply Nat.leb_le; destruct ds; [congruence | cbn; lia]).
  replace (two_digits (a :: b :: rest)) with true
    by (symmetry; apply two_digits_split; exists a, b, rest; auto).
  repeat split.
  - replace (List.length ds + 2) with (S (1 + List.length ds)) by lia.
    cbn [skipn]. rewrite <- skipn_skipn, skipn_app, skipn_all, Nat.sub_diag.
    reflexivity.
  - replace (List.length ds + 3) with (S (2 + List.length ds)) by lia.
    cbn [skipn]. rewrite <- skipn_skipn, skipn_app, skipn_all, Nat.sub_diag.
    reflexivity.
Qed.

Lemma volume_some (i : nat) (t : str) :
  matches volume_pattern (i, t, []) <> [] <-> has_volume_token t.
Proof.
  pose proof (volume_hd i t) as H. split.
  - intros Hne.
    destruct (matches volume_pattern (i, t, [])) as [|x l]; [congruence|].
    destruct (volume_digits t) as [k|] eqn:Hk; [|discriminate].
    apply volume_digits_token in Hk. destruct Hk as (c & ss & Hk & _).
    exists c, ss. exact Hk.
  - intros (c & ss & Ht) E. rewrite E in H.
    apply token_volume_digits in Ht. destruct Ht as (k & Hk & _).
    rewrite Hk in H. discriminate.
Qed.

Lemma volume_token_functional (t : str) (c c' : ascii) (ss ss' : str) :
  volume_token t c ss -> volume_token t c' ss' -> c = c' /\ ss = ss'.
Proof.
  intros H H'. apply token_volume_digits in H, H'.
  destruct H as (k & Hk & Hc & Hss), H' as (k' & Hk' & Hc' & Hss').
  rewrite Hk in Hk'. injection Hk' as <-.
  rewrite Hc in Hc'. rewrite Hss in Hss'. injection Hc' as <-. auto.
Qed.

Lemma volume_attempt (pre t : str) (m : Match) :
  attempt volume_pattern (pre ++ t) false (List.length pre) t = Some m ->
  exists c ss,
    volume_token t c ss /\ group m 1 = Some [c] /\ group m 2 = Some ss.
Proof.
  rewrite attempt_false. pose proof (volume_hd (List.length pre) t) as H.
  destruct (matches volume_pattern (List.length pre, t, []))
    as [|[[e u] g] l]; [discriminate|].
  destruct (volume_digits t) as [k|] eqn:Hk; [|discriminate].
  injection H as -> _ ->. intros [= <-].
  apply volume_digits_token in Hk. destruct Hk as (c & ss & Ht & Hc & Hss).
  exists c, ss. split; [exact Ht|].
  unfold group. cbn [m_marks m_string mark Nat.eqb option_map fst snd].
  split; f_equal; [rewrite <- Hc | rewrite <- Hss]; apply slice_app_at; lia.
Qed.

Lemma leading_hd (t : str) :
  hd_error (matches leading_pattern (0, t, []))
  = if leading_ok t
    then Some (7, skipn 7 t, [(2, (1, 3)); (1, (0, 1))]) else None.
Proof.
  unfold leading_pattern, leading_ok.
  rewrite matches_Bol_Seq. cbn [Nat.eqb].
  rewrite matches_Seq_cons, matches_Grp, matches_Chr.
  destruct t as [|c s1]; [reflexivity|].
  destruct (digit c); cbn [andb]; [|reflexivity].
  cbn [map]. rewrite flat_map_single, matches_Seq_cons, matches_Grp.
  rewrite matches_exact_digits. fold (two_digits s1).
  destruct (two_digits s1); cbn [andb]; [|reflexivity].
  cbn [map]. rewrite flat_map_single, matches_Seq_cons, matches_Lit.
  destruct (startswith (skipn 2 s1) "en"); cbn [andb]; [|reflexivity].
  rewrite flat_map_single, matches_Seq_last, matches_exact_digits.
  change (List.length (list_ascii_of_string "en")) with 2.
  rewrite skipn_skipn. cbn [Nat.add]. fold (two_digits (skipn 4 s1)).
  destruct (two_digits (skipn 4 s1)); [|reflexivity].
  cbn [hd_error]. rewrite skipn_skipn. reflexivity.
Qed.

Lemma leading_ok_token (t : str) :
  leading_ok t = true ->
  exists c ss,
    leading_token t c ss
    /\ firstn 1 t = [c] /\ firstn 2 (skipn 1 t) = ss.
Proof.
  unfold leading_ok. destruct t as [|c s1]; [discriminate|].
  rewrite !andb_true_iff. intros [[[Hc H2] Hen] H2'].
  apply two_digits_split in H2. destruct H2 as (a & b & s3 & -> & Ha & Hb).
  cbn [skipn] in *. apply startswith_prefix in Hen. destruct Hen as [s5 ->].
  cbv [list_ascii_of_string] in H2'. cbn [app skipn] in H2'.
  apply two_digits_split in H2'.
  destruct H2' as (d1 & d2 & rest & -> & Hd1 & Hd2).
  exists c, [a; b]. split; [|split; reflexivity].
  exists d1, d2, rest. repeat split; auto.
  unfold all_in. cbn. rewrite Ha, Hb. reflexivity.
Qed.

Lemma leading_token_ok (t : str) (c : ascii) (ss : str) :
  leading_token t c ss ->
  leading_ok t = true /\ firstn 1 t = [c] /\ firstn 2 (skipn 1 t) = ss.
Proof.
  intros (d1 & d2 & rest & -> & Hc & Hss & Hlen & Hd1 & Hd2).
  destruct ss as [|a [|b [|? ?]]]; try discriminate.
  unfold all_in in Hss. cbn in Hss. rewrite !andb_true_iff in Hss.
  destruct Hss as (Ha & Hb & _).
  unfold leading_ok. cbv [list_ascii_of_string]. cbn [app].
  rewrite Hc.
  replace (two_digits (a :: b :: "e"%char :: "n"%char :: d1 :: d2 :: rest))
    with true by (symmetry; apply two_digits_split; eauto 6).
  cbn [skipn startswith]. rewrite !chr_eqb_refl.
  replace (two_digits (d1 :: d2 :: rest))
    with true by (symmetry; apply two_digits_split; eauto 6).
  repeat split.
Qed.

Lemma leading_attempt (t : str) (m : Match) :
  match_ leading_pattern t = Some m ->
  exists c ss,
    leading_token t c ss /\ group m 1 = Some [c] /\ group m 2 = Some ss.
Proof.
  unfold match_. rewrite attempt_false. pose proof (leading_hd t) as H.
  destruct (matches leading_pattern (0, t, [])) as [|[[e u] g] l];
    [discriminate|].
  destruct (leading_ok t) eqn:Hok; [|discriminate].
  injection H as -> _ ->. intros [= <-].
  apply leading_ok_token in Hok. destruct Hok as (c & ss & Ht & Hc & Hss).
  exists c, ss. split; [exact Ht|].
  unfold group. cbn [m_marks m_string mark Nat.eqb option_map fst snd].
  rewrite <- Hc, <- Hss. split; reflexivity.
Qed.

Lemma leading_none (t : str) :
  match_ leading_pattern t = None -> forall c ss, ~ leading_token t c ss.
Proof.
  unfold match_. rewrite attempt_false. pose proof (leading_hd t) as H.
  intros Hm c ss Ht. apply leading_token_ok in Ht. destruct Ht as [Hok _].
  rewrite Hok in H.
  destruct (matches leading_pattern (0, t, [])) as [|[[e u] g] l];
    discriminate.
Qed.

Lemma chapter_section_groups (m : Match) (c : ascii) (ss : str) :
  group m 1 = Some [c] -> group m 2 = Some ss ->
  chapter_section m = chapter_section_of c ss.
Proof.
  intros H1 H2. unfold chapter_section, chapter_section_of.
  rewrite H1, H2. cbn [text]. destruct (eqb ss "00"); reflexivity.
Qed.

(** C2: the chapter and section come from the leftmost volume token
    [v<digits>_CSS], else from a file name that begins with [CSSen] and two
    digits; section code [00] gives the chapter alone, any other code
    gives chapter [C] and section [C.SS]; without either pattern both are
    absent.  The three sample file names give (3, 3.06), (3, none) and
    (3, 3.06). *)
Theorem extract_chapter_section_from_filename_spec (filename : str) :
  chapter_section_spec filename
    (extract_chapter_section_from_filename filename)
  /\ extract_chapter_section_from_filename "v1_306en18.pdf"
     = (Some ("3" : str), Some ("3.06" : str))
  /\ extract_chapter_section_from_filename "v1_300en18.pdf"
     = (Some ("3" : str), None)
  /\ extract_chapter_section_from_filename "306en18.pdf"
     = (Some ("3" : str), Some ("3.06" : str)).
Proof.
  split; [|repeat split].
  unfold extract_chapter_section_from_filename.
  destruct (search volume_pattern filename) as [m|] eqn:E.
  - apply (search_leftmost _ has_volume_token) in E; [|exact volume_some].
    destruct E as (pre & t & Hleft & Hatt).
    apply volume_attempt in Hatt. destruct Hatt as (c & ss & Ht & H1 & H2).
    rewrite (chapter_section_groups m c ss H1 H2).
    apply (chapter_by_volume filename pre t c ss Hleft Ht).
  - apply (search_nowhere _ has_volume_token) in E; [|exact volume_some].
    unfold leading_pattern at 1. rewrite search_Bol.
    fold leading_pattern.
    destruct (match_ leading_pattern filename) as [m|] eqn:E'.
    + apply leading_attempt in E'. destruct E' as (c & ss & Ht & H1 & H2).
      rewrite (chapter_section_groups m c ss H1 H2).
      apply (chapter_by_leading filename c ss E Ht).
    + apply chapter_absent; [exact E | apply leading_none, E'].
Qed.

(** ** The format branch of the AG extractor *)

Lemma lower_chr_dot (c : ascii) : lower_chr c = "."%char -> c = "."%char.
Proof. by_cases_on_char c. Qed.

Lemma lower_chr_p (c : ascii) :
  lower_chr c = "p"%char -> c = "p"%char \/ c = "P"%char.
Proof. by_cases_on_char c. Qed.

Lemma lower_chr_d (c : ascii) :
  lower_chr c = "d"%char -> c = "d"%char \/ c = "D"%char.
Proof. by_cases_on_char c. Qed.

Lemma lower_chr_f (c : ascii) :
  lower_chr c = "f"%char -> c = "f"%char \/ c = "F"%char.
Proof. by_cases_on_char c. Qed.

Lemma lower_pdf_extension (ext : str) :
  lower ext = ".pdf" <-> pdf_extension ext.
Proof.
  split.
  - destruct ext as [|x [|a [|b [|c [|? ?]]]]]; try discriminate.
    cbn. intros [= Hx Ha Hb Hc].
    apply lower_chr_dot in Hx. subst x.
    exists a, b, c. split; [reflexivity|].
    auto using lower_chr_p, lower_chr_d, lower_chr_f.
  - intros (a & b & c & -> & Ha & Hb & Hc).
    destruct Ha, Hb, Hc; subst; reflexivity.
Qed.

Lemma is_pdf_url_iff (url : str) :
  is_pdf_url url = true
  <-> exists stem ext, url = stem ++ ext /\ pdf_extension ext.
Proof.
  unfold is_pdf_url. rewrite endswith_suffix. unfold lower. split.
  - intros [pre H]. apply map_eq_app in H.
    destruct H as (stem & ext & -> & _ & H).
    exists stem, ext. split; [reflexivity | apply lower_pdf_extension, H].
  - intros (stem & ext & -> & H). apply lower_pdf_extension in H.
    exists (map lower_chr stem). rewrite map_app. unfold lower in H.
    rewrite H. reflexivity.
Qed.

(** C9, as the code has it: the AG extractor takes the PDF branch exactly
    when the whole URL string, query string and fragment included, ends in
    [.pdf] up to letter case.  On the PDF branch the HTML title reader is
    not consulted, on the HTML branch the PDF title reader is not. *)
Theorem is_pdf_url_format_branch (url : str) :
  (is_pdf_url url = true
   <-> exists stem ext, url = stem ++ ext /\ pdf_extension ext)
  /\ (forall pdf html html',
        is_pdf_url url = true ->
        fetch_ag_citation pdf html url = fetch_ag_citation pdf html' url)
  /\ (forall pdf pdf' html,
        is_pdf_url url = false ->
        fetch_ag_citation pdf html url = fetch_ag_citation pdf' html url).
Proof.
  split; [apply is_pdf_url_iff|]. split.
  - intros pdf html html' H. unfold fetch_ag_citation. rewrite H. reflexivity.
  - intros pdf pdf' html H. unfold fetch_ag_citation. rewrite H. reflexivity.
Qed.

Lemma is_pdf_url_format_branch_witness :
  let url : str := "https://www.auditor.on.ca/en/arreports/en18/v1_306en18.PDF" in
  is_pdf_url url = true
  /\ fetch_ag_citation (fun _ => None) (fun _ => Some ("T" : str)) url
     = fetch_ag_citation (fun _ => None) (fun _ => None) url.
Proof.
  intros url. split.
  - apply (proj1 (is_pdf_url_format_branch url)).
    exists ("https://www.auditor.on.ca/en/arreports/en18/v1_306en18" : str),
           (".PDF" : str).
    split; [reflexivity|]. apply lower_pdf_extension. reflexivity.
  - apply (proj1 (proj2 (is_pdf_url_format_branch url))
             (fun _ => None) (fun _ => Some ("T" : str)) (fun _ => None)).
    vm_compute. reflexivity.
Defined.

(** C9 as stated fails: the path of this URL ends in [.pdf], yet the URL
    carries a query string, so the extractor takes the HTML branch (it
    reports the HTML reader's missing title, while the PDF reader has
    one). *)
Lemma is_pdf_url_query_string_counterexample :
  let url : str :=
    "https://www.auditor.on.ca/en/arreports/en18/v1_306en18.pdf?download=1" in
  endswith (url_path url) ".pdf" = true
  /\ is_pdf_url url = false
  /\ fetch_ag_citation (fun _ => Some ("Title" : str)) (fun _ => None) url
     = (None, Some ("Could not extract title from page" : str)).
Proof. vm_compute. repeat split. Qed.

(** ** Ministry formatting *)

Lemma mem_In (x : str) (l : list str) : mem x l = true <-> In x l.
Proof.
  unfold mem. rewrite existsb_exists. split.
  - intros [y [Hy H]]. apply eqb_eq in H. subst y. exact Hy.
  - intros H. exists x. split; [exact H | apply eqb_refl].
Qed.

Lemma mem_ext (x : str) (l1 l2 : list str) :
  (forall y, In y l1 <-> In y l2) -> mem x l1 = mem x l2.
Proof.
  intros H. destruct (mem x l1) eqn:H1, (mem x l2) eqn:H2; try reflexivity.
  - apply mem_In, H, mem_In in H1. congruence.
  - apply mem_In, H, mem_In in H2. congruence.
Qed.

Lemma first_occurrences_ext (l seen1 seen2 : list str) :
  (forall y, In y seen1 <-> In y seen2) ->
  first_occurrences seen1 l = first_occurrences seen2 l.
Proof.
  revert seen1 seen2. induction l as [|x l IH]; intros seen1 seen2 H; simpl.
  - reflexivity.
  - rewrite (mem_ext x seen1 seen2 H). destruct (mem x seen2).
    + apply IH, H.
    + f_equal. apply IH. intros y. simpl. rewrite H. reflexivity.
Qed.

(** The dictionary filled key by key lists the first occurrences. *)
Lemma fold_fromkeys (l d : list str) :
  fold_left (fun d k => if mem k d then d else d ++ [k]) l d
  = d ++ first_occurrences d l.
Proof.
  revert d. induction l as [|x l IH]; intros d; simpl.
  - rewrite app_nil_r. reflexivity.
  - destruct (mem x d).
    + apply IH.
    + rewrite IH, <- app_assoc. simpl. do 2 f_equal.
      apply first_occurrences_ext. intros y. rewrite in_app_iff. simpl.
      tauto.
Qed.

Lemma fromkeys_first_occurrences (l : list str) :
  fromkeys l = first_occurrences [] l.
Proof. unfold fromkeys. rewrite fold_fromkeys. reflexivity. Qed.

(** Dropping the names equal to a seen one beforehand changes nothing. *)
Lemma first_occurrences_names (main : str) (ps : list dict) (seen : list str) :
  In main seen ->
  first_occurrences seen
    (flat_map (fun m => match dict_get m "name" with
                        | Some n => if negb (eqb n main) then [n] else []
                        | None => []
                        end) ps)
  = first_occurrences seen (partner_names ps).
Proof.
  revert seen. induction ps as [|m ps IH]; intros seen Hin; simpl.
  - reflexivity.
  - destruct (dict_get m "name") as [n|]; simpl; [|apply IH, Hin].
    destruct (eqb n main) eqn:E; simpl.
    + apply eqb_eq in E. subst n.
      replace (mem main seen) with true by (symmetry; apply mem_In, Hin).
      apply IH, Hin.
    + destruct (mem n seen); [apply IH, Hin|].
      f_equal. apply IH. right. exact Hin.
Qed.

Lemma fromkeys_ministry_list (main : str) (ps : list dict) :
  fromkeys
    (main :: flat_map (fun m => match dict_get m "name" with
                                | Some n => if negb (eqb n main)
                                            then [n] else []
                                | None => []
                                end) ps)
  = ministry_list main ps.
Proof.
  rewrite fromkeys_first_occurrences. unfold ministry_list. simpl.
  f_equal. apply first_occurrences_names. left. reflexivity.
Qed.

Lemma first_occurrences_In (l seen : list str) (x : str) :
  In x (first_occurrences seen l) <-> In x l /\ ~ In x seen.
Proof.
  revert seen. induction l as [|y l IH]; intros seen; simpl.
  - tauto.
  - destruct (mem y seen) eqn:E.
    + apply mem_In in E. rewrite IH. split.
      * intros [H1 H2]. tauto.
      * intros [[-> | H1] H2]; tauto.
    + assert (Hy : ~ In y seen) by (rewrite <- mem_In; congruence).
      simpl. rewrite IH. simpl. split.
      * intros [-> | [H1 H2]]; tauto.
      * intros [[-> | H1] H2]; [tauto|].
        destruct (list_eq_dec ascii_dec y x) as [-> | Hne]; [tauto|].
        right. tauto.
Qed.

Lemma first_occurrences_NoDup (l seen : list str) :
  NoDup (first_occurrences seen l).
Proof.
  revert seen. induction l as [|y l IH]; intros seen; simpl.
  - constructor.
  - destruct (mem y seen); [apply IH|].
    constructor; [|apply IH].
    rewrite first_occurrences_In. simpl. tauto.
Qed.

Lemma first_occurrences_sublist (l seen : list str) :
  sublist (first_occurrences seen l) l.
Proof.
  revert seen. induction l as [|y l IH]; intros seen; simpl.
  - constructor.
  - destruct (mem y seen); constructor; apply IH.
Qed.

Lemma removelast_last_split (l : list str) :
  3 <= List.length l ->
  l = removelast l ++ [last l []] /\ 2 <= List.length (removelast l).
Proof.
  intros H.
  assert (Hne : l <> []) by (intros ->; simpl in H; lia).
  pose proof (app_removelast_last [] Hne) as E.
  split; [exact E|].
  apply (f_equal (@List.length str)) in E.
  rewrite length_app in E. simpl in E. unfold str in *. lia.
Qed.

(** C7: the ministries are the main ministry followed by the partner
    names that differ from it, each kept at its first occurrence and in
    the order of the records; one ministry is printed as it is, two as
    [A and B], three or more as [A, B, ..., and Z].  The samples: one
    ministry, two, three, and a partner equal to the main ministry or
    listed twice. *)
Theorem format_ministries_spec (main_ministry : str)
        (partner_ministries : list dict) :
  let ms := ministry_list main_ministry partner_ministries in
  let names := partner_names partner_ministries in
  hd [] ms = main_ministry
  /\ NoDup ms
  /\ sublist ms (main_ministry :: names)
  /\ (forall x, In x ms <-> x = main_ministry \/ In x names)
  /\ match ms with
     | [a] => format_ministries main_ministry partner_ministries = a
     | [a; b] =>
         format_ministries main_ministry partner_ministries
         = a ++ " and " ++ b
     | _ =>
         exists init z,
           ms = init ++ [z] /\ 2 <= List.length init
           /\ format_ministries main_ministry partner_ministries
              = join ", " init ++ ", and " ++ z
     end
  /\ format_ministries "A" [] = "A"
  /\ format_ministries "A" [[("name" : str, "B" : str)]] = "A and B"
  /\ format_ministries "A" [[("name" : str, "B" : str)];
                            [("name" : str, "C" : str)]] = "A, B, and C"
  /\ format_ministries "A" [[("name" : str, "A" : str)];
                            [("id" : str, "7" : str)];
                            [("name" : str, "B" : str)];
                            [("name" : str, "B" : str)]] = "A and B".
Proof.
  intros ms names. repeat split.
  - constructor.
    + unfold names. rewrite first_occurrences_In. simpl. tauto.
    + apply first_occurrences_NoDup.
  - unfold ms, ministry_list. constructor. apply first_occurrences_sublist.
  - unfold ms, ministry_list. simpl. rewrite first_occurrences_In. simpl.
    intros [H | [H _]]; [left; symmetry; exact H | right; exact H].
  - unfold ms, ministry_list. simpl. rewrite first_occurrences_In. simpl.
    fold names. intros [-> | H]; [left; reflexivity|].
    destruct (list_eq_dec ascii_dec main_ministry x) as [-> | Hne];
      [left; reflexivity | right; tauto].
  - unfold format_ministries. rewrite fromkeys_ministry_list. fold ms.
    unfold ms, ministry_list. clear ms names.
    generalize (first_occurrences [main_ministry]
                  (partner_names partner_ministries)).
    intros [|b [|c l]]; [reflexivity | reflexivity |].
    destruct (removelast_last_split (main_ministry :: b :: c :: l))
      as [E Hlen]; [simpl; lia|].
    exists (removelast (main_ministry :: b :: c :: l)),
           (last (main_ministry :: b :: c :: l) []).
    split; [exact E | split; [exact Hlen | reflexivity]].
Qed.

(** ** Titles of a legislation page *)

Lemma regulation_hd i s g :
  hd_error (matches (Seq regulation_body) (i, s, g))
  = option_map (fun st => (fst st, snd st, g)) (regulation_parse (i, s)).
Proof.
  unfold regulation_body, regulation_parse.
  rewrite matches_Seq_C. step_go_on.
  rewrite matches_Seq_C. step_go_on.
  rewrite matches_Seq_run
    by (apply refuses_C; intros c; apply class_not_chr; reflexivity).
  step_go_on.
  rewrite matches_Seq_C. step_go_on.
  rewrite matches_Seq_C. step_go_on.
  rewrite matches_Seq_C. step_go_on.
  rewrite matches_Seq_C. step_go_on.
  rewrite matches_Seq_run.
  2:{ apply refuses_run; [exact space_not_digit | lia |].
      apply refuses_C; intros c; apply class_not_chr; reflexivity. }
  step_go_on.
  rewrite matches_Seq_run
    by (apply refuses_C; intros c; apply class_not_chr; reflexivity).
  step_go_on.
  rewrite matches_Seq_C. step_go_on.
  apply hd_matches_Seq_run_last.
Qed.

Lemma regulation_parse_cut i s rest :
  (exists e, regulation_parse (i, s) = Some (e, rest))
  <-> exists short, regulation_cut s short rest.
Proof.
  split.
  - intros [e H]. unfold regulation_parse in H.
    do 10 open_step H.
    apply take_run_some in H. cbn [fst snd] in H.
    destruct H as (d2 & H & Hd2 & Hl2 & Hstop & _).
    subst.
    match goal with
    | |- exists short, regulation_cut (_ :: _ :: ?ws1 ++ _ :: _ :: _ :: _ :: ?ws2 ++ ?d1 ++ _ :: _) _ _ =>
        exists ("O." ++ ws1 ++ "Reg." ++ ws2 ++ d1 ++ "/" ++ d2);
        exists ws1, ws2, d1, d2
    end.
    repeat split; auto using nonempty_length.
    cbv [list_ascii_of_string]. cbn [app].
    repeat (rewrite <- app_assoc; cbn [app]). reflexivity.
  - intros (short & ws1 & ws2 & d1 & d2 & -> & -> & H1 & H2 & Hn1 & Hd1
            & Hn2 & Hd2 & Hstop).
    cbv [list_ascii_of_string]. cbn [app].
    repeat (rewrite <- app_assoc; cbn [app]).
    unfold regulation_parse.
    rewrite expect_cons. cbn [and_then]. rewrite expect_cons. cbn [and_then].
    rewrite take_run_app by (auto; try lia; reflexivity). cbn [and_then].
    do 4 (rewrite expect_cons; cbn [and_then]).
    rewrite take_run_app
      by (auto; try lia; apply (stops_app space digit);
          auto using digit_not_space).
    cbn [and_then].
    rewrite take_run_app
      by (auto using length_nonempty; reflexivity).
    cbn [and_then]. rewrite expect_cons. cbn [and_then].
    rewrite take_run_app by (auto using length_nonempty).
    eexists. reflexivity.
Qed.

Lemma statute_hd i s g :
  hd_error (matches (Seq statute_body) (i, s, g))
  = option_map (fun st => (fst st, snd st, g)) (statute_parse (i, s)).
Proof.
  unfold statute_body, statute_parse.
  rewrite matches_Seq_run
    by (apply refuses_C; intros c; apply non_not_chr).
  step_go_on.
  rewrite matches_Seq_C. step_go_on.
  rewrite matches_Seq_C. step_go_on.
  rewrite matches_Seq_exact.
  match goal with
  | |- context [take_exact ?p ?k ?st] =>
      destruct (take_exact p k st) as [[? ?]|]; reflexivity
  end.
Qed.

Lemma statute_parse_cut i s rest :
  (exists e, statute_parse (i, s) = Some (e, rest))
  <-> exists short, statute_cut s short rest.
Proof.
  split.
  - intros [e H]. unfold statute_parse in H.
    do 3 open_step H.
    apply take_exact_some in H. cbn [fst snd] in H.
    destruct H as (year & H & Hy & Hl & _).
    subst.
    match goal with
    | |- exists short, statute_cut (?name ++ _) _ _ =>
        exists (name ++ ", " ++ year); exists name, year
    end.
    repeat split; auto using nonempty_length.
    cbv [list_ascii_of_string]. cbn [app].
    repeat (rewrite <- app_assoc; cbn [app]). reflexivity.
  - intros (short & name & year & -> & -> & Hn & Hname & Hy & Hl).
    cbv [list_ascii_of_string]. cbn [app].
    repeat (rewrite <- app_assoc; cbn [app]).
    unfold statute_parse.
    rewrite take_run_app by (auto using length_nonempty; reflexivity).
    cbn [and_then]. do 2 (rewrite expect_cons; cbn [and_then]).
    rewrite <- Hl, take_exact_app by exact Hy.
    eexists. reflexivity.
Qed.

Lemma anchored_short_title (r : regex)
      (parse : nat * str -> option (nat * str))
      (cut : str -> str -> str -> Prop) (s : str) :
  (forall i t g,
      hd_error (matches r (i, t, g))
      = option_map (fun st => (fst st, snd st, g)) (parse (i, t))) ->
  (forall i t rest,
      (exists e, parse (i, t) = Some (e, rest))
      <-> exists short, cut t short rest) ->
  (forall full short rest, cut full short rest -> full = short ++ rest) ->
  short_title_spec (fun full short => exists rest, cut full short rest) s
    match match_ (Seq [Bol; Grp 1 r]) s with
    | Some m => text (group m 1)
    | None => s
    end.
Proof.
  intros Hhd Hcut Happ.
  pose proof (match_anchored_group r parse s Hhd) as H.
  destruct (parse (0, s)) as [[e rest]|] eqn:E.
  - left. destruct (match_ _ s) as [m|]; [|discriminate].
    cbn [option_map snd] in H.
    assert (H' : text (group m 1)
                 = firstn (List.length s - List.length rest) s)
      by (injection H; auto).
    rewrite H'.
    destruct (proj1 (Hcut 0 s rest)) as [short Hshort]; [eauto|].
    exists rest. pose proof (Happ _ _ _ Hshort) as Hs.
    replace (firstn (List.length s - List.length rest) s) with short;
      [exact Hshort|].
    rewrite Hs. symmetry. apply firstn_app_length.
  - right. destruct (match_ _ s) as [m|]; [discriminate|].
    split; [|reflexivity].
    intros x [rest Hx].
    destruct (proj2 (Hcut 0 s rest)) as [e He]; [eauto|]. congruence.
Qed.

Lemma regulation_short_title (full : str) :
  short_title_spec regulation_short full
    match match_ regulation_pattern full with
    | Some m => text (group m 1)
    | None => full
    end.
Proof.
  apply (anchored_short_title (Seq regulation_body) regulation_parse
           regulation_cut full).
  - exact regulation_hd.
  - exact regulation_parse_cut.
  - intros f s r (? & ? & ? & ? & H & _). exact H.
Qed.

Lemma statute_short_title (full : str) :
  short_title_spec statute_short full
    match match_ statute_pattern full with
    | Some m => text (group m 1)
    | None => full
    end.
Proof.
  apply (anchored_short_title (Seq statute_body) statute_parse
           statute_cut full).
  - exact statute_hd.
  - exact statute_parse_cut.
  - intros f s r (? & ? & H & _). exact H.
Qed.

Lemma firstn_run_before_first x s :
  firstn (run_length (non x) None 0 s) s = before_first x s.
Proof.
  induction s as [|c s IH]; cbn [run_length below before_first];
    [reflexivity|].
  unfold non at 1. rewrite andb_true_r.
  destruct (chr_eqb c x); cbn [negb]; [reflexivity|].
  rewrite run_length_unbounded. cbn [firstn]. rewrite IH. reflexivity.
Qed.

Lemma full_title_hd i t g :
  hd_error (matches (Rep (non "-") 1 None true) (i, t, g))
  = option_map (fun st => (fst st, snd st, g)) (take_run (non "-") 1 (i, t)).
Proof.
  rewrite matches_Rep_greedy, hd_error_map, rep_greedy_hd.
  unfold take_run. cbn [fst snd Nat.add].
  destruct (1 <=? run_length (non "-") None 0 t); reflexivity.
Qed.

Lemma full_title_code (page_title : str) :
  match search full_title_pattern page_title with
  | Some m => strip (text (group m 1))
  | None => page_title
  end
  = full_title_of page_title.
Proof.
  unfold full_title_pattern. rewrite search_Bol.
  pose proof (match_anchored_group (Rep (non "-") 1 None true)
                (take_run (non "-") 1) page_title full_title_hd) as H.
  destruct (match_ _ page_title) as [m|].
  - unfold take_run in H. cbn [fst snd] in H.
    destruct (1 <=? run_length (non "-") None 0 page_title) eqn:E;
      [|discriminate].
    cbn [option_map snd] in H.
    assert (H' : text (group m 1) = before_first "-" page_title).
    { rewrite <- firstn_run_before_first.
      transitivity (firstn (List.length page_title
                            - List.length (skipn (run_length (non "-") None 0
                                                    page_title) page_title))
                           page_title); [injection H; auto|].
      f_equal. rewrite length_skipn.
      pose proof (run_length_le (non "-") None 0 page_title). lia. }
    rewrite H'. unfold full_title_of.
    destruct page_title as [|c s]; [discriminate|].
    cbn [run_length below] in E. unfold non at 1 in E.
    destruct (chr_eqb c "-"); [discriminate | reflexivity].
  - unfold take_run in H. cbn [fst snd] in H.
    destruct (1 <=? run_length (non "-") None 0 page_title) eqn:E;
      [discriminate|].
    unfold full_title_of. destruct page_title as [|c s]; [reflexivity|].
    cbn [run_length below] in E. unfold non at 1 in E.
    destruct (chr_eqb c "-"); [reflexivity | discriminate].
Qed.

(** C3, as the code has it: an absent or empty page title gives the
    literal [Legislation] twice; otherwise the full title is the text
    before the first dash, trimmed, except that a title that begins with
    a dash is kept whole; for a regulation the short title is the leading
    [O. Reg. <digits>/<digits>] of the full title (any white space after
    either full stop, digits as far as they go) or else the full title,
    and the full title is dropped; for a statute the short title is the
    leading [<text without comma>, <four digits>] or else the full
    title, and the full title is kept.  The two sample titles give the
    stated results. *)
Theorem elaws_titles_spec (page_title : option str) (is_regulation : bool) :
  titles_spec page_title is_regulation
    (elaws_titles page_title is_regulation)
  /\ (forall (c : ascii) (rest : str),
        c <> "-"%char ->
        full_title_of (c :: rest) = strip (before_first "-" (c :: rest)))
  /\ (forall rest : str,
        full_title_of ("-"%char :: rest) = "-"%char :: rest)
  /\ elaws_titles (Some ("O. Reg. 221/08 - General" : str)) true
     = (None, ("O. Reg. 221/08" : str))
  /\ (forall clean_url : str,
        citation_of "O. Reg. 221/08" clean_url None
        = "[O. Reg. 221/08](" ++ clean_url ++ ").")
  /\ fetch_elaws_citation
       (fun _ => Fetched (mkPage (Some ("O. Reg. 221/08 - General" : str))
                                 (fun _ => None)))
       "https://www.ontario.ca/laws/regulation/080221"
     = ElawsData None "O. Reg. 221/08" None
         "https://www.ontario.ca/laws/regulation/080221" true None
         "[O. Reg. 221/08](https://www.ontario.ca/laws/regulation/080221)."
  /\ elaws_titles
       (Some ("Early Childhood Educators Act, 2007 - Ontario.ca" : str)) false
     = (Some ("Early Childhood Educators Act, 2007" : str),
        ("Early Childhood Educators Act, 2007" : str)).
Proof.
  split; [|split; [|repeat split]].
  2:{ intros c rest Hc. unfold full_title_of.
      destruct (chr_eqb c "-") eqn:E; [|reflexivity].
      apply chr_eqb_eq in E. contradiction. }
  unfold elaws_titles. destruct (truthy page_title) eqn:Ht.
  - destruct page_title as [[|c title]|]; try discriminate.
    cbn [text]. cbv zeta. rewrite full_title_code.
    destruct is_regulation.
    + apply (titles_regulation _ _ (c :: title));
        [reflexivity | discriminate | reflexivity |].
      apply regulation_short_title.
    + apply (titles_statute _ _ (c :: title));
        [reflexivity | discriminate | reflexivity |].
      apply statute_short_title.
  - apply titles_default, Ht.
Qed.

(** C3 as stated fails on a page title that begins with a dash: the
    text before the first dash is empty, the code keeps the whole
    title. *)
Lemma elaws_titles_leading_dash_counterexample :
  let page_title : str := "-General" in
  strip (before_first "-" page_title) = []
  /\ elaws_titles (Some page_title) false
     = (Some ("-General" : str), ("-General" : str))
  /\ fst (elaws_titles (Some page_title) false)
     <> Some (strip (before_first "-" page_title)).
Proof. vm_compute. repeat split. discriminate. Qed.

(** ** The failure record of the e-Laws extractor *)

(** C8: when fetching or parsing fails, the e-Laws extractor returns the
    error record: the message, no full title, no short title, no section,
    and the regulation flag computed from the URL alone (the URL contains
    [regulation]); the call returns a value, nothing is raised. *)
Theorem fetch_elaws_citation_failure
        (fetch : str -> response) (url message : str) :
  fetch url = Failed message ->
  exists is_regulation : bool,
    fetch_elaws_citation fetch url
    = ElawsError message None None None is_regulation
    /\ (is_regulation = true <-> occurs "regulation" url).
Proof.
  intros H. exists (contains url "regulation"). split.
  - unfold fetch_elaws_citation. rewrite H. reflexivity.
  - apply contains_occurs.
Qed.

Lemma fetch_elaws_citation_failure_witness :
  exists is_regulation : bool,
    fetch_elaws_citation (fun _ => Failed "timed out")
      "https://www.ontario.ca/laws/regulation/080221"
    = ElawsError "timed out" None None None is_regulation
    /\ (is_regulation = true
        <-> occurs "regulation"
              "https://www.ontario.ca/laws/regulation/080221").
Proof.
  apply (fetch_elaws_citation_failure (fun _ => Failed "timed out")
           "https://www.ontario.ca/laws/regulation/080221" "timed out").
  reflexivity.
Defined.

(** ** The markup tokenizer *)

(** C4: splitting a citation string by the tokenizer's pattern always
    returns, and the parts (hyperlink tokens, italic tokens and the plain
    text between them) concatenated in order are the citation string
    itself. *)
Theorem split_markup_concat (citation_md : str) :
  exists parts : list str,
    split markup_pattern citation_md = Some (map Some parts)
    /\ List.concat parts = citation_md.
Proof.
  apply (split_whole_group markup_body). reflexivity.
Qed.

(** ** The renderer on malformed markup *)

(** C5, at a failing input: the text between the brackets holds a line
    feed, so the tokenizer's pattern does not match and the whole string is
    one plain part; that part begins with a bracket, contains [](] and
    ends with a parenthesis, so the renderer takes the hyperlink branch,
    finds no link text and indexes an empty list. *)
Theorem generate_docx_broken_link_raises :
  split markup_pattern broken_link = Some [Some broken_link]
  /\ generate_docx [broken_link] = IndexError.
Proof. vm_compute. split; reflexivity. Qed.

(** A lone asterisk is no token either, yet it is rendered as an empty
    italic run, not as plain text. *)
Lemma generate_docx_lone_asterisk :
  generate_docx [("*" : str)]
  = Returns [[Run true []; Run false ["010"%char]]].
Proof. vm_compute. reflexivity. Qed.

(** *** Citations without a line feed

    The failure above needs a line feed.  A part without one that passes
    the hyperlink test holds a bracketed text and a parenthesised target,
    so both look-ups find something, and the renderer returns. *)

Lemma bracket_match (a b : ascii) (i : nat) (w rest : str) (g : marks) :
  all_in dot w ->
  matches (Seq [C a; Grp 1 lazy_dots; C b]) (i, a :: w ++ b :: rest, g) <> [].
Proof.
  intros Hw.
  rewrite matches_Seq_cons, matches_C, chr_eqb_refl, flat_map_single.
  rewrite matches_Seq_cons.
  assert (Hin : In (S i + List.length w, b :: rest,
                    (1, (S i, S i + List.length w)) :: g)
                   (matches (Grp 1 lazy_dots) (S i, w ++ b :: rest, g))).
  { rewrite matches_Grp. apply in_map_iff.
    exists (S i + List.length w, b :: rest, g). split; [reflexivity|].
    unfold lazy_dots. cbn [matches]. apply in_map_iff.
    exists (S i + List.length w, b :: rest). split; [reflexivity|].
    apply rep_lazy_reach, Hw. }
  intros E.
  assert (Hin' : In (S (S i + List.length w), rest,
                     (1, (S i, S i + List.length w)) :: g)
                    (flat_map (matches (Seq [C b]))
                       (matches (Grp 1 lazy_dots) (S i, w ++ b :: rest, g)))).
  { apply in_flat_map. eexists. split; [exact Hin|].
    rewrite matches_Seq_last, matches_C, chr_eqb_refl. left. reflexivity. }
  rewrite E in Hin'. exact Hin'.
Qed.

(** A one-line part that passes the hyperlink test has a link text and a
    link target. *)
Lemma render_part_hyperlink (part : str) :
  one_line part ->
  startswith part "[" && contains part "](" && endswith part ")" = true ->
  exists link_text link_url,
    render_part (Some part) = Returns [Hyperlink link_text link_url].
Proof.
  intros Hline Hc. unfold render_part.
  destruct part as [|c0 part0] eqn:Epart; [discriminate|]. rewrite <- Epart in *.
  replace (truthy (Some part)) with true by (rewrite Epart; reflexivity).
  cbn [negb text]. rewrite Hc.
  apply andb_true_iff in Hc. destruct Hc as [Hc Hend].
  apply andb_true_iff in Hc. destruct Hc as [Hstart Hmid].
  apply startswith_prefix in Hstart. destruct Hstart as [u Hu].
  apply contains_occurs in Hmid. destruct Hmid as (x & y & Hxy).
  apply endswith_suffix in Hend. destruct Hend as [z Hz].
  cbv [list_ascii_of_string] in Hu, Hxy, Hz. cbn [app] in Hu, Hxy.
  assert (Hx : exists w, x = "["%char :: w).
  { destruct x as [|a w]; [rewrite Hu in Hxy; discriminate|].
    rewrite Hu in Hxy. injection Hxy as <- _. exists w. reflexivity. }
  destruct Hx as [w ->].
  assert (Hy : exists y', y = y' ++ [")"%char]).
  { destruct y as [|d y0].
    - exfalso. rewrite Hz in Hxy.
      change ("["%char :: w) with (["["%char] ++ w) in Hxy.
      change ("]"%char :: ["("%char]) with (["]"%char] ++ ["("%char]) in Hxy.
      rewrite <- app_assoc, !app_assoc in Hxy.
      apply app_inj_tail in Hxy. destruct Hxy as [_ Hxy]. discriminate.
    - apply (last_char_split (d :: y0) ")"%char
               (("["%char :: w) ++ ["]"%char; "("%char]));
        [discriminate|].
      exists z. rewrite <- Hz, Hxy, <- app_assoc. reflexivity. }
  destruct Hy as [y' ->].
  assert (Hlines : all_in dot w /\ all_in dot y').
  { unfold one_line in Hline. rewrite Hxy in Hline.
    change ("["%char :: w) with (["["%char] ++ w) in Hline.
    change ("]"%char :: "("%char :: y' ++ [")"%char])
      with (["]"%char; "("%char] ++ y' ++ [")"%char]) in Hline.
    rewrite !all_in_app in Hline. tauto. }
  destruct Hlines as [Hw Hy'].
  destruct (findall_nonempty link_text_pattern part [] part eq_refl)
    as (t1 & l1 & H1).
  { rewrite Hxy. cbn [app]. apply bracket_match, Hw. }
  destruct (findall_nonempty link_url_pattern part
              (("["%char :: w) ++ ["]"%char])
              ("("%char :: y' ++ [")"%char]))
    as (t2 & l2 & H2).
  { rewrite Hxy, <- app_assoc. reflexivity. }
  { apply bracket_match, Hy'. }
  rewrite H1, H2. cbn. eexists. eexists. reflexivity.
Qed.

Lemma render_part_returns (part : option str) :
  (forall p, part = Some p -> one_line p) ->
  exists rs, render_part part = Returns rs.
Proof.
  intros Hline. destruct part as [p|]; [|eexists; reflexivity].
  destruct (startswith p "[" && contains p "](" && endswith p ")") eqn:Hc.
  - destruct (render_part_hyperlink p (Hline p eq_refl) Hc)
      as (t & u & H).
    rewrite H. eexists. reflexivity.
  - unfold render_part.
    destruct (truthy (Some p)); cbn [negb]; [|eexists; reflexivity].
    cbn [text]. rewrite Hc.
    destruct ((startswith p "*" && endswith p "*")
              || (startswith p "_" && endswith p "_"));
      eexists; reflexivity.
Qed.

Lemma render_parts_returns (parts : list str) :
  Forall one_line parts ->
  exists rs, render_parts (map Some parts) = Returns rs.
Proof.
  induction 1 as [|p parts Hp _ IH]; cbn [map render_parts].
  - eexists. reflexivity.
  - destruct (render_part_returns (Some p)) as [rs Hrs].
    { intros q [= <-]. exact Hp. }
    destruct IH as [rs' Hrs']. rewrite Hrs, Hrs'. cbn. eexists. reflexivity.
Qed.

Lemma one_line_concat (parts : list str) :
  one_line (List.concat parts) -> Forall one_line parts.
Proof.
  unfold one_line. induction parts as [|p parts IH]; cbn [List.concat].
  - constructor.
  - rewrite all_in_app. intros [Hp Hrest]. constructor; auto.
Qed.

(** On citations without a line feed the renderer returns a document. *)
Lemma generate_docx_one_line (citation_texts : list str) :
  Forall one_line citation_texts ->
  exists doc, generate_docx citation_texts = Returns doc.
Proof.
  induction 1 as [|c cs Hc _ IH]; cbn [generate_docx].
  - eexists. reflexivity.
  - unfold render_citation.
    destruct (split_whole_group markup_body eq_refl c)
      as (parts & Hsplit & Hconcat).
    fold markup_pattern in Hsplit.
    rewrite Hsplit. cbn [of_scan bind].
    destruct (render_parts_returns parts) as [rs Hrs].
    { apply one_line_concat. rewrite Hconcat. exact Hc. }
    rewrite Hrs. cbn [bind]. destruct IH as [doc Hdoc]. rewrite Hdoc.
    cbn [bind]. eexists. reflexivity.
Qed.

(** ** Pieces, white space and words *)

(** *** Cutting at a separator *)

Lemma forallb_rev {A : Type} (p : A -> bool) (l : list A) :
  forallb p (rev l) = forallb p l.
Proof.
  induction l as [|a l IH]; [reflexivity|].
  cbn [rev forallb]. rewrite forallb_app, IH. cbn [forallb].
  rewrite andb_true_r. apply andb_comm.
Qed.

Lemma split_chr_aux_piece (sep : ascii) (w cur : str) :
  all_in (non sep) w ->
  split_chr_aux sep cur w = [rev cur ++ w].
Proof.
  revert cur. induction w as [|c w IH]; intros cur Hw; cbn [split_chr_aux].
  - rewrite app_nil_r. reflexivity.
  - unfold all_in in Hw. cbn [forallb] in Hw. apply andb_true_iff in Hw.
    destruct Hw as [Hc Hw]. unfold non in Hc. apply negb_true_iff in Hc.
    rewrite Hc, IH by exact Hw. cbn [rev]. rewrite <- app_assoc. reflexivity.
Qed.

Lemma split_chr_aux_cons (sep : ascii) (w cur rest : str) :
  all_in (non sep) w ->
  split_chr_aux sep cur (w ++ sep :: rest)
  = (rev cur ++ w) :: split_chr sep rest.
Proof.
  revert cur. induction w as [|c w IH]; intros cur Hw; cbn [split_chr_aux app].
  - rewrite chr_eqb_refl, app_nil_r. reflexivity.
  - unfold all_in in Hw. cbn [forallb] in Hw. apply andb_true_iff in Hw.
    destruct Hw as [Hc Hw]. unfold non in Hc. apply negb_true_iff in Hc.
    rewrite Hc, IH by exact Hw. cbn [rev]. rewrite <- app_assoc. reflexivity.
Qed.

Lemma split_chr_join (sep : ascii) (l : list str) :
  l <> [] -> Forall (all_in (non sep)) l ->
  split_chr sep (join [sep] l) = l.
Proof.
  intros Hne Hl. induction Hl as [|w l Hw Hl IH]; [contradiction|].
  destruct l as [|w' l].
  - cbn [join]. unfold split_chr. rewrite split_chr_aux_piece by exact Hw.
    reflexivity.
  - change (join [sep] (w :: w' :: l)) with (w ++ [sep] ++ join [sep] (w' :: l)).
    cbn [app]. unfold split_chr at 1.
    rewrite split_chr_aux_cons by exact Hw. cbn [rev app].
    rewrite IH by discriminate. reflexivity.
Qed.

Lemma split_chr_aux_join (sep : ascii) (s cur : str) :
  all_in (non sep) cur ->
  let l := split_chr_aux sep cur s in
  l <> [] /\ Forall (all_in (non sep)) l /\ join [sep] l = rev cur ++ s.
Proof.
  revert cur. induction s as [|c s IH]; intros cur Hcur; cbn [split_chr_aux].
  - cbn zeta. split; [discriminate|]. split.
    + constructor; [|constructor]. unfold all_in in *. rewrite forallb_rev.
      exact Hcur.
    + cbn [join]. rewrite app_nil_r. reflexivity.
  - destruct (chr_eqb c sep) eqn:Ec.
    + apply chr_eqb_eq in Ec. subst c.
      destruct (IH [] eq_refl) as (Hne & Hall & Hj). cbn zeta.
      split; [discriminate|]. split.
      * constructor; [|exact Hall]. unfold all_in in *. rewrite forallb_rev.
        exact Hcur.
      * destruct (split_chr_aux sep [] s) as [|x l] eqn:E; [contradiction|].
        change (join [sep] (rev cur :: x :: l))
          with (rev cur ++ [sep] ++ join [sep] (x :: l)).
        rewrite Hj. reflexivity.
    + destruct (IH (c :: cur)) as (Hne & Hall & Hj).
      { unfold all_in in *. cbn [forallb]. unfold non at 1. rewrite Ec.
        exact Hcur. }
      cbn zeta. split; [exact Hne|]. split; [exact Hall|].
      rewrite Hj. cbn [rev]. rewrite <- app_assoc. reflexivity.
Qed.

Lemma join_split_chr (sep : ascii) (s : str) :
  pieces_of sep (split_chr sep s) /\ join [sep] (split_chr sep s) = s.
Proof.
  destruct (split_chr_aux_join sep s [] eq_refl) as (H1 & H2 & H3).
  split; [split|]; assumption.
Qed.

Lemma split_chr_aux_hd (sep : ascii) (s cur : str) :
  hd [] (split_chr_aux sep cur s) = rev cur ++ before_first sep s.
Proof.
  revert cur. induction s as [|c s IH]; intros cur;
    cbn [split_chr_aux before_first].
  - cbn [hd]. rewrite app_nil_r. reflexivity.
  - destruct (chr_eqb c sep); [cbn [hd]; rewrite app_nil_r; reflexivity|].
    rewrite IH. cbn [rev]. rewrite <- app_assoc. reflexivity.
Qed.

Lemma split_chr_hd (sep : ascii) (s : str) :
  hd [] (split_chr sep s) = before_first sep s.
Proof. apply (split_chr_aux_hd sep s []). Qed.

Lemma split_chr_aux_cases (sep : ascii) (s cur : str) :
  exists x l, split_chr_aux sep cur s = x :: l.
Proof.
  revert cur. induction s as [|c s IH]; intros cur; cbn [split_chr_aux].
  - eexists. eexists. reflexivity.
  - destruct (chr_eqb c sep); [eexists; eexists; reflexivity | apply IH].
Qed.

Lemma contains_chr_cons (x c : ascii) (s : str) :
  contains (c :: s) [x] = chr_eqb c x || contains s [x].
Proof.
  cbn [contains startswith]. rewrite andb_true_r.
  unfold chr_eqb. rewrite Ascii.eqb_sym. reflexivity.
Qed.

(** [s.split(sep)[1]] when [sep in s]: the index is in range. *)
Lemma split_chr_aux_second (sep : ascii) (s cur : str) :
  contains s [sep] = true ->
  nth_error (split_chr_aux sep cur s) 1
  = Some (before_first sep (after_first sep s)).
Proof.
  revert cur. induction s as [|c s IH]; intros cur.
  - discriminate.
  - rewrite contains_chr_cons. cbn [split_chr_aux after_first].
    destruct (chr_eqb c sep) eqn:E.
    + intros _. cbn [nth_error].
      destruct (split_chr_aux_cases sep s []) as (x & l & El).
      pose proof (split_chr_aux_hd sep s []) as H. rewrite El in *.
      cbn [hd rev app] in H. cbn [nth_error]. rewrite H. reflexivity.
    + cbn [orb]. apply IH.
Qed.

Lemma contains_chr_before (x : ascii) (s : str) :
  contains s [x] = false -> before_first x s = s.
Proof.
  induction s as [|c s IH]; [reflexivity|].
  rewrite contains_chr_cons. cbn [before_first].
  destruct (chr_eqb c x); [discriminate|]. cbn [orb].
  intros H. rewrite IH by exact H. reflexivity.
Qed.

Lemma before_after_first (x : ascii) (s : str) :
  contains s [x] = true ->
  s = before_first x s ++ x :: after_first x s.
Proof.
  induction s as [|c s IH]; [discriminate|].
  rewrite contains_chr_cons. cbn [before_first after_first].
  destruct (chr_eqb c x) eqn:E.
  - apply chr_eqb_eq in E. subst c. reflexivity.
  - cbn [orb app]. intros H. f_equal. apply IH, H.
Qed.

Lemma before_first_free (x : ascii) (s : str) :
  all_in (non x) (before_first x s).
Proof.
  unfold all_in. induction s as [|c s IH]; [reflexivity|].
  cbn [before_first]. destruct (chr_eqb c x) eqn:E; [reflexivity|].
  cbn [forallb]. unfold non at 1. rewrite E. exact IH.
Qed.

Lemma all_in_join (p : ascii -> bool) (sep : str) (l : list str) :
  all_in p sep ->
  (all_in p (join sep l) <-> Forall (all_in p) l).
Proof.
  intros Hsep. induction l as [|x l IH].
  - cbn [join]. split; [constructor | reflexivity].
  - destruct l as [|y l].
    + cbn [join]. split; [intros; constructor; [assumption | constructor]|].
      intros H. inversion H. assumption.
    + change (join sep (x :: y :: l)) with (x ++ sep ++ join sep (y :: l)).
      rewrite !all_in_app, IH. split.
      * intros (Hx & _ & Hl). constructor; assumption.
      * intros H. inversion H. tauto.
Qed.

Lemma Forall_last {A : Type} (P : A -> Prop) (l : list A) (d : A) :
  Forall P l -> P d -> P (last l d).
Proof.
  intros H Hd. induction H as [|x l Hx Hl IH]; [exact Hd|].
  destruct l; [exact Hx | exact IH].
Qed.

Lemma last_piece_all_in p (url : str) :
  all_in p url -> p "/"%char = true ->
  all_in p (last (split_chr "/" url) []).
Proof.
  intros Hu Hs. destruct (join_split_chr "/" url) as [_ Hj].
  rewrite <- Hj in Hu. apply all_in_join in Hu.
  - apply Forall_last; [exact Hu | reflexivity].
  - unfold all_in. cbn [forallb]. rewrite Hs. reflexivity.
Qed.

(** *** Trimming *)

Lemma lstrip_stops (s : str) : stops isspace (lstrip s).
Proof.
  induction s as [|c s IH]; cbn [lstrip]; [exact I|].
  destruct (isspace c) eqn:E; [exact IH | exact E].
Qed.

Lemma lstrip_suffix (s : str) :
  exists w, s = w ++ lstrip s /\ all_in isspace w.
Proof.
  induction s as [|c s IH]; cbn [lstrip].
  - exists []. split; reflexivity.
  - destruct (isspace c) eqn:E.
    + destruct IH as (w & Hs & Hw). exists (c :: w). split.
      * cbn [app]. f_equal. exact Hs.
      * unfold all_in in *. cbn [forallb]. rewrite E. exact Hw.
    + exists []. split; reflexivity.
Qed.

Lemma lstrip_nil (s : str) : lstrip s = [] <-> all_in isspace s.
Proof.
  unfold all_in. induction s as [|c s IH]; cbn [lstrip forallb].
  - tauto.
  - destruct (isspace c); cbn [andb]; [exact IH|].
    split; discriminate.
Qed.

(** [s.strip()] cuts white space off both ends and nothing else. *)
Lemma strip_split (s : str) :
  exists a b, s = a ++ strip s ++ b /\ all_in isspace a /\ all_in isspace b.
Proof.
  unfold strip, rstrip.
  destruct (lstrip_suffix s) as (a & Hs & Ha).
  destruct (lstrip_suffix (rev (lstrip s))) as (b & Hr & Hb).
  exists a, (rev b). split; [|split].
  - rewrite Hs at 1. f_equal.
    rewrite <- (rev_involutive (lstrip s)), Hr at 1.
    rewrite rev_app_distr. reflexivity.
  - exact Ha.
  - unfold all_in in *. rewrite forallb_rev. exact Hb.
Qed.

Lemma stops_rev_lstrip (s : str) :
  stops isspace s -> stops isspace (rev (lstrip (rev s))) .
Proof.
  intros H.
  destruct (lstrip_suffix (rev s)) as (w & Hs & Hw).
  destruct s as [|c s]; [exact I|].
  cbn [stops] in H.
  assert (Hrev : c :: s = rev (lstrip (rev (c :: s))) ++ rev w).
  { rewrite <- rev_app_distr, <- Hs, rev_involutive. reflexivity. }
  destruct (rev (lstrip (rev (c :: s)))) as [|d t] eqn:E.
  - exact I.
  - cbn [app] in Hrev. injection Hrev as <- _. exact H.
Qed.

Lemma strip_trimmed (s : str) : trimmed (strip s).
Proof.
  unfold trimmed, strip, rstrip. split.
  - apply stops_rev_lstrip, lstrip_stops.
  - rewrite rev_involutive. apply lstrip_stops.
Qed.

Lemma strip_nil (s : str) : strip s = [] <-> all_in isspace s.
Proof.
  split.
  - intros H. destruct (strip_split s) as (a & b & Hs & Ha & Hb).
    rewrite H in Hs. cbn [app] in Hs. rewrite Hs. apply all_in_app. tauto.
  - intros H. unfold strip, rstrip.
    apply lstrip_nil in H. rewrite H. reflexivity.
Qed.

Lemma strip_all_in (p : ascii -> bool) (s : str) :
  all_in p s -> all_in p (strip s).
Proof.
  intros H. destruct (strip_split s) as (a & b & Hs & _ & _).
  rewrite Hs in H. apply all_in_app in H. destruct H as [_ H].
  apply all_in_app in H. tauto.
Qed.

Lemma truthy_nonempty (s : str) : truthy (Some s) = true <-> s <> [].
Proof.
  destruct s; cbn; split; try discriminate; auto.
Qed.

Lemma suffix_trimmed (w t : str) :
  trimmed (w ++ t) -> stops isspace t -> trimmed t.
Proof.
  intros [_ H] Ht. split; [exact Ht|].
  rewrite rev_app_distr in H. destruct (rev t) as [|c r]; [exact I|].
  exact H.
Qed.

(** *** Words *)

Lemma all_in_weaken (p q : ascii -> bool) (s : str) :
  (forall c, p c = true -> q c = true) -> all_in p s -> all_in q s.
Proof.
  unfold all_in. intros Hpq. induction s as [|c s IH]; cbn [forallb]; auto.
  intros H. apply andb_true_iff in H. destruct H as [H1 H2].
  rewrite (Hpq _ H1), (IH H2). reflexivity.
Qed.

Lemma all_in_cons p (c : ascii) (s : str) :
  p c = true -> all_in p s -> all_in p (c :: s).
Proof. unfold all_in. cbn [forallb]. intros -> ->. reflexivity. Qed.

(** The words of [s.split()]. *)
Lemma split_ws_aux_words (s cur : str) :
  all_in (fun c => negb (isspace c)) cur ->
  Forall word (split_ws_aux cur s).
Proof.
  revert cur. induction s as [|c s IH]; intros cur Hcur; cbn [split_ws_aux].
  - destruct cur as [|x cur]; constructor; [|constructor].
    split.
    + intros E. apply (f_equal (@List.length ascii)) in E.
      rewrite length_rev in E. discriminate.
    + unfold all_in in *. rewrite forallb_rev. exact Hcur.
  - destruct (isspace c) eqn:E.
    + destruct cur as [|x cur]; [apply IH; reflexivity|].
      constructor; [|apply IH; reflexivity].
      split.
      * intros E'. apply (f_equal (@List.length ascii)) in E'.
        rewrite length_rev in E'. discriminate.
      * unfold all_in in *. rewrite forallb_rev. exact Hcur.
    + apply IH. unfold all_in in *. cbn [forallb]. rewrite E. exact Hcur.
Qed.

Lemma split_ws_words (s : str) : Forall word (split_ws s).
Proof. apply split_ws_aux_words. reflexivity. Qed.

Lemma split_ws_aux_word (w cur : str) :
  all_in (fun c => negb (isspace c)) w ->
  split_ws_aux cur w = match rev cur ++ w with [] => [] | x => [x] end.
Proof.
  revert cur. induction w as [|c w IH]; intros cur Hw; cbn [split_ws_aux].
  - rewrite app_nil_r. destruct cur as [|x cur]; [reflexivity|].
    destruct (rev (x :: cur)) eqn:E; [|reflexivity].
    apply (f_equal (@List.length ascii)) in E. rewrite length_rev in E.
    discriminate.
  - unfold all_in in Hw. cbn [forallb] in Hw. apply andb_true_iff in Hw.
    destruct Hw as [Hc Hw]. apply negb_true_iff in Hc. rewrite Hc.
    rewrite IH by exact Hw. cbn [rev]. rewrite <- app_assoc. reflexivity.
Qed.

Lemma split_ws_aux_word_space (w cur rest : str) (c : ascii) :
  all_in (fun c => negb (isspace c)) w -> isspace c = true ->
  split_ws_aux cur (w ++ c :: rest)
  = match rev cur ++ w with [] => [] | x => [x] end ++ split_ws rest.
Proof.
  revert cur. induction w as [|d w IH]; intros cur Hw Hc;
    cbn [split_ws_aux app].
  - rewrite Hc, app_nil_r. destruct cur as [|x cur]; [reflexivity|].
    destruct (rev (x :: cur)) eqn:E; [|reflexivity].
    apply (f_equal (@List.length ascii)) in E. rewrite length_rev in E.
    discriminate.
  - unfold all_in in Hw. cbn [forallb] in Hw. apply andb_true_iff in Hw.
    destruct Hw as [Hd Hw]. apply negb_true_iff in Hd. rewrite Hd.
    rewrite IH by assumption. cbn [rev]. rewrite <- app_assoc. reflexivity.
Qed.

(** Joining words with one space and splitting again gives the words. *)
Lemma split_ws_join (l : list str) :
  Forall word l -> split_ws (join " " l) = l.
Proof.
  induction 1 as [|w l [Hne Hw] Hl IH]; [reflexivity|].
  destruct l as [|w' l].
  - cbn [join]. unfold split_ws. rewrite split_ws_aux_word by exact Hw.
    cbn [rev app]. destruct w; [contradiction | reflexivity].
  - change (join " " (w :: w' :: l)) with (w ++ " " ++ join " " (w' :: l)).
    cbv [list_ascii_of_string]. cbn [app]. unfold split_ws at 1.
    rewrite split_ws_aux_word_space by (exact Hw || reflexivity).
    cbn [rev app]. change [" "%char] with (" " : str) in IH.
    cbv [list_ascii_of_string] in IH. rewrite IH.
    destruct w; [contradiction | reflexivity].
Qed.

Lemma split_ws_aux_concat (s cur : str) :
  List.concat (split_ws_aux cur s)
  = rev cur ++ filter (fun c => negb (isspace c)) s.
Proof.
  revert cur. induction s as [|c s IH]; intros cur;
    cbn [split_ws_aux filter].
  - destruct cur; [reflexivity|]. cbn [List.concat]. reflexivity.
  - destruct (isspace c); cbn [negb].
    + destruct cur as [|x cur]; [apply IH|].
      cbn [List.concat]. rewrite IH. reflexivity.
    + rewrite IH. cbn [rev]. rewrite <- app_assoc. reflexivity.
Qed.

Lemma word_one_line (w : str) : word w -> one_line w.
Proof.
  intros [_ H]. unfold one_line. revert H. apply all_in_weaken.
  intros c Hc. unfold dot.
  destruct (chr_eqb c "010") eqn:E; [|reflexivity].
  apply chr_eqb_eq in E. subst c. discriminate.
Qed.

Lemma normalised_one_line (title : str) :
  one_line (join " " (split_ws title)).
Proof.
  apply (proj2 (all_in_join dot " " (split_ws title) eq_refl)).
  apply (Forall_impl _ word_one_line), split_ws_words.
Qed.

(** *** Texts cut out of a match *)

Lemma all_in_firstn p n (s : str) : all_in p s -> all_in p (firstn n s).
Proof.
  unfold all_in. revert n. induction s as [|c s IH]; intros [|n];
    cbn [firstn forallb]; auto.
  intros H. apply andb_true_iff in H. destruct H as [-> H]. apply IH, H.
Qed.

Lemma all_in_skipn p n (s : str) : all_in p s -> all_in p (skipn n s).
Proof.
  unfold all_in. revert n. induction s as [|c s IH]; intros [|n];
    cbn [skipn forallb]; auto.
  intros H. apply andb_true_iff in H. destruct H as [_ H]. apply IH, H.
Qed.

Lemma all_in_slice p (s : str) a b : all_in p s -> all_in p (slice s a b).
Proof. intros H. apply all_in_firstn, all_in_skipn, H. Qed.

Lemma all_in_group p (m : Match) (n : nat) :
  all_in p (m_string m) -> all_in p (text (group m n)).
Proof.
  intros H. unfold group. destruct n as [|n]; cbn [text].
  - apply all_in_slice, H.
  - destruct (mark (m_marks m) (S n)); cbn [option_map text];
      [apply all_in_slice, H | reflexivity].
Qed.

Lemma search_string (r : regex) (s : str) (m : Match) :
  search r s = Some m -> m_string m = s.
Proof.
  unfold search. intros H. apply search_from_result in H.
  destruct H as (_ & _ & _ & H & _). exact H.
Qed.

Lemma slice_middle (pre w rest : str) :
  slice (pre ++ w ++ rest) (List.length pre)
        (List.length pre + List.length w) = w.
Proof.
  unfold slice. rewrite skipn_app_length.
  replace (List.length pre + List.length w - List.length pre)
    with (List.length w) by lia.
  rewrite firstn_app, Nat.sub_diag, firstn_all. cbn [firstn].
  apply app_nil_r.
Qed.

Lemma slice_at (s a w rest : str) (i j : nat) :
  s = a ++ w ++ rest -> i = List.length a -> j = i + List.length w ->
  slice s i j = w.
Proof. intros -> -> ->. apply slice_middle. Qed.

Lemma group_1_slice (whole : str) (i e a b : nat) (g : marks) :
  group (mkMatch whole i e ((1, (a, b)) :: g)) 1 = Some (slice whole a b).
Proof. reflexivity. Qed.

(** ** The release ID of a news release *)

Lemma isdigit_iff (s : str) :
  isdigit s = true <-> s <> [] /\ all_in isdigit_chr s.
Proof.
  destruct s as [|c s]; cbn [isdigit].
  - split; [discriminate | intros [H _]; contradiction].
  - split; [intros H; split; [discriminate | exact H] | intros [_ H]; exact H].
Qed.

Lemma find_first {A : Type} (f : A -> bool) (l : list A) :
  match find f l with
  | Some x => exists l1 l2, l = l1 ++ x :: l2 /\ f x = true
                            /\ Forall (fun y => f y = false) l1
  | None => Forall (fun y => f y = false) l
  end.
Proof.
  induction l as [|a l IH]; cbn [find]; [constructor|].
  destruct (f a) eqn:E.
  - exists [], l. repeat split; auto.
  - destruct (find f l) as [x|].
    + destruct IH as (l1 & l2 & -> & Hx & Hl1).
      exists (a :: l1), l2. repeat split; auto.
    + constructor; assumption.
Qed.

(** X1: every URL is cut at its slashes into pieces in one way only, and
    the release ID is the first piece that is a non-empty run of digits
    (superscript digits count); without such a piece there is no release
    ID. *)
Theorem extract_release_id_first_numeric_piece (url : str) :
  (exists l : list str,
      pieces_of "/" l /\ url = join "/" l
      /\ (forall l', pieces_of "/" l' -> url = join "/" l' -> l' = l)
      /\ match extract_release_id url with
         | Some release_id =>
             exists before after,
               l = before ++ release_id :: after
               /\ release_id <> [] /\ all_in isdigit_chr release_id
               /\ Forall (fun piece => isdigit piece = false) before
         | None => Forall (fun piece => isdigit piece = false) l
         end).
Proof.
  destruct (join_split_chr "/" url) as [Hp Hj].
  exists (split_chr "/" url). split; [exact Hp|]. split; [symmetry; exact Hj|].
  split.
  - intros l' [Hne Hall] ->. symmetry. apply split_chr_join; assumption.
  - unfold extract_release_id.
    pose proof (find_first isdigit (split_chr "/" url)) as H.
    destruct (find isdigit (split_chr "/" url)) as [x|]; [|exact H].
    destruct H as (l1 & l2 & E & Hx & Hl1). apply isdigit_iff in Hx.
    exists l1, l2. tauto.
Qed.

Lemma app_nonempty_l (a b : str) : a <> [] -> a ++ b <> [].
Proof. destruct a; [contradiction | discriminate]. Qed.

Lemma fetch_news_release_citation_result get (url : str) :
  (exists c, fetch_news_release_citation get url = (Some c, None))
  \/ (exists e, e <> []
                /\ fetch_news_release_citation get url = (None, Some e)).
Proof.
  unfold fetch_news_release_citation.
  destruct (negb (truthy (extract_release_id url))).
  { right. eexists. split; [|reflexivity]. discriminate. }
  destruct (get _) as [e|e|data].
  - right. eexists. split; [|reflexivity]. apply app_nonempty_l. discriminate.
  - right. eexists. split; [|reflexivity]. apply app_nonempty_l. discriminate.
  - left. eexists. reflexivity.
Qed.

(** X2: the news extractor returns the release-ID error without asking
    the API when the URL has no numeric piece; otherwise it asks the API
    for the first numeric piece, turns a failing request or a failing
    parse into the matching error, and else builds the citation around
    the link to the URL as given, with [No title] for a missing title
    and the release type in lower case ([news release] when missing). *)
Theorem fetch_news_release_citation_result_cases
        (requests_get : str -> api_response) (url : str) :
  (extract_release_id url = None
   /\ fetch_news_release_citation requests_get url
      = (None, Some ("Could not extract release ID from URL" : str)))
  \/ exists release_id,
       extract_release_id url = Some release_id
       /\ release_id <> []
       /\ match requests_get ("https://api.news.ontario.ca/api/v1/releases/"
                               ++ release_id ++ "?language=en") with
          | RequestRaises e =>
              fetch_news_release_citation requests_get url
              = (None, Some ("Error fetching data: " ++ e))
          | ParseRaises e =>
              fetch_news_release_citation requests_get url
              = (None, Some ("Error parsing data: " ++ e))
          | Release data =>
              exists before after,
                fetch_news_release_citation requests_get url
                = (Some (before ++ "[" ++ get (content_title data) "No title"
                                ++ "](" ++ url ++ ")" ++ after), None)
                /\ before
                   = format_ministries (get (ministry_name data) [])
                       (get (partner_ministries data) [])
                     ++ ", " ++ dquote
                /\ after
                   = dquote ++ ", *"
                     ++ lower (get (release_type_name data) "News Release")
                     ++ "*, " ++ get (release_date_time_formatted data) []
                     ++ "."
          end.
Proof.
  unfold fetch_news_release_citation.
  destruct (extract_release_id url) as [release_id|] eqn:E.
  - right. exists release_id. split; [reflexivity|].
    assert (Hne : release_id <> []).
    { unfold extract_release_id in E. apply find_some in E.
      destruct E as [_ E]. apply isdigit_iff in E. tauto. }
    split; [exact Hne|].
    replace (truthy (Some release_id)) with true
      by (destruct release_id; [contradiction | reflexivity]).
    cbn [negb text].
    destruct (requests_get _) as [e|e|data]; try reflexivity.
    eexists. eexists. split; [|split; reflexivity].
    rewrite <- !app_assoc. reflexivity.
  - left. split; reflexivity.
Qed.

(** ** The clean URL and the section of an e-Laws citation *)

(** The clean URL: the longest prefix without [?] and [#]. *)
Lemma before_first_twice (s : str) :
  exists rest,
    s = before_first "#" (before_first "?" s) ++ rest
    /\ all_in url_chr (before_first "#" (before_first "?" s))
    /\ stops url_chr rest.
Proof.
  induction s as [|c s IH].
  - exists []. repeat split.
  - destruct IH as (rest & Hs & Hall & Hstop).
    cbn [before_first].
    destruct (chr_eqb c "?") eqn:E1.
    + exists (c :: s). cbn [before_first app]. repeat split.
      cbn [stops]. unfold url_chr, non. rewrite E1. reflexivity.
    + cbn [before_first]. destruct (chr_eqb c "#") eqn:E2.
      * exists (c :: s). cbn [app]. repeat split.
        cbn [stops]. unfold url_chr, non. rewrite E2. apply andb_false_r.
      * exists rest. cbn [app]. split; [f_equal; exact Hs|].
        split; [|exact Hstop].
        unfold all_in in *. cbn [forallb]. rewrite Hall.
        unfold url_chr, non. rewrite E1, E2. reflexivity.
Qed.

Lemma longest_prefix_unique (p : ascii -> bool) (a b r1 r2 : str) :
  a ++ r1 = b ++ r2 ->
  all_in p a -> stops p r1 -> all_in p b -> stops p r2 -> a = b.
Proof.
  revert b. induction a as [|x a IH]; intros [|y b] E Ha H1 Hb H2.
  - reflexivity.
  - cbn in E. subst r1. cbn in H1. unfold all_in in Hb. cbn in Hb.
    rewrite H1 in Hb. discriminate.
  - cbn in E. subst r2. cbn in H2. unfold all_in in Ha. cbn in Ha.
    rewrite H2 in Ha. discriminate.
  - cbn in E. injection E as -> E. f_equal.
    unfold all_in in *. cbn [forallb] in *.
    apply andb_true_iff in Ha, Hb.
    apply (IH b E); tauto.
Qed.

(** X3: for a fetched page, the clean URL is the longest prefix of the
    URL without a question mark or a hash sign, and both citations link
    to it. *)
Theorem fetch_elaws_citation_clean_url
        (fetch : str -> response) (url : str) (soup : page) :
  fetch url = Fetched soup ->
  exists full_title short_title section clean_url is_regulation
         full_citation short_citation rest,
    fetch_elaws_citation fetch url
    = ElawsData full_title short_title section clean_url is_regulation
                full_citation short_citation
    /\ url = clean_url ++ rest
    /\ all_in url_chr clean_url /\ stops url_chr rest
    /\ (forall prefix rest',
          url = prefix ++ rest' -> all_in url_chr prefix ->
          stops url_chr rest' -> prefix = clean_url)
    /\ short_citation = citation_of short_title clean_url section
    /\ (full_citation = None
        \/ full_citation
           = Some (citation_of (text full_title) clean_url section)).
Proof.
  intros H. unfold fetch_elaws_citation. rewrite H.
  destruct (elaws_titles (page_title_string soup) (contains url "regulation"))
    as [full short].
  rewrite !split_chr_hd.
  destruct (before_first_twice url) as (rest & Hs & Hall & Hstop).
  do 7 eexists. exists rest.
  split; [reflexivity|]. split; [exact Hs|]. split; [exact Hall|].
  split; [exact Hstop|]. split.
  { intros prefix rest' Hu Hp Hr.
    apply (longest_prefix_unique url_chr prefix _ rest' rest);
      [rewrite <- Hu; exact Hs | assumption ..]. }
  split; [reflexivity|].
  destruct (truthy full); [right|left]; reflexivity.
Qed.

Lemma fetch_elaws_citation_clean_url_witness :
  exists full_title short_title section clean_url is_regulation
         full_citation short_citation rest,
    fetch_elaws_citation
      (fun _ => Fetched (mkPage (Some ("Planning Act, 1990 - x" : str))
                                (fun _ => None)))
      "https://www.ontario.ca/laws/statute/90p13?search=a#BK5"
    = ElawsData full_title short_title section clean_url is_regulation
                full_citation short_citation
    /\ ("https://www.ontario.ca/laws/statute/90p13?search=a#BK5" : str)
       = clean_url ++ rest
    /\ all_in url_chr clean_url /\ stops url_chr rest
    /\ (forall prefix rest',
          ("https://www.ontario.ca/laws/statute/90p13?search=a#BK5" : str)
          = prefix ++ rest' -> all_in url_chr prefix ->
          stops url_chr rest' -> prefix = clean_url)
    /\ short_citation = citation_of short_title clean_url section
    /\ (full_citation = None
        \/ full_citation
           = Some (citation_of (text full_title) clean_url section)).
Proof.
  apply (fetch_elaws_citation_clean_url
           (fun _ => Fetched (mkPage (Some ("Planning Act, 1990 - x" : str))
                                     (fun _ => None)))
           "https://www.ontario.ca/laws/statute/90p13?search=a#BK5"
           (mkPage (Some ("Planning Act, 1990 - x" : str)) (fun _ => None))).
  reflexivity.
Defined.

(** X4: for a fetched page, the section is looked up only for a URL with
    a hash sign whose anchor (the text after the first hash sign, up to
    the next hash sign or question mark) begins with [BK]; the look-up is
    by that anchor, and the index into the split never leaves its
    range. *)
Theorem fetch_elaws_citation_section
        (fetch : str -> response) (url : str) (soup : page) :
  fetch url = Fetched soup ->
  exists full_title short_title section clean_url is_regulation
         full_citation short_citation,
    fetch_elaws_citation fetch url
    = ElawsData full_title short_title section clean_url is_regulation
                full_citation short_citation
    /\ ((all_in (non "#") url /\ section = None)
        \/ exists before anchor rest,
             url = before ++ "#" ++ anchor ++ rest
             /\ all_in (non "#") before
             /\ all_in url_chr anchor /\ stops url_chr rest
             /\ section = if startswith anchor "BK"
                          then page_section soup anchor else None).
Proof.
  intros H. unfold fetch_elaws_citation. rewrite H.
  destruct (elaws_titles (page_title_string soup) (contains url "regulation"))
    as [full short].
  do 7 eexists. split; [reflexivity|].
  change ("#" : str) with ["#"%char].
  destruct (contains url ["#"%char]) eqn:Ec.
  - right.
    pose proof (split_chr_aux_second "#" url [] Ec) as H2.
    rewrite split_chr_hd.
    change (split_chr_aux "#" [] url) with (split_chr "#" url) in H2.
    rewrite (nth_error_nth _ _ _ H2).
    set (frag := after_first "#" url).
    pose proof (before_after_first "#" url Ec) as Hu. fold frag in Hu.
    exists (before_first "#" url), (before_first "?" (before_first "#" frag)).
    assert (Hfrag : exists rest,
               frag = before_first "?" (before_first "#" frag) ++ rest
               /\ all_in url_chr (before_first "?" (before_first "#" frag))
               /\ stops url_chr rest).
    { clear. induction frag as [|c s IH].
      - exists []. repeat split.
      - destruct IH as (rest & Hs & Hall & Hstop). cbn [before_first].
        destruct (chr_eqb c "#") eqn:E2.
        + exists (c :: s). cbn [before_first app]. repeat split.
          cbn [stops]. unfold url_chr, non. rewrite E2. apply andb_false_r.
        + cbn [before_first]. destruct (chr_eqb c "?") eqn:E1.
          * exists (c :: s). cbn [app]. repeat split.
            cbn [stops]. unfold url_chr, non. rewrite E1. reflexivity.
          * exists rest. cbn [app]. split; [f_equal; exact Hs|].
            split; [|exact Hstop].
            unfold all_in in *. cbn [forallb]. rewrite Hall.
            unfold url_chr, non. rewrite E1, E2. reflexivity. }
    destruct Hfrag as (rest & Hf & Hall & Hstop).
    exists rest. split.
    { rewrite <- Hf. exact Hu. }
    split; [apply before_first_free|]. split; [exact Hall|].
    split; [exact Hstop|].
    set (anchor := before_first "?" (before_first "#" frag)).
    destruct (startswith anchor "BK") eqn:Es.
    + destruct anchor as [|a anchor']; [discriminate|]. reflexivity.
    + rewrite andb_false_r. reflexivity.
  - left. split; [|reflexivity].
    pose proof (before_first_free "#" url) as Hb.
    rewrite contains_chr_before in Hb by exact Ec. exact Hb.
Qed.

Lemma fetch_elaws_citation_section_witness :
  exists full_title short_title section clean_url is_regulation
         full_citation short_citation,
    fetch_elaws_citation
      (fun _ => Fetched (mkPage (Some ("Planning Act, 1990 - x" : str))
                                (fun _ => Some ("5" : str))))
      "https://www.ontario.ca/laws/statute/90p13#BK5?x=1"
    = ElawsData full_title short_title section clean_url is_regulation
                full_citation short_citation
    /\ ((all_in (non "#")
                ("https://www.ontario.ca/laws/statute/90p13#BK5?x=1" : str)
         /\ section = None)
        \/ exists before anchor rest,
             ("https://www.ontario.ca/laws/statute/90p13#BK5?x=1" : str)
             = before ++ "#" ++ anchor ++ rest
             /\ all_in (non "#") before
             /\ all_in url_chr anchor /\ stops url_chr rest
             /\ section = if startswith anchor "BK"
                          then page_section
                                 (mkPage (Some ("Planning Act, 1990 - x" : str))
                                         (fun _ => Some ("5" : str))) anchor
                          else None).
Proof.
  apply (fetch_elaws_citation_section
           (fun _ => Fetched (mkPage (Some ("Planning Act, 1990 - x" : str))
                                     (fun _ => Some ("5" : str))))
           "https://www.ontario.ca/laws/statute/90p13#BK5?x=1"
           (mkPage (Some ("Planning Act, 1990 - x" : str))
                   (fun _ => Some ("5" : str)))).
  reflexivity.
Defined.

(** ** The title readers of the AG extractor *)

(** *** Anchored substitutions *)

Lemma hd_error_flat_map {A B : Type} (f : A -> list B) (l : list A) (y : B) :
  hd_error (flat_map f l) = Some y ->
  exists x, In x l /\ hd_error (f x) = Some y.
Proof.
  induction l as [|a l IH]; cbn [flat_map]; [discriminate|].
  rewrite hd_error_app. destruct (hd_error (f a)) as [z|] eqn:E.
  - intros [= <-]. exists a. split; [left; reflexivity | exact E].
  - intros H. destruct (IH H) as (x & Hx & Hy). exists x.
    split; [right; exact Hx | exact Hy].
Qed.

(** A sequence that ends with an unbounded greedy repetition leaves no
    character of its class at the head of the rest. *)
Lemma hd_Seq_greedy_end (p : ascii -> bool) (lo : nat) (rs : list regex) :
  forall st e s' g,
    hd_error (matches (Seq (rs ++ [Rep p lo None true])) st) = Some (e, s', g) ->
    stops p s'.
Proof.
  induction rs as [|r rs IH]; intros [[i s] g0] e s' g; cbn [app].
  - rewrite matches_Seq_last, matches_Rep_greedy, hd_error_map, rep_greedy_hd.
    destruct (lo <=? 0 + run_length p None 0 s); [|discriminate].
    cbn [option_map fst snd]. intros [= _ <- _].
    destruct (run_split p None 0 s) as (_ & _ & [H | H]);
      [discriminate | exact H | discriminate].
  - rewrite matches_Seq_cons. intros H.
    apply hd_error_flat_map in H. destruct H as (x & _ & Hx).
    apply (IH x e s' g Hx).
Qed.

Lemma consuming_Seq (r : regex) (rs : list regex) :
  consuming r -> consuming (Seq (r :: rs)).
Proof.
  intros Hr i s g e s' g'. rewrite matches_Seq_cons. intros H.
  apply in_flat_map in H. destruct H as ([[j t] h] & H1 & H2).
  apply Hr in H1. apply matches_consumes in H2.
  destruct H2 as (w & _ & ->). lia.
Qed.

Lemma rep_greedy_min p lo hi n i s e s' :
  In (e, s') (rep_greedy p lo hi n i s) -> i + lo <= e + n.
Proof.
  revert n i. induction s as [|c s IH]; intros n i; cbn [rep_greedy].
  - cbn [app]. destruct (lo <=? n) eqn:E; [|contradiction].
    intros [[= <- _] | []]. apply Nat.leb_le in E. lia.
  - intros H. apply in_app_or in H. destruct H as [H | H].
    + destruct (p c && below hi n); [|contradiction].
      apply IH in H. lia.
    + destruct (lo <=? n) eqn:E; [|contradiction].
      destruct H as [[= <- _] | []]. apply Nat.leb_le in E. lia.
Qed.

Lemma consuming_Rep p lo hi : 1 <= lo -> consuming (Rep p lo hi true).
Proof.
  intros Hlo i s g e s' g'. rewrite matches_Rep_greedy. intros H.
  apply in_map_iff in H. destruct H as ([e0 s0] & [= <- <- _] & H).
  apply rep_greedy_min in H. cbn [fst]. lia.
Qed.

Lemma consuming_LitI (c : ascii) (w : str) : consuming (LitI (c :: w)).
Proof.
  intros i s g e s' g'. cbn [LitI]. rewrite matches_Cat. intros H.
  apply in_flat_map in H. destruct H as ([[j t] h] & H1 & H2).
  rewrite matches_Chr in H1. destruct s as [|x s]; [contradiction|].
  destruct (same_letter c x); [|contradiction].
  destruct H1 as [[= <- <- <-] | []].
  apply matches_consumes in H2. destruct H2 as (w' & _ & ->). lia.
Qed.

Lemma slice_0_0 (s : str) : slice s 0 0 = [].
Proof. reflexivity. Qed.

(** [re.sub] of an anchored pattern whose matches are not empty: the
    first match at the start is cut off, if there is one. *)
Lemma sub_anchored (rs : list regex) (s : str) :
  consuming (Seq rs) ->
  exists t w,
    sub (Seq (Bol :: rs)) s = Some t
    /\ s = w ++ t
    /\ (w = []
        \/ exists g, hd_error (matches (Seq rs) (0, s, []))
                     = Some (List.length w, t, g)).
Proof.
  intros Hc. unfold sub, finditer.
  replace (2 * List.length s + 2) with (S (S (2 * List.length s))) by lia.
  cbn [scan skipn].
  change (search_from (Seq (Bol :: rs)) s false 0 s)
    with (search (Seq (Bol :: rs)) s).
  rewrite search_Bol. unfold match_. rewrite attempt_hd, matches_Bol_Seq.
  cbn [Nat.eqb].
  match goal with
  | |- context [hd_error ?x] =>
      destruct (hd_error x) as [[[e s'] g]|] eqn:E
  end.
  - cbn [option_map fst snd m_end m_start].
    pose proof (hd_error_In _ _ E) as Hin.
    pose proof (Hc _ _ _ _ _ _ Hin) as He.
    apply matches_consumes in Hin. destruct Hin as (w & Hs & Hw).
    cbn [Nat.add] in Hw.
    replace (e =? 0) with false by (symmetry; apply Nat.eqb_neq; lia).
    rewrite search_from_Bol by lia.
    cbn [option_map sub_parts m_start m_end].
    rewrite slice_0_0, slice_to_end. cbn [app].
    exists s', w. split; [|split].
    + f_equal. rewrite Hs, Hw. apply skipn_app_length.
    + exact Hs.
    + right. exists g. rewrite <- Hw. exact E.
  - cbn [option_map sub_parts]. exists s, []. split; [|split].
    + f_equal. rewrite slice_to_end. reflexivity.
    + reflexivity.
    + left. reflexivity.
Qed.

(** The same when the pattern ends with greedy white space: what is left
    does not begin with white space if the text did not. *)
Lemma sub_anchored_space (rs : list regex) (lo : nat) (s : str) :
  consuming (Seq (rs ++ [Rep space lo None true])) ->
  stops isspace s ->
  exists t w,
    sub (Seq (Bol :: rs ++ [Rep space lo None true])) s = Some t
    /\ s = w ++ t /\ stops isspace t.
Proof.
  intros Hc Hs.
  destruct (sub_anchored (rs ++ [Rep space lo None true]) s Hc)
    as (t & w & Hsub & Hw & [-> | [g Hhd]]).
  - exists t, []. cbn [app] in Hw. subst t. auto.
  - exists t, w. split; [exact Hsub|]. split; [exact Hw|].
    apply (hd_Seq_greedy_end space lo rs _ _ _ _ Hhd).
Qed.

Lemma report_prefix_consuming :
  consuming (Seq ([Rep digit 4 (Some 4) true; Rep space 1 None true;
       Alt (Seq [LitI "Provincial"; Rep space 1 None true]) Eps;
       LitI "Auditor";
       Rep (chr_eqb "'") 0 (Some 1) true;
       Rep (same_letter "s") 0 (Some 1) true;
       Rep space 1 None true; LitI "Report:"]
       ++ [Rep space 0 None true])).
Proof. apply consuming_Seq, consuming_Rep. lia. Qed.

Lemma vfm_prefix_consuming :
  consuming (Seq ([LitI "VFM"; Rep space 1 None true;
       Rep digit 1 None true; C "."; Rep digit 2 (Some 2) true;
       Rep space 0 None true; C ":"] ++ [Rep space 0 None true])).
Proof. apply consuming_Seq. apply (consuming_LitI "V" "FM"). Qed.

Lemma number_colon_consuming :
  consuming (Seq ([Rep digit 1 None true; C "."; Rep digit 2 (Some 2) true;
       Rep space 0 None true; C ":"] ++ [Rep space 0 None true])).
Proof. apply consuming_Seq, consuming_Rep. lia. Qed.

Lemma number_space_consuming :
  consuming (Seq ([Rep digit 1 None true; C "."; Rep digit 2 (Some 2) true]
                    ++ [Rep space 1 None true])).
Proof. apply consuming_Seq, consuming_Rep. lia. Qed.

(** The four prefix removals on a trimmed title. *)
Lemma clean_title (title : str) :
  trimmed title ->
  exists t1 t2 t3 t4 removed,
    sub report_prefix_pattern title = Some t1
    /\ sub vfm_prefix_pattern t1 = Some t2
    /\ sub number_colon_pattern t2 = Some t3
    /\ sub number_space_pattern t3 = Some t4
    /\ title = removed ++ t4 /\ trimmed t4.
Proof.
  intros Ht.
  destruct (sub_anchored_space _ 0 title report_prefix_consuming (proj1 Ht))
    as (t1 & w1 & H1 & E1 & S1).
  destruct (sub_anchored_space _ 0 t1 vfm_prefix_consuming S1)
    as (t2 & w2 & H2 & E2 & S2).
  destruct (sub_anchored_space _ 0 t2 number_colon_consuming S2)
    as (t3 & w3 & H3 & E3 & S3).
  destruct (sub_anchored_space _ 1 t3 number_space_consuming S3)
    as (t4 & w4 & H4 & E4 & S4).
  exists t1, t2, t3, t4, (w1 ++ w2 ++ w3 ++ w4).
  split; [exact H1|]. split; [exact H2|]. split; [exact H3|].
  split; [exact H4|].
  assert (E : title = (w1 ++ w2 ++ w3 ++ w4) ++ t4).
  { rewrite E1, E2, E3, E4 at 1. rewrite <- !app_assoc. reflexivity. }
  split; [exact E|].
  apply (suffix_trimmed (w1 ++ w2 ++ w3 ++ w4)); [rewrite <- E; exact Ht|].
  exact S4.
Qed.


(** *** Headings *)

Lemma first_heading_title_spec (soup : html_page) (tags : list tag)
      (title : str) :
  first_heading_title soup tags = Some title ->
  title <> [] /\ trimmed title /\ ~ occurs "Auditor General" title
  /\ exists t heading_text,
       In t tags /\ find_heading soup t = Some heading_text
       /\ title = strip heading_text.
Proof.
  induction tags as [|t tags IH]; cbn [first_heading_title]; [discriminate|].
  assert (Hrec : first_heading_title soup tags = Some title ->
                 title <> [] /\ trimmed title
                 /\ ~ occurs "Auditor General" title
                 /\ exists t0 heading_text,
                      In t0 (t :: tags)
                      /\ find_heading soup t0 = Some heading_text
                      /\ title = strip heading_text).
  { intros H. destruct (IH H) as (H1 & H2 & H3 & t0 & h & H4 & H5 & H6).
    split; [exact H1|]. split; [exact H2|]. split; [exact H3|].
    exists t0, h. split; [right; exact H4|]. split; [exact H5 | exact H6]. }
  destruct (find_heading soup t) as [h|] eqn:Eh; [|exact Hrec].
  destruct (truthy (Some (strip h))) eqn:Et; [|exact Hrec].
  destruct (contains (strip h) "Office of the Auditor General");
    cbn [negb andb]; [exact Hrec|].
  destruct (contains (strip h) "Auditor General") eqn:Ec;
    cbn [negb]; [exact Hrec|].
  intros [= <-]. split; [apply truthy_nonempty, Et|].
  split; [apply strip_trimmed|]. split.
  - intros Ho. apply contains_occurs in Ho. rewrite Ho in Ec. discriminate.
  - exists t, h. split; [left; reflexivity|]. split; [exact Eh | reflexivity].
Qed.

(** X6: a title returned by the HTML reader is a trimmed, non-empty
    heading text that does not name the Office of the Auditor General;
    when it comes from the first [h1], [h2] or [h3] it does not even
    hold [Auditor General], which only a heading of the content area
    may. *)
Theorem extract_title_from_html_title
        (read_html : str -> html_read) (url title : str) :
  extract_title_from_html read_html url = Some title ->
  title <> [] /\ trimmed title
  /\ ~ occurs "Office of the Auditor General" title
  /\ exists soup heading_text,
       read_html url = HtmlPage soup
       /\ title = strip heading_text
       /\ ((exists t, find_heading soup t = Some heading_text)
           /\ ~ occurs "Auditor General" title
           \/ find_content_area soup = Some (Some heading_text)
              /\ first_heading_title soup [h1; h2; h3] = None).
Proof.
  unfold extract_title_from_html.
  destruct (read_html url) as [|soup]; [discriminate|].
  destruct (first_heading_title soup [h1; h2; h3]) as [t|] eqn:E.
  - intros [= <-]. apply first_heading_title_spec in E.
    destruct E as (H1 & H2 & H3 & tg & h & _ & H5 & H6).
    split; [exact H1|]. split; [exact H2|]. split.
    + intros (pre & suf & Ho). apply H3.
      exists (pre ++ "Office of the "), suf. rewrite Ho.
      cbv [list_ascii_of_string]. rewrite <- !app_assoc. reflexivity.
    + exists soup, h. split; [reflexivity|]. split; [exact H6|].
      left. split; [exists tg; exact H5 | exact H3].
  - destruct (find_content_area soup) as [[h|]|] eqn:Ea; try discriminate.
    destruct (truthy (Some (strip h))) eqn:Et; [|discriminate].
    destruct (contains (strip h) "Office of the Auditor General") eqn:Ec;
      cbn [negb]; [discriminate|].
    intros [= <-]. split; [apply truthy_nonempty, Et|].
    split; [apply strip_trimmed|]. split.
    + intros Ho. apply contains_occurs in Ho. rewrite Ho in Ec. discriminate.
    + exists soup, h. split; [reflexivity|]. split; [reflexivity|].
      right. split; [exact Ea | exact E].
Qed.

Lemma extract_title_from_html_title_witness :
  ("Land Tribunal" : str) <> [] /\ trimmed "Land Tribunal"
  /\ ~ occurs "Office of the Auditor General" "Land Tribunal"
  /\ exists soup heading_text,
       (fun _ : str =>
          HtmlPage (mkHtml (fun t => match t with
                                     | h1 => Some ("Auditor General" : str)
                                     | h2 => Some (" Land Tribunal " : str)
                                     | h3 => None
                                     end) None)) ("u" : str)
       = HtmlPage soup
       /\ ("Land Tribunal" : str) = strip heading_text
       /\ ((exists t, find_heading soup t = Some heading_text)
           /\ ~ occurs "Auditor General" "Land Tribunal"
           \/ find_content_area soup = Some (Some heading_text)
              /\ first_heading_title soup [h1; h2; h3] = None).
Proof.
  apply (extract_title_from_html_title
           (fun _ : str =>
              HtmlPage (mkHtml (fun t => match t with
                                         | h1 => Some ("Auditor General" : str)
                                         | h2 => Some (" Land Tribunal " : str)
                                         | h3 => None
                                         end) None))
           "u" "Land Tribunal").
  vm_compute. reflexivity.
Defined.

(** ** The year as a number *)

Lemma expand_year_digits (ds : str) :
  all_in digit ds -> 2 <= List.length ds <= 4 ->
  all_in digit (expand_year ds)
  /\ (List.length (expand_year ds) = 3 \/ List.length (expand_year ds) = 4).
Proof.
  intros Hd Hl.
  destruct ds as [|a [|b [|c [|d [|x ds]]]]]; cbn [List.length] in Hl;
    try lia.
  - unfold expand_year.
    destruct (50 <=? 10 * digit_value a + digit_value b);
      (split; [|right; reflexivity]);
      apply all_in_app; split; try exact Hd; reflexivity.
  - split; [exact Hd | left; reflexivity].
  - split; [exact Hd | right; reflexivity].
Qed.

Lemma extract_year_from_url_year_digits (url year : str) :
  extract_year_from_url url = Some year ->
  all_in digit year /\ (List.length year = 3 \/ List.length year = 4).
Proof.
  intros H. pose proof (extract_year_from_url_year_spec url) as Hspec.
  rewrite H in Hspec.
  inversion Hspec as [pre t ds Hleft Htok Heq|pre t y Hno Hleft Hbare Heq|];
    subst.
  - destruct Htok as (tok & rest & _ & _ & Hd & Hl & _).
    apply expand_year_digits; assumption.
  - destruct Hbare as (c & d & rest & _ & Hy & Hc & Hd).
    destruct Hy as [-> | ->]; cbv [list_ascii_of_string]; cbn [app];
      (split; [|right; reflexivity]);
      unfold all_in; cbn [forallb]; rewrite Hc, Hd; reflexivity.
Qed.

(** X7: a year derived from the URL is a string of three or four decimal
    digits, never of two; so it is never an empty string and the AG
    extractor does not report a missing year for that URL. *)
Theorem extract_year_from_url_digits (url year : str) :
  extract_year_from_url url = Some year ->
  all_in digit year
  /\ (List.length year = 3 \/ List.length year = 4)
  /\ forall extract_title_from_pdf_metadata extract_title_from_html,
       fetch_ag_citation extract_title_from_pdf_metadata
                         extract_title_from_html url
       <> (None, Some ("Could not extract year" : str)).
Proof.
  intros H.
  destruct (extract_year_from_url_year_digits url year H) as [Hd Hl].
  split; [exact Hd|]. split; [exact Hl|].
  intros pdf html. unfold fetch_ag_citation. rewrite H.
  replace (truthy (Some year)) with true
    by (destruct year; [cbn in Hl; lia | reflexivity]).
  cbn [negb].
  destruct (extract_chapter_section_from_filename _) as [chapter section].
  destruct (is_pdf_url url).
  - destruct (negb (truthy (pdf url))); [discriminate|].
    destruct (truthy chapter && truthy section);
      [|destruct (truthy chapter)]; discriminate.
  - destruct (negb (truthy (html url))); discriminate.
Qed.

Lemma extract_year_from_url_digits_witness :
  all_in digit "2018"
  /\ (List.length ("2018" : str) = 3 \/ List.length ("2018" : str) = 4)
  /\ forall extract_title_from_pdf_metadata extract_title_from_html,
       fetch_ag_citation extract_title_from_pdf_metadata
                         extract_title_from_html
         "https://www.auditor.on.ca/en/content/annualreports/arreports/en18/v1_306en18.pdf"
       <> (None, Some ("Could not extract year" : str)).
Proof.
  apply (extract_year_from_url_digits
           "https://www.auditor.on.ca/en/content/annualreports/arreports/en18/v1_306en18.pdf"
           "2018").
  vm_compute. reflexivity.
Defined.

(** ** The text of an AG citation *)

Lemma one_line_lit_app (a b : str) : one_line a -> one_line b -> one_line (a ++ b).
Proof. intros. apply all_in_app. split; assumption. Qed.

Lemma extract_year_from_url_all_in p (url y : str) :
  all_in p url -> all_in p "19" -> all_in p "20" ->
  extract_year_from_url url = Some y -> all_in p y.
Proof.
  intros Hu H19 H20. unfold extract_year_from_url.
  destruct (search year_pattern url) as [m|] eqn:E.
  - apply search_string in E.
    assert (H : all_in p (text (group m 1)))
      by (apply all_in_group; rewrite E; exact Hu).
    set (year := text (group m 1)) in *. clearbody year.
    destruct (List.length year =? 2);
      [destruct (50 <=? int_of_digits year)|]; intros [= <-].
    + change (all_in p (("19" : str) ++ year)).
      apply all_in_app; split; assumption.
    + change (all_in p (("20" : str) ++ year)).
      apply all_in_app; split; assumption.
    + exact H.
  - destruct (search bare_year_pattern url) as [m|] eqn:E'; [|discriminate].
    apply search_string in E'. intros [= <-].
    apply (all_in_group p m 0). rewrite E'. exact Hu.
Qed.

Lemma chapter_section_all_in p (m : Match) :
  all_in p (m_string m) -> p "."%char = true ->
  all_in p (text (fst (chapter_section m)))
  /\ all_in p (text (snd (chapter_section m))).
Proof.
  intros Hm Hdot. unfold chapter_section.
  pose proof (all_in_group p m 1 Hm) as H1.
  pose proof (all_in_group p m 2 Hm) as H2.
  destruct (negb (eqb (text (group m 2)) "00")); cbn [fst snd text].
  - split; [exact H1|]. apply all_in_app. split; [exact H1|].
    apply all_in_app. split; [|exact H2].
    unfold all_in. cbv [list_ascii_of_string]. cbn [forallb].
    rewrite Hdot. reflexivity.
  - split; [exact H1 | reflexivity].
Qed.

Lemma extract_chapter_section_all_in p (filename : str) :
  all_in p filename -> p "."%char = true ->
  all_in p (text (fst (extract_chapter_section_from_filename filename)))
  /\ all_in p (text (snd (extract_chapter_section_from_filename filename))).
Proof.
  intros Hf Hdot. unfold extract_chapter_section_from_filename.
  destruct (search volume_pattern filename) as [m|] eqn:E.
  - apply search_string in E. apply chapter_section_all_in; [|exact Hdot].
    rewrite E. exact Hf.
  - destruct (search leading_pattern filename) as [m|] eqn:E'.
    + apply search_string in E'. apply chapter_section_all_in; [|exact Hdot].
      rewrite E'. exact Hf.
    + split; reflexivity.
Qed.

(** The citation of the AG extractor has no line feed when the URL has
    none. *)
Lemma fetch_ag_citation_one_line pdf html (url c : str) e :
  one_line url ->
  fetch_ag_citation pdf html url = (Some c, e) -> one_line c.
Proof.
  intros Hu. unfold fetch_ag_citation.
  destruct (extract_year_from_url url) as [y|] eqn:Ey;
    [|cbn; discriminate].
  assert (Hy : one_line y).
  { apply (extract_year_from_url_all_in dot url y Hu);
      [reflexivity | reflexivity | exact Ey]. }
  destruct (negb (truthy (Some y))); [discriminate|].
  assert (Hfile : one_line (last (split_chr "/" url) []))
    by (apply last_piece_all_in; [exact Hu | reflexivity]).
  destruct (extract_chapter_section_all_in dot _ Hfile eq_refl)
    as [Hch Hsec].
  destruct (extract_chapter_section_from_filename
              (last (split_chr "/" url) [])) as [chapter section].
  cbn [fst snd] in Hch, Hsec. cbn [text].
  pose proof (normalised_one_line (text (pdf url))) as Hp.
  pose proof (normalised_one_line (text (html url))) as Hh.
  destruct (is_pdf_url url).
  - destruct (negb (truthy (pdf url))); [discriminate|].
    destruct (truthy chapter && truthy section);
      [|destruct (truthy chapter)];
      intros [= <- _];
      repeat (apply one_line_lit_app; try assumption; try reflexivity).
  - destruct (negb (truthy (html url))); [discriminate|].
    intros [= <- _];
      repeat (apply one_line_lit_app; try assumption; try reflexivity).
Qed.

Lemma fetch_ag_citation_result pdf html (url : str) :
  (exists c, fetch_ag_citation pdf html url = (Some c, None))
  \/ (exists e, e <> [] /\ fetch_ag_citation pdf html url = (None, Some e)).
Proof.
  unfold fetch_ag_citation.
  destruct (negb (truthy (extract_year_from_url url))).
  { right. eexists. split; [|reflexivity]. discriminate. }
  destruct (extract_chapter_section_from_filename _) as [chapter section].
  destruct (is_pdf_url url).
  - destruct (negb (truthy (pdf url))).
    { right. eexists. split; [|reflexivity]. discriminate. }
    left. destruct (truthy chapter && truthy section);
      [|destruct (truthy chapter)]; eexists; reflexivity.
  - destruct (negb (truthy (html url))).
    { right. eexists. split; [|reflexivity]. discriminate. }
    left. eexists; reflexivity.
Qed.

Lemma extract_chapter_section_cases (filename : str) :
  (exists c ss,
      digit c = true /\ all_in digit ss
      /\ extract_chapter_section_from_filename filename
         = chapter_section_of c ss)
  \/ extract_chapter_section_from_filename filename = (None, None).
Proof.
  unfold extract_chapter_section_from_filename.
  destruct (search volume_pattern filename) as [m|] eqn:E.
  - apply (search_leftmost _ has_volume_token) in E; [|exact volume_some].
    destruct E as (pre & t & Hleft & Hatt).
    apply volume_attempt in Hatt. destruct Hatt as (c & ss & Ht & H1 & H2).
    rewrite (chapter_section_groups m c ss H1 H2).
    destruct Ht as (ds & rest & _ & _ & _ & Hc & Hss & _).
    left. exists c, ss. auto.
  - assert (Hs : search leading_pattern filename
                 = match_ leading_pattern filename)
      by (unfold leading_pattern; apply search_Bol).
    rewrite !Hs.
    destruct (match_ leading_pattern filename) as [m|] eqn:E'.
    + apply leading_attempt in E'. destruct E' as (c & ss & Ht & H1 & H2).
      rewrite (chapter_section_groups m c ss H1 H2).
      destruct Ht as (d1 & d2 & rest & _ & Hc & Hss & _).
      left. exists c, ss. auto.
    + right. reflexivity.
Qed.

Lemma digit_plain (c : ascii) : digit c = true -> plain_chr c = true.
Proof.
  intros H. unfold plain_chr, non.
  destruct (chr_eqb c "[") eqn:E1;
    [apply chr_eqb_eq in E1; subst c; discriminate|].
  destruct (chr_eqb c "*") eqn:E2;
    [apply chr_eqb_eq in E2; subst c; discriminate|].
  destruct (chr_eqb c "_") eqn:E3;
    [apply chr_eqb_eq in E3; subst c; discriminate|].
  reflexivity.
Qed.

Lemma all_in_digit_plain (s : str) : all_in digit s -> all_in plain_chr s.
Proof. apply all_in_weaken, digit_plain. Qed.

Lemma digits_one_line (s : str) : all_in digit s -> one_line s.
Proof.
  apply all_in_weaken. intros c H. unfold dot.
  destruct (chr_eqb c "010") eqn:E; [|reflexivity].
  apply chr_eqb_eq in E. subst c. discriminate.
Qed.

Lemma digits_no_star (s : str) : all_in digit s -> all_in (non "*") s.
Proof.
  apply all_in_weaken. intros c H. unfold non.
  destruct (chr_eqb c "*") eqn:E; [|reflexivity].
  apply chr_eqb_eq in E. subst c. discriminate.
Qed.

Ltac plain_text :=
  repeat first
    [ assumption
    | reflexivity
    | apply all_in_app; split
    | apply all_in_cons ].

(** The shape of an AG citation: plain text, the link, plain text, the
    italic year phrase, a full stop. *)
Lemma fetch_ag_citation_markdown pdf html (url citation : str) error :
  fetch_ag_citation pdf html url = (Some citation, error) ->
  exists year after,
    extract_year_from_url url = Some year
    /\ all_in plain_chr after
    /\ citation
       = markdown (org_name ++ ", " ++ dquote)
           [(Link (ag_link_text pdf html url) url, after);
            (Italic "*" (year ++ " Annual Report"), ("." : str))].
Proof.
  unfold fetch_ag_citation, ag_link_text.
  destruct (extract_year_from_url url) as [year|] eqn:Ey;
    [|cbn; discriminate].
  destruct (negb (truthy (Some year))); [discriminate|].
  cbn [text].
  destruct (extract_chapter_section_cases (last (split_chr "/" url) []))
    as [(c & ss & Hc & Hss & ->) | ->].
  - unfold chapter_section_of. apply digit_plain in Hc.
    apply all_in_digit_plain in Hss.
    destruct (is_pdf_url url).
    + destruct (negb (truthy (pdf url))); [discriminate|].
      destruct (eqb ss "00"); cbn [truthy andb text]; intros [= <- _].
      * exists year, (dquote ++ ", Chapter " ++ [c] ++ ", ").
        split; [reflexivity|]. split.
        { unfold dquote. cbv [list_ascii_of_string]. cbn [app].
          plain_text. }
        cbn [markdown token_text]. unfold dquote.
        cbv [list_ascii_of_string]. cbn [app].
        repeat (rewrite <- app_assoc; cbn [app]). reflexivity.
      * exists year, (dquote ++ ", Chapter " ++ [c] ++ ", Section "
                             ++ ([c] ++ "." ++ ss) ++ ", ").
        split; [reflexivity|]. split.
        { unfold dquote. cbv [list_ascii_of_string]. cbn [app].
          plain_text. }
        cbn [markdown token_text]. unfold dquote.
        cbv [list_ascii_of_string]. cbn [app].
        repeat (rewrite <- app_assoc; cbn [app]). reflexivity.
    + destruct (negb (truthy (html url))); [discriminate|].
      intros [= <- _]. exists year, (dquote ++ ", ").
      split; [reflexivity|]. split; [reflexivity|].
      cbn [markdown token_text]. unfold dquote.
      cbv [list_ascii_of_string]. cbn [app].
      repeat (rewrite <- app_assoc; cbn [app]). reflexivity.
  - destruct (is_pdf_url url).
    + destruct (negb (truthy (pdf url))); [discriminate|].
      cbn [truthy andb]. intros [= <- _]. exists year, (dquote ++ ", ").
      split; [reflexivity|]. split; [reflexivity|].
      cbn [markdown token_text]. unfold dquote.
      cbv [list_ascii_of_string]. cbn [app].
      repeat (rewrite <- app_assoc; cbn [app]). reflexivity.
    + destruct (negb (truthy (html url))); [discriminate|].
      intros [= <- _]. exists year, (dquote ++ ", ").
      split; [reflexivity|]. split; [reflexivity|].
      cbn [markdown token_text]. unfold dquote.
      cbv [list_ascii_of_string]. cbn [app].
      repeat (rewrite <- app_assoc; cbn [app]). reflexivity.
Qed.

(** X8: the link text of an AG citation is made of the words of the
    title (its maximal runs of characters that are not white space, in
    order) joined by single spaces, so it has no line break, no tab and
    no white space at its ends; splitting it again gives the same
    words. *)
Theorem fetch_ag_citation_link_text
        (extract_title_from_pdf_metadata extract_title_from_html
           : str -> option str)
        (url citation : str) (error : option str) :
  fetch_ag_citation extract_title_from_pdf_metadata extract_title_from_html
                    url = (Some citation, error) ->
  exists title words after,
    (if is_pdf_url url then extract_title_from_pdf_metadata url
     else extract_title_from_html url) = Some title
    /\ words = split_ws title
    /\ Forall word words
    /\ List.concat words = filter (fun c => negb (isspace c)) title
    /\ split_ws (join " " words) = words
    /\ citation = org_name ++ ", " ++ dquote ++ "[" ++ join " " words
                  ++ "](" ++ url ++ ")" ++ after.
Proof.
  intros H.
  destruct (fetch_ag_citation_markdown _ _ _ _ _ H)
    as (year & after & Hy & Ha & ->).
  assert (Ht : exists title,
             (if is_pdf_url url then extract_title_from_pdf_metadata url
              else extract_title_from_html url) = Some title).
  { unfold fetch_ag_citation in H. rewrite Hy in H.
    destruct (negb (truthy (Some year))); [discriminate|].
    destruct (extract_chapter_section_from_filename _) as [ch sec].
    destruct (is_pdf_url url).
    - destruct (extract_title_from_pdf_metadata url) as [t|];
        [exists t; reflexivity | discriminate].
    - destruct (extract_title_from_html url) as [t|];
        [exists t; reflexivity | discriminate]. }
  destruct Ht as [title Ht].
  exists title, (split_ws title),
         (after ++ "*" ++ (year ++ " Annual Report") ++ "*.").
  split; [exact Ht|]. split; [reflexivity|].
  split; [apply split_ws_words|]. split.
  { unfold split_ws. rewrite split_ws_aux_concat. reflexivity. }
  split; [apply split_ws_join, split_ws_words|].
  unfold ag_link_text. rewrite Ht. cbn [text markdown token_text].
  cbv [list_ascii_of_string]. cbn [app].
  repeat (rewrite <- app_assoc; cbn [app]). reflexivity.
Qed.

Lemma fetch_ag_citation_link_text_witness :
  exists title words after,
    (if is_pdf_url "https://www.auditor.on.ca/en24/AR_en24.html"
     then (fun _ : str => None) "https://www.auditor.on.ca/en24/AR_en24.html"
     else (fun _ : str => Some (" Land   Tribunal " : str))
            "https://www.auditor.on.ca/en24/AR_en24.html") = Some title
    /\ words = split_ws title
    /\ Forall word words
    /\ List.concat words = filter (fun c => negb (isspace c)) title
    /\ split_ws (join " " words) = words
    /\ (org_name ++ ", " ++ dquote
        ++ "[Land Tribunal](https://www.auditor.on.ca/en24/AR_en24.html)"
        ++ dquote ++ ", *2024 Annual Report*.")
       = org_name ++ ", " ++ dquote ++ "[" ++ join " " words
         ++ "](" ++ "https://www.auditor.on.ca/en24/AR_en24.html" ++ ")"
         ++ after.
Proof.
  apply (fetch_ag_citation_link_text
           (fun _ => None) (fun _ => Some (" Land   Tribunal " : str))
           "https://www.auditor.on.ca/en24/AR_en24.html"
           (org_name ++ ", " ++ dquote
            ++ "[Land Tribunal](https://www.auditor.on.ca/en24/AR_en24.html)"
            ++ dquote ++ ", *2024 Annual Report*.")
           None).
  vm_compute. reflexivity.
Defined.

(** ** The renderer on well-written markup *)

(** *** Lazy repetitions *)

Lemma hd_error_app_nonempty {A : Type} (l1 l2 : list A) :
  l1 <> [] -> hd_error (l1 ++ l2) = hd_error l1.
Proof. destruct l1; [contradiction | reflexivity]. Qed.

Lemma hd_error_nonempty {A : Type} (l : list A) (x : A) :
  hd_error l = Some x -> l <> [].
Proof. destruct l; [discriminate | discriminate]. Qed.

(** A lazy repetition hands over at the first place where what follows
    succeeds. *)
Lemma rep_lazy_until {X : Type} (f : nat * str -> list X)
      (p : ascii -> bool) (n i : nat) (w rest : str) :
  all_in p w ->
  (forall k, k < List.length w -> f (i + k, skipn k w ++ rest) = []) ->
  f (i + List.length w, rest) <> [] ->
  hd_error (flat_map f (rep_lazy p 0 None n i (w ++ rest)))
  = hd_error (f (i + List.length w, rest)).
Proof.
  unfold all_in. revert n i.
  induction w as [|c w IH]; intros n i Hw Hearly Hlast.
  - cbn [app List.length] in *. rewrite Nat.add_0_r in *.
    destruct rest; cbn [rep_lazy Nat.leb app flat_map];
      apply hd_error_app_nonempty, Hlast.
  - cbn [forallb] in Hw. apply andb_true_iff in Hw. destruct Hw as [Hc Hw].
    cbn [app rep_lazy Nat.leb below flat_map List.length]. rewrite Hc.
    cbn [andb].
    pose proof (Hearly 0 ltac:(cbn; lia)) as H0.
    cbn [skipn app] in H0. rewrite Nat.add_0_r in H0.
    unfold str in *. rewrite H0.
    cbn [app]. cbn [List.length] in Hlast.
    replace (i + S (List.length w)) with (S i + List.length w) in * by lia.
    apply IH; [exact Hw| |exact Hlast].
    intros k Hk. specialize (Hearly (S k) ltac:(cbn; lia)).
    cbn [skipn] in Hearly.
    replace (i + S k) with (S i + k) in Hearly by lia. exact Hearly.
Qed.

Lemma skipn_nth_cons (b : ascii) (w rest : str) (k : nat) :
  all_in (non b) w -> k < List.length w ->
  exists c s', skipn k w ++ rest = c :: s' /\ chr_eqb b c = false.
Proof.
  unfold all_in. revert k. induction w as [|c w IH]; intros k Hw Hk.
  - cbn in Hk. lia.
  - cbn [forallb] in Hw. apply andb_true_iff in Hw. destruct Hw as [Hc Hw].
    destruct k as [|k].
    + exists c, (w ++ rest). split; [reflexivity|].
      apply non_not_chr, Hc.
    + cbn [skipn]. apply IH; [exact Hw | cbn in Hk; lia].
Qed.

Lemma matches_Seq_C_cons (c x : ascii) (rs : list regex) (i : nat)
      (s : str) (g : marks) :
  matches (Seq (C c :: rs)) (i, x :: s, g)
  = if chr_eqb c x then matches (Seq rs) (S i, s, g) else [].
Proof.
  rewrite matches_Seq_cons, matches_C.
  destruct (chr_eqb c x); [apply flat_map_single | reflexivity].
Qed.

(** [.*?] followed by a literal character [b]: the text up to the first
    [b], when what follows [b] succeeds there. *)
Lemma matches_Seq_lazy_C (b : ascii) (rs : list regex) (i : nat)
      (w rest : str) (g : marks) :
  all_in dot w -> all_in (non b) w ->
  matches (Seq rs) (S (i + List.length w), rest, g) <> [] ->
  hd_error (matches (Seq (lazy_dots :: C b :: rs)) (i, w ++ b :: rest, g))
  = hd_error (matches (Seq rs) (S (i + List.length w), rest, g)).
Proof.
  intros Hw Hb Hlast.
  rewrite matches_Seq_cons. unfold lazy_dots at 1. cbn [matches].
  rewrite flat_map_map_compose.
  rewrite (rep_lazy_until
             (fun x => matches (Seq (C b :: rs)) (fst x, snd x, g))
             dot 0 i w (b :: rest) Hw).
  - cbn [fst snd]. rewrite matches_Seq_C_cons, chr_eqb_refl. reflexivity.
  - intros k Hk. cbn [fst snd].
    destruct (skipn_nth_cons b w (b :: rest) k Hb Hk) as (c & s' & -> & Hc).
    rewrite matches_Seq_C_cons, Hc. reflexivity.
  - cbn [fst snd]. rewrite matches_Seq_C_cons, chr_eqb_refl. exact Hlast.
Qed.

(** The same with the repetition as group 1. *)
Lemma matches_Seq_lazy_group_C (b : ascii) (rs : list regex) (i : nat)
      (w rest : str) (g : marks) :
  all_in dot w -> all_in (non b) w ->
  matches (Seq rs) (S (i + List.length w), rest,
                    (1, (i, i + List.length w)) :: g) <> [] ->
  hd_error (matches (Seq (Grp 1 lazy_dots :: C b :: rs)) (i, w ++ b :: rest, g))
  = hd_error (matches (Seq rs) (S (i + List.length w), rest,
                                (1, (i, i + List.length w)) :: g)).
Proof.
  intros Hw Hb Hlast.
  rewrite matches_Seq_cons, matches_Grp. unfold lazy_dots at 1.
  cbn [matches]. rewrite !flat_map_map_compose.
  rewrite (rep_lazy_until
             (fun x => matches (Seq (C b :: rs))
                         (fst x, snd x, (1, (i, fst x)) :: g))
             dot 0 i w (b :: rest) Hw).
  - cbn [fst snd]. rewrite matches_Seq_C_cons, chr_eqb_refl. reflexivity.
  - intros k Hk. cbn [fst snd].
    destruct (skipn_nth_cons b w (b :: rest) k Hb Hk) as (c & s' & -> & Hc).
    rewrite matches_Seq_C_cons, Hc. reflexivity.
  - cbn [fst snd]. rewrite matches_Seq_C_cons, chr_eqb_refl. exact Hlast.
Qed.

(** A bracketed text: [a], the text up to the first [b], [b]. *)
Lemma bracket_hd (a b : ascii) (i : nat) (w rest : str) (g : marks) :
  all_in dot w -> all_in (non b) w ->
  hd_error (matches (Seq [C a; Grp 1 lazy_dots; C b])
                    (i, a :: w ++ b :: rest, g))
  = Some (S (S i + List.length w), rest,
          (1, (S i, S i + List.length w)) :: g).
Proof.
  intros Hw Hb. rewrite matches_Seq_C_cons, chr_eqb_refl.
  rewrite matches_Seq_lazy_group_C by
      (try assumption; rewrite matches_Seq_nil; discriminate).
  rewrite matches_Seq_nil. reflexivity.
Qed.

(** *** The first match of a search *)

(** Searching goes over the characters that the pattern cannot start
    with. *)
Lemma search_from_skip (r : regex) (whole : str) (i : nat) (pre t : str) :
  (forall c, In c pre -> forall j s', matches r (j, c :: s', []) = []) ->
  search_from r whole false i (pre ++ t)
  = search_from r whole false (i + List.length pre) t.
Proof.
  revert i. induction pre as [|c pre IH]; intros i H.
  - cbn. rewrite Nat.add_0_r. reflexivity.
  - cbn [app search_from]. rewrite attempt_false.
    rewrite (H c (or_introl eq_refl)).
    rewrite IH by (intros; apply H; right; assumption).
    cbn [List.length]. f_equal. lia.
Qed.

Lemma search_from_here (r : regex) (whole : str) (i : nat) (t : str)
      (e : nat) (s' : str) (g : marks) :
  hd_error (matches r (i, t, [])) = Some (e, s', g) ->
  search_from r whole false i t = Some (mkMatch whole i e g).
Proof.
  intros H.
  assert (Ha : attempt r whole false i t = Some (mkMatch whole i e g)).
  { rewrite attempt_hd, H. reflexivity. }
  destruct t; cbn [search_from]; rewrite Ha; reflexivity.
Qed.

(** The first element of [findall] is group 1 of the first match. *)
Lemma findall_first (r : regex) (s : str) (m : Match) (x : str):
  search r s = Some m -> group m 1 = Some x ->
  exists l, findall r s = Some (x :: l).
Proof.
  intros Hs Hg. unfold findall.
  destruct (finditer_total r s) as [ms Hms]. rewrite Hms.
  unfold finditer in Hms.
  replace (2 * List.length s + 2) with (S (2 * List.length s + 1)) in Hms
    by lia.
  cbn [scan skipn] in Hms. unfold search in Hs. rewrite Hs in Hms.
  destruct (scan _ r s (m_end m) _) as [ms'|]; [|discriminate].
  cbn in Hms. injection Hms as <-. cbn [option_map map]. rewrite Hg.
  eexists. reflexivity.
Qed.

(** [re.findall] of a bracket pattern: the first text is the one between
    the first opening character and the next closing one. *)
Lemma findall_bracket (a b : ascii) (s pre w rest : str) :
  s = pre ++ a :: w ++ b :: rest ->
  all_in (non a) pre -> all_in dot w -> all_in (non b) w ->
  exists l, findall (Seq [C a; Grp 1 lazy_dots; C b]) s = Some (w :: l).
Proof.
  intros Hs Hpre Hw Hb.
  pose proof (bracket_hd a b (List.length pre) w rest [] Hw Hb) as Hhd.
  apply (search_from_here _ s) in Hhd.
  eapply (findall_first _ s).
  - unfold search. rewrite Hs at 2. rewrite search_from_skip; [exact Hhd|].
    intros c Hc j s'. rewrite matches_Seq_C_cons.
    replace (chr_eqb a c) with false; [reflexivity|].
    symmetry. apply non_not_chr.
    unfold all_in in Hpre. rewrite forallb_forall in Hpre. apply Hpre, Hc.
  - rewrite group_1_slice. rewrite Hs.
    change (pre ++ a :: w ++ b :: rest)
      with (pre ++ [a] ++ w ++ b :: rest).
    rewrite app_assoc.
    replace (S (List.length pre)) with (List.length (pre ++ [a]))
      by (rewrite length_app; cbn; lia).
    rewrite slice_middle. reflexivity.
Qed.



(** *** Tokens *)

Lemma scan_more (r : regex) (whole : str) (fuel : nat) :
  forall pos adv ms fuel',
    scan fuel r whole pos adv = Some ms -> fuel <= fuel' ->
    scan fuel' r whole pos adv = Some ms.
Proof.
  induction fuel as [|fuel IH]; intros pos adv ms fuel' H Hle;
    [discriminate|].
  destruct fuel' as [|fuel']; [lia|]. cbn [scan] in *.
  destruct (search_from r whole adv pos (skipn pos whole)) as [m|];
    [|exact H].
  destruct (scan fuel r whole (m_end m) (m_end m =? m_start m)) as [ms'|] eqn:E;
    [|discriminate].
  rewrite (IH _ _ _ fuel' E) by lia. exact H.
Qed.

Lemma paren_hd (j : nat) (u rest : str) (g : marks) :
  one_line u -> all_in (non ")") u ->
  hd_error (matches (Seq [C "("; lazy_dots; C ")"])
                    (j, "("%char :: u ++ ")"%char :: rest, g))
  = Some (S (S j + List.length u), rest, g).
Proof.
  intros H1 H2. rewrite matches_Seq_C_cons, chr_eqb_refl.
  rewrite matches_Seq_lazy_C by
      (try assumption; rewrite matches_Seq_nil; discriminate).
  rewrite matches_Seq_nil. reflexivity.
Qed.

Lemma link_alt_hd (i : nat) (t u rest : str) (g : marks) :
  one_line t -> all_in (non "]") t -> one_line u -> all_in (non ")") u ->
  hd_error (matches (Seq [C "["; lazy_dots; C "]"; C "("; lazy_dots; C ")"])
                    (i, "["%char :: t ++ "]"%char :: "("%char
                                      :: u ++ ")"%char :: rest, g))
  = Some (i + (List.length t + List.length u + 4), rest, g).
Proof.
  intros Ht1 Ht2 Hu1 Hu2. rewrite matches_Seq_C_cons, chr_eqb_refl.
  pose proof (paren_hd (S (S i + List.length t)) u rest g Hu1 Hu2) as Hp.
  rewrite matches_Seq_lazy_C;
    [|assumption|assumption|exact (hd_error_nonempty _ _ Hp)].
  etransitivity; [exact Hp|]. do 2 f_equal. f_equal. lia.
Qed.

Lemma markup_link_hd (i : nat) (t u rest : str) :
  one_line t -> all_in (non "]") t -> one_line u -> all_in (non ")") u ->
  hd_error (matches markup_pattern (i, token_text (Link t u) ++ rest, []))
  = Some (i + List.length (token_text (Link t u)), rest,
          [(1, (i, i + List.length (token_text (Link t u))))]).
Proof.
  intros Ht1 Ht2 Hu1 Hu2.
  assert (Hlen : List.length (token_text (Link t u))
                 = List.length t + List.length u + 4).
  { cbn [token_text]. cbv [list_ascii_of_string].
    rewrite !length_app. cbn [List.length]. lia. }
  assert (Hshape : token_text (Link t u) ++ rest
                   = "["%char :: t ++ "]"%char :: "("%char
                                :: u ++ ")"%char :: rest).
  { cbn [token_text]. cbv [list_ascii_of_string]. cbn [app].
    rewrite <- !app_assoc. cbn [app]. rewrite <- !app_assoc. reflexivity. }
  rewrite Hshape, Hlen. unfold markup_pattern. rewrite matches_Grp.
  rewrite hd_error_map. unfold markup_body. rewrite matches_Alt.
  rewrite hd_error_app, link_alt_hd by assumption. reflexivity.
Qed.

Lemma markup_italic_hd (i : nat) (m : ascii) (y rest : str) :
  m = "*"%char \/ m = "_"%char -> one_line y -> all_in (non m) y ->
  hd_error (matches markup_pattern (i, token_text (Italic m y) ++ rest, []))
  = Some (i + List.length (token_text (Italic m y)), rest,
          [(1, (i, i + List.length (token_text (Italic m y))))]).
Proof.
  intros Hm Hy1 Hy2.
  assert (Hlen : List.length (token_text (Italic m y)) = List.length y + 2).
  { cbn [token_text]. rewrite !length_app. cbn [List.length]. lia. }
  assert (Hshape : token_text (Italic m y) ++ rest = m :: y ++ m :: rest).
  { cbn [token_text app]. rewrite <- !app_assoc. reflexivity. }
  rewrite Hshape, Hlen. unfold markup_pattern. rewrite matches_Grp.
  rewrite hd_error_map. unfold markup_body. rewrite !matches_Alt.
  destruct Hm as [-> | ->].
  - rewrite matches_Seq_C_cons.
    replace (chr_eqb "[" "*") with false by reflexivity. cbn [app].
    rewrite hd_error_app. rewrite matches_Seq_C_cons, chr_eqb_refl.
    rewrite matches_Seq_lazy_C by
        (try assumption; rewrite matches_Seq_nil; discriminate).
    rewrite matches_Seq_nil. cbn [hd_error option_map].
    do 2 f_equal; [f_equal; lia | do 3 f_equal; lia].
  - rewrite !matches_Seq_C_cons.
    replace (chr_eqb "[" "_") with false by reflexivity.
    replace (chr_eqb "*" "_") with false by reflexivity. cbn [app].
    rewrite chr_eqb_refl.
    rewrite matches_Seq_lazy_C by
        (try assumption; rewrite matches_Seq_nil; discriminate).
    rewrite matches_Seq_nil. cbn [hd_error option_map].
    do 2 f_equal; [f_equal; lia | do 3 f_equal; lia].
Qed.

Lemma markup_token_hd (i : nat) (k : token) (rest : str) :
  well_formed k ->
  hd_error (matches markup_pattern (i, token_text k ++ rest, []))
  = Some (i + List.length (token_text k), rest,
          [(1, (i, i + List.length (token_text k)))]).
Proof.
  destruct k as [t u|m y]; cbn [well_formed].
  - intros (H1 & H2 & _ & H3 & H4). apply markup_link_hd; assumption.
  - intros (H1 & H2 & H3). apply markup_italic_hd; assumption.
Qed.

Lemma token_text_length (k : token) : 1 <= List.length (token_text k).
Proof.
  destruct k; cbn [token_text]; cbv [list_ascii_of_string];
    rewrite length_app; cbn [List.length]; lia.
Qed.

Lemma markup_refuses (c : ascii) (j : nat) (s' : str) :
  plain_chr c = true -> matches markup_pattern (j, c :: s', []) = [].
Proof.
  unfold plain_chr. intros H. apply andb_true_iff in H. destruct H as [H H3].
  apply andb_true_iff in H. destruct H as [H1 H2].
  apply non_not_chr in H1, H2, H3.
  unfold markup_pattern. rewrite matches_Grp. unfold markup_body.
  rewrite !matches_Alt, !matches_Seq_C_cons, H1, H2, H3. reflexivity.
Qed.

Lemma markup_search_skip (whole : str) (i : nat) (pre t : str) :
  all_in plain_chr pre ->
  search_from markup_pattern whole false i (pre ++ t)
  = search_from markup_pattern whole false (i + List.length pre) t.
Proof.
  intros H. apply search_from_skip. intros c Hc j s'.
  apply markup_refuses. unfold all_in in H. rewrite forallb_forall in H.
  apply H, Hc.
Qed.

Lemma markup_search_none (whole : str) (i : nat) (pre : str) :
  all_in plain_chr pre ->
  search_from markup_pattern whole false i pre = None.
Proof.
  intros H. rewrite <- (app_nil_r pre), markup_search_skip by exact H.
  reflexivity.
Qed.

(** The scanning loop on a well-written text: one match for each token. *)
Lemma scan_markdown (whole : str) (l : list (token * str)) :
  forall (pre a0 : str),
    whole = pre ++ markdown a0 l ->
    well_written a0 l ->
    exists ms,
      scan (S (List.length l)) markup_pattern whole (List.length pre) false
      = Some ms
      /\ split_parts 1 whole (List.length pre) ms
         = map Some (markdown_parts a0 l).
Proof.
  induction l as [|[k a] l IH]; intros pre a0 Hw Hwr.
  - cbn [markdown well_written] in *. cbn [List.length scan].
    replace (skipn (List.length pre) whole) with a0
      by (rewrite Hw; symmetry; apply skipn_app_length).
    rewrite markup_search_none by exact Hwr.
    exists []. split; [reflexivity|].
    cbn [split_parts markdown_parts map]. do 2 f_equal.
    rewrite slice_to_end, Hw. apply skipn_app_length.
  - cbn [markdown well_written] in *. destruct Hwr as (Ha0 & Hk & Hrest).
    set (i := List.length pre + List.length a0).
    set (e := i + List.length (token_text k)).
    set (m := mkMatch whole i e [(1, (i, e))]).
    assert (Hs : search_from markup_pattern whole false (List.length pre)
                   (skipn (List.length pre) whole) = Some m).
    { replace (skipn (List.length pre) whole)
        with (a0 ++ token_text k ++ markdown a l)
        by (rewrite Hw; symmetry; apply skipn_app_length).
      rewrite markup_search_skip by exact Ha0. fold i.
      apply search_from_here with (s' := markdown a l).
      apply markup_token_hd, Hk. }
    destruct (IH (pre ++ a0 ++ token_text k) a) as (ms & Hscan & Hparts).
    { rewrite Hw, <- !app_assoc. reflexivity. }
    { exact Hrest. }
    assert (He : List.length (pre ++ a0 ++ token_text k) = e)
      by (unfold e, i; rewrite !length_app; lia).
    rewrite He in Hscan, Hparts.
    exists (m :: ms). split.
    + cbn [List.length]. change (scan (S (S (List.length l))) markup_pattern whole
                (List.length pre) false)
        with (match search_from markup_pattern whole false (List.length pre)
                      (skipn (List.length pre) whole) with
              | None => Some []
              | Some m0 =>
                  option_map (cons m0)
                    (scan (S (List.length l)) markup_pattern whole (m_end m0)
                          (m_end m0 =? m_start m0))
              end).
      rewrite Hs. cbn [m_end m_start m].
      replace (e =? i) with false.
      2:{ symmetry. apply Nat.eqb_neq. pose proof (token_text_length k).
          unfold e. lia. }
      rewrite Hscan. reflexivity.
    + cbn [split_parts seq map app markdown_parts m_start m_end m].
      unfold m at 1. rewrite group_1_slice. rewrite Hparts.
      f_equal; [|f_equal]; f_equal.
      * apply (slice_at whole pre a0 (token_text k ++ markdown a l));
          [exact Hw | reflexivity | reflexivity].
      * apply (slice_at whole (pre ++ a0) (token_text k) (markdown a l));
          [rewrite Hw, <- !app_assoc; reflexivity
          |unfold i; rewrite length_app; reflexivity | reflexivity].
Qed.

Lemma split_markdown (a0 : str) (l : list (token * str)) :
  well_written a0 l ->
  split markup_pattern (markdown a0 l)
  = Some (map Some (markdown_parts a0 l)).
Proof.
  intros Hwr.
  destruct (scan_markdown (markdown a0 l) l [] a0 eq_refl Hwr)
    as (ms & Hscan & Hparts).
  unfold split, finditer. cbn [List.length] in Hscan, Hparts.
  rewrite (scan_more _ _ _ _ _ _ (2 * List.length (markdown a0 l) + 2) Hscan).
  - change (groups markup_pattern) with 1. cbn [option_map]. f_equal.
    exact Hparts.
  - assert (H : List.length l <= List.length (markdown a0 l)).
    { clear. revert a0. induction l as [|[k a] l IH]; intros a0;
        cbn [List.length markdown]; [lia|].
      rewrite !length_app. pose proof (token_text_length k).
      specialize (IH a). lia. }
    lia.
Qed.

Lemma render_part_plain (a : str) :
  all_in plain_chr a -> render_part (Some a) = Returns (text_run a).
Proof.
  destruct a as [|x a]; [reflexivity|].
  unfold all_in. cbn [forallb]. intros H. apply andb_true_iff in H.
  destruct H as [H _]. unfold plain_chr in H.
  apply andb_true_iff in H. destruct H as [H H3].
  apply andb_true_iff in H. destruct H as [H1 H2].
  apply non_not_chr in H1, H2, H3.
  unfold render_part. cbn [truthy negb text].
  cbv [list_ascii_of_string]. cbn [startswith]. rewrite H1, H2, H3.
  reflexivity.
Qed.

Lemma render_part_italic (m : ascii) (y : str) :
  m = "*"%char \/ m = "_"%char ->
  render_part (Some (token_text (Italic m y))) = Returns [Run true y].
Proof.
  intros Hm. unfold render_part. cbn [token_text].
  set (part := [m] ++ y ++ [m]).
  assert (Hlen : List.length part = S (List.length y + 1))
    by (unfold part; rewrite !length_app; cbn [List.length]; lia).
  assert (Hslice : slice part 1 (List.length part - 1) = y).
  { rewrite Hlen. unfold part.
    apply (slice_at _ [m] y [m]); [reflexivity | reflexivity|].
    cbn [List.length]. lia. }
  assert (Hend : endswith part [m] = true)
    by (apply endswith_suffix; exists ([m] ++ y); unfold part;
        rewrite <- app_assoc; reflexivity).
  assert (Hstart : startswith part [m] = true)
    by (apply startswith_app).
  replace (truthy (Some part)) with true by reflexivity.
  cbn [negb text].
  replace (startswith part "[") with false
    by (destruct Hm as [-> | ->]; reflexivity).
  cbn [andb]. rewrite Hslice.
  destruct Hm as [-> | ->].
  - change ("*" : str) with ["*"%char]. rewrite Hstart, Hend. reflexivity.
  - change ("_" : str) with ["_"%char]. rewrite Hstart, Hend.
    rewrite orb_true_r. reflexivity.
Qed.

Lemma render_part_link (t u : str) :
  one_line t -> all_in (non "]") t -> all_in (non "(") t ->
  one_line u -> all_in (non ")") u ->
  render_part (Some (token_text (Link t u))) = Returns [Hyperlink t u].
Proof.
  intros Ht1 Ht2 Ht3 Hu1 Hu2. unfold render_part. cbn [token_text].
  set (part := "[" ++ t ++ "](" ++ u ++ ")").
  assert (Hs : startswith part "[" = true) by apply startswith_app.
  assert (Hc : contains part "](" = true).
  { apply contains_occurs. exists ("[" ++ t), (u ++ ")").
    unfold part. rewrite <- !app_assoc. reflexivity. }
  assert (He : endswith part ")" = true).
  { apply endswith_suffix. exists ("[" ++ t ++ "](" ++ u).
    unfold part. rewrite <- !app_assoc. reflexivity. }
  replace (truthy (Some part)) with true by reflexivity.
  cbn [negb text]. rewrite Hs, Hc, He. cbn [andb].
  destruct (findall_bracket "[" "]" part [] t ("(" ++ u ++ ")")) as [l1 H1];
    [reflexivity | reflexivity | assumption | assumption|].
  destruct (findall_bracket "(" ")" part ("[" ++ t ++ "]") u []) as [l2 H2];
    [unfold part; rewrite <- !app_assoc; reflexivity| | assumption
     | assumption|].
  { apply all_in_app. split; [reflexivity|].
    apply all_in_app. split; [assumption | reflexivity]. }
  unfold link_text_pattern, link_url_pattern. rewrite H1, H2. reflexivity.
Qed.

Lemma render_part_token (k : token) :
  well_formed k -> render_part (Some (token_text k)) = Returns [token_run k].
Proof.
  destruct k as [t u|m y]; cbn [well_formed token_run].
  - intros (H1 & H2 & H3 & H4 & H5). apply render_part_link; assumption.
  - intros (H1 & _ & _). apply render_part_italic, H1.
Qed.

Lemma render_parts_markdown (a0 : str) (l : list (token * str)) :
  well_written a0 l ->
  render_parts (map Some (markdown_parts a0 l))
  = Returns (markdown_runs a0 l).
Proof.
  revert a0. induction l as [|[k a] l IH]; intros a0;
    cbn [well_written markdown_parts markdown_runs map render_parts].
  - intros H. rewrite render_part_plain by exact H. cbn [bind].
    rewrite app_nil_r. reflexivity.
  - intros (Ha0 & Hk & Hrest).
    rewrite render_part_plain by exact Ha0. cbn [bind].
    rewrite render_part_token by exact Hk. cbn [bind].
    rewrite IH by exact Hrest. cbn [bind app]. reflexivity.
Qed.







Lemma generate_docx_paragraphs (l : list str) (doc : list paragraph) :
  generate_docx l = Returns doc ->
  List.length doc = List.length l
  /\ Forall (fun p => exists runs, p = runs ++ [Run false ["010"%char]]) doc.
Proof.
  revert doc. induction l as [|c l IH]; intros doc; cbn [generate_docx].
  - intros [= <-]. split; [reflexivity | constructor].
  - destruct (render_citation c) as [p| |] eqn:Ep; cbn [bind];
      try discriminate.
    destruct (generate_docx l) as [ps| |]; cbn [bind]; try discriminate.
    intros [= <-]. destruct (IH ps eq_refl) as [Hl Hall].
    split; [cbn [List.length]; f_equal; exact Hl|].
    constructor; [|exact Hall].
    unfold render_citation in Ep.
    destruct (split markup_pattern c) as [parts|]; cbn [of_scan bind] in Ep;
      [|discriminate].
    destruct (render_parts parts) as [rs| |]; cbn [bind] in Ep;
      try discriminate.
    injection Ep as <-. exists rs. reflexivity.
Qed.



(** *** The parts of any citation *)

Lemma rep_lazy_in p hi n i s i' s' :
  In (i', s') (rep_lazy p 0 hi n i s) ->
  exists w, s = w ++ s' /\ i' = i + List.length w /\ all_in p w.
Proof.
  unfold all_in.
  revert n i. induction s as [|c s IH]; intros n i; cbn [rep_lazy Nat.leb];
    rewrite in_app_iff.
  - intros [H | []]. destruct H as [[= <- <-] | []].
    exists []. repeat split. simpl; lia.
  - intros [H | H].
    + destruct H as [[= <- <-] | []]. exists []. repeat split. simpl; lia.
    + destruct (p c) eqn:Ec; cbn [andb] in H; [|contradiction].
      destruct (below hi n); [|contradiction].
      apply IH in H. destruct H as (w & -> & -> & Hw).
      exists (c :: w). split; [reflexivity|]. split; [simpl; lia|].
      cbn [forallb]. rewrite Ec. exact Hw.
Qed.

Lemma in_Seq_C (c : ascii) (rs : list regex) (i : nat) (s : str) (g : marks)
      (st : mstate) :
  In st (matches (Seq (C c :: rs)) (i, s, g)) ->
  exists s1, s = c :: s1 /\ In st (matches (Seq rs) (S i, s1, g)).
Proof.
  rewrite matches_Seq_cons, matches_C. destruct s as [|x s]; [contradiction|].
  destruct (chr_eqb c x) eqn:E; [|contradiction].
  apply chr_eqb_eq in E. subst x. rewrite flat_map_single.
  intros H. exists s. split; [reflexivity | exact H].
Qed.

Lemma in_Seq_lazy (rs : list regex) (i : nat) (s : str) (g : marks)
      (st : mstate) :
  In st (matches (Seq (lazy_dots :: rs)) (i, s, g)) ->
  exists v s1,
    s = v ++ s1 /\ all_in dot v
    /\ In st (matches (Seq rs) (i + List.length v, s1, g)).
Proof.
  rewrite matches_Seq_cons. unfold lazy_dots at 1. cbn [matches].
  rewrite flat_map_map_compose. intros H. apply in_flat_map in H.
  destruct H as ([e s1] & H1 & H2). cbn [fst snd] in H2.
  apply rep_lazy_in in H1. destruct H1 as (v & -> & -> & Hv).
  exists v, s1. auto.
Qed.

Lemma in_Seq_nil (st st' : mstate) : In st' (matches (Seq []) st) -> st' = st.
Proof. rewrite matches_Seq_nil. intros [H | []]. symmetry. exact H. Qed.

(** What the tokenizer's pattern matches. *)
Lemma markup_match_shape (i : nat) (t : str) (e : nat) (s' : str) (g : marks) :
  In (e, s', g) (matches markup_pattern (i, t, [])) ->
  exists w, t = w ++ s' /\ e = i + List.length w
            /\ g = [(1, (i, e))] /\ token_shape w.
Proof.
  unfold markup_pattern. rewrite matches_Grp. intros H.
  apply in_map_iff in H. destruct H as ([[e0 s0] g0] & Heq & H).
  injection Heq as <- <- <-. unfold markup_body in H.
  rewrite !matches_Alt in H. apply in_app_or in H.
  destruct H as [H | H]; [|apply in_app_or in H; destruct H as [H | H]].
  - apply in_Seq_C in H. destruct H as (s1 & -> & H).
    apply in_Seq_lazy in H. destruct H as (v1 & s2 & -> & Hv1 & H).
    apply in_Seq_C in H. destruct H as (s3 & -> & H).
    apply in_Seq_C in H. destruct H as (s4 & -> & H).
    apply in_Seq_lazy in H. destruct H as (v2 & s5 & -> & Hv2 & H).
    apply in_Seq_C in H. destruct H as (s6 & -> & H).
    apply in_Seq_nil in H. injection H as -> -> ->.
    exists ("[" ++ v1 ++ "](" ++ v2 ++ ")").
    split; [|split; [|split; [|split]]].
    + cbv [list_ascii_of_string]. cbn [app].
      repeat (rewrite <- app_assoc; cbn [app]). reflexivity.
    + cbv [list_ascii_of_string]. cbn [app List.length].
      repeat (rewrite length_app; cbn [app List.length]). lia.
    + reflexivity.
    + unfold one_line in *. apply all_in_app. split; [reflexivity|].
      apply all_in_app. split; [exact Hv1|].
      apply all_in_app. split; [reflexivity|].
      apply all_in_app. split; [exact Hv2 | reflexivity].
    + left. exists v1, v2. reflexivity.
  - apply in_Seq_C in H. destruct H as (s1 & -> & H).
    apply in_Seq_lazy in H. destruct H as (v & s2 & -> & Hv & H).
    apply in_Seq_C in H. destruct H as (s3 & -> & H).
    apply in_Seq_nil in H. injection H as -> -> ->.
    exists (["*"%char] ++ v ++ ["*"%char]).
    split; [|split; [|split; [|split]]].
    + cbn [app]. rewrite <- app_assoc. reflexivity.
    + cbn [app List.length]. rewrite length_app. cbn [List.length]. lia.
    + reflexivity.
    + unfold one_line in *. apply all_in_app. split; [reflexivity|].
      apply all_in_app. split; [exact Hv | reflexivity].
    + right. exists "*"%char, v. split; [left; reflexivity | reflexivity].
  - apply in_Seq_C in H. destruct H as (s1 & -> & H).
    apply in_Seq_lazy in H. destruct H as (v & s2 & -> & Hv & H).
    apply in_Seq_C in H. destruct H as (s3 & -> & H).
    apply in_Seq_nil in H. injection H as -> -> ->.
    exists (["_"%char] ++ v ++ ["_"%char]).
    split; [|split; [|split; [|split]]].
    + cbn [app]. rewrite <- app_assoc. reflexivity.
    + cbn [app List.length]. rewrite length_app. cbn [List.length]. lia.
    + reflexivity.
    + unfold one_line in *. apply all_in_app. split; [reflexivity|].
      apply all_in_app. split; [exact Hv | reflexivity].
    + right. exists "_"%char, v. split; [right; reflexivity | reflexivity].
Qed.

(** The parts of a split: texts at the even places, matched tokens at the
    odd places. *)
Lemma scan_split_tokens (whole : str) :
  forall fuel pos adv ms,
    pos <= List.length whole ->
    scan fuel markup_pattern whole pos adv = Some ms ->
    exists parts,
      split_parts 1 whole pos ms = map Some parts
      /\ Forall token_shape (token_parts parts).
Proof.
  induction fuel as [|fuel IH]; intros pos adv ms Hpos; [discriminate|].
  cbn [scan].
  destruct (search_from markup_pattern whole adv pos (skipn pos whole))
    as [m|] eqn:E.
  - destruct (scan fuel markup_pattern whole (m_end m) (m_end m =? m_start m))
      as [ms'|] eqn:E'; [|discriminate].
    intros [= <-].
    pose proof (search_from_bounds _ _ _ _ _ Hpos E)
      as (H0 & H1 & H2 & H3 & _ & _).
    apply search_from_result in E.
    destruct E as (pre & t & Hs & _ & Hstart & (s' & Hin) & _).
    apply markup_match_shape in Hin.
    destruct Hin as (w & Ht & He & Hg & Hw).
    apply IH in E'; [|exact H3]. destruct E' as (parts & Hp & Htok).
    assert (Hwhole : whole = (firstn pos whole ++ pre) ++ w ++ s').
    { rewrite <- (firstn_skipn pos whole) at 1. rewrite Hs, Ht.
      rewrite <- app_assoc. reflexivity. }
    assert (Hlen : List.length (firstn pos whole ++ pre) = m_start m).
    { rewrite length_app, length_firstn, Hstart. lia. }
    assert (Hgrp : group m 1 = Some w).
    { unfold group. rewrite Hg. cbn [mark Nat.eqb option_map fst snd].
      rewrite H0. f_equal.
      apply (slice_at whole (firstn pos whole ++ pre) w s');
        [exact Hwhole | symmetry; exact Hlen | exact He]. }
    exists (slice whole pos (m_start m) :: w :: parts). split.
    + cbn [split_parts seq map app]. rewrite Hgrp, Hp. reflexivity.
    + cbn [token_parts]. constructor; assumption.
  - intros [= <-]. exists [slice whole pos (List.length whole)]. split.
    + reflexivity.
    + constructor.
Qed.

Lemma token_shape_renders (p : str) :
  token_shape p ->
  exists r, render_part (Some p) = Returns [r] /\ markup_run r.
Proof.
  intros [Hline [(t & u & Hp) | (m & y & Hm & Hp)]].
  - destruct (render_part_hyperlink p Hline) as (lt & lu & H).
    { rewrite Hp. rewrite startswith_app. cbn [andb].
      apply andb_true_iff. split.
      - apply contains_occurs. exists ("[" ++ t), (u ++ ")").
        rewrite <- !app_assoc. reflexivity.
      - apply endswith_suffix. exists ("[" ++ t ++ "](" ++ u).
        rewrite <- !app_assoc. reflexivity. }
    exists (Hyperlink lt lu). split; [exact H | exact I].
  - exists (Run true y). split; [|reflexivity].
    rewrite Hp. apply (render_part_italic m y Hm).
Qed.

Lemma render_part_raises (p : str) :
  render_part (Some p) = IndexError ->
  hyperlink_test p = true /\ ~ one_line p.
Proof.
  intros H. unfold hyperlink_test.
  destruct (startswith p "[" && contains p "](" && endswith p ")") eqn:Hc.
  - split; [reflexivity|]. intros Hline.
    destruct (render_part_hyperlink p Hline Hc) as (t & u & Hr).
    rewrite Hr in H. discriminate.
  - exfalso. unfold render_part in H.
    destruct (truthy (Some p)); cbn [negb] in H; [|discriminate].
    cbn [text] in H. rewrite Hc in H.
    destruct ((startswith p "*" && endswith p "*")
              || (startswith p "_" && endswith p "_")); discriminate.
Qed.

Lemma render_part_finished (p : option str) : render_part p <> Unfinished.
Proof.
  unfold render_part. destruct (negb (truthy p)); [discriminate|].
  destruct (startswith (text p) "[" && contains (text p) "]("
            && endswith (text p) ")").
  - destruct (finditer_total link_text_pattern (text p)) as [ms1 H1].
    destruct (finditer_total link_url_pattern (text p)) as [ms2 H2].
    unfold findall. rewrite H1, H2. cbn [option_map of_scan bind].
    destruct (map _ ms1); cbn [first bind]; [discriminate|].
    destruct (map _ ms2); cbn [first bind]; discriminate.
  - destruct ((startswith (text p) "*" && endswith (text p) "*")
              || (startswith (text p) "_" && endswith (text p) "_"));
      discriminate.
Qed.

Lemma render_parts_raises (parts : list str) :
  Forall token_shape (token_parts parts) ->
  render_parts (map Some parts) = IndexError ->
  exists gap,
    In gap (text_parts parts) /\ hyperlink_test gap = true /\ ~ one_line gap.
Proof.
  revert parts.
  fix IH 1. intros [|a [|k parts]] Htok H.
  - discriminate.
  - cbn [map render_parts] in H.
    destruct (render_part (Some a)) as [rs| |] eqn:Ea; cbn [bind] in H;
      try discriminate.
    exists a. split; [left; reflexivity | apply render_part_raises, Ea].
  - cbn [token_parts] in Htok. inversion Htok as [|? ? Hk Hrest]. subst.
    cbn [map render_parts] in H.
    destruct (render_part (Some a)) as [rs| |] eqn:Ea; cbn [bind] in H.
    + destruct (token_shape_renders k Hk) as (r & Hr & _).
      rewrite Hr in H. cbn [bind] in H.
      destruct (render_parts (map Some parts)) as [rs'| |] eqn:Ep;
        cbn [bind] in H; try discriminate.
      destruct (IH parts Hrest Ep) as (gap & Hin & Hg).
      exists gap. split; [|exact Hg]. cbn [text_parts].
      right. exact Hin.
    + exists a. split; [left; reflexivity | apply render_part_raises, Ea].
    + discriminate.
Qed.


(** ** The page *)

Lemma urls_Forall (lines : list str) :
  Forall (all_in dot) lines ->
  Forall (fun u => u <> [] /\ one_line u /\ trimmed u)
         (flat_map (fun url => if truthy (Some (strip url))
                               then [strip url] else []) lines).
Proof.
  induction 1 as [|x l Hx _ IH]; cbn [flat_map]; [constructor|].
  destruct (truthy (Some (strip x))) eqn:E; cbn [app]; [|exact IH].
  constructor; [|exact IH].
  split; [apply truthy_nonempty, E|].
  split; [apply strip_all_in, Hx | apply strip_trimmed].
Qed.

Lemma urls_nil (lines : list str) :
  flat_map (fun url => if truthy (Some (strip url))
                       then [strip url] else []) lines = []
  <-> Forall (all_in isspace) lines.
Proof.
  induction lines as [|x l IH]; cbn [flat_map].
  - split; [constructor | reflexivity].
  - destruct (truthy (Some (strip x))) eqn:E; cbn [app].
    + split; [discriminate|]. intros H. inversion H as [|? ? Hx _]. subst.
      apply strip_nil in Hx. rewrite Hx in E. discriminate.
    + rewrite IH. split.
      * intros H. constructor; [|exact H]. apply strip_nil.
        destruct (strip x); [reflexivity | discriminate].
      * intros H. inversion H. assumption.
Qed.

Lemma urls_blank (urls_input : str) :
  urls urls_input = [] <-> all_in isspace urls_input.
Proof.
  unfold urls. rewrite urls_nil.
  destruct (join_split_chr "010" urls_input) as [_ Hj].
  rewrite <- Hj at 2. symmetry. apply all_in_join. reflexivity.
Qed.

Lemma urls_lines (urls_input : str) :
  Forall (fun url => url <> [] /\ one_line url /\ trimmed url)
         (urls urls_input).
Proof.
  unfold urls. apply urls_Forall.
  destruct (join_split_chr "010" urls_input) as [[_ H] _]. exact H.
Qed.

Lemma map_entry_url pdf html get fetch (l : list str) :
  map entry_url (map (process_url pdf html get fetch) l) = l.
Proof.
  induction l as [|u l IH]; [reflexivity|]. cbn [map]. rewrite IH. f_equal.
  unfold process_url.
  destruct (detect_citation_type u) as [[| |]|].
  - destruct (fetch_ag_citation pdf html u) as [c e].
    destruct (truthy e); reflexivity.
  - destruct (fetch_news_release_citation get u) as [c e].
    destruct (truthy e); reflexivity.
  - destruct (fetch_elaws_citation fetch u); [reflexivity|].
    destruct (truthy full_title); reflexivity.
  - reflexivity.
Qed.

(** X14: the URLs of a batch are the lines of the input that are not
    blank, trimmed: each is non-empty, without line feed and without
    white space at its ends.  The warning is shown exactly when the input
    is all white space, which is when there is no URL; otherwise every
    URL gets one entry, in order. *)
Theorem generate_urls
        (extract_title_from_pdf_metadata extract_title_from_html
           : str -> option str)
        (requests_get : str -> api_response) (fetch : str -> response)
        (urls_input : str) :
  Forall (fun url => url <> [] /\ one_line url /\ trimmed url)
         (urls urls_input)
  /\ match generate extract_title_from_pdf_metadata extract_title_from_html
                    requests_get fetch urls_input with
     | Warning => all_in isspace urls_input /\ urls urls_input = []
     | Results entries _ =>
         entries <> [] /\ map entry_url entries = urls urls_input
     end.
Proof.
  split; [apply urls_lines|].
  unfold generate.
  destruct (truthy (Some (strip urls_input))) eqn:E; cbn [negb].
  - rewrite map_entry_url. split; [|reflexivity].
    intros H. apply map_eq_nil in H. apply urls_blank, strip_nil in H.
    rewrite H in E. discriminate.
  - assert (H : strip urls_input = [])
      by (destruct (strip urls_input); [reflexivity | discriminate]).
    apply strip_nil in H. split; [exact H | apply urls_blank, H].
Qed.

Lemma process_url_collected pdf html get fetch (url u : str)
      (c : option str) (k : citation_type) :
  process_url pdf html get fetch url = Collected u c k ->
  u = url /\ detect_citation_type url = Some k /\ exists s, c = Some s.
Proof.
  unfold process_url.
  destruct (detect_citation_type url) as [[| |]|]; [| | |discriminate].
  - destruct (fetch_ag_citation_result pdf html url) as [[s ->]|(e & He & ->)].
    + cbn. intros [= <- <- <-]. eauto.
    + destruct e; [contradiction|]. cbn. discriminate.
  - destruct (fetch_news_release_citation_result get url)
      as [[s ->]|(e & He & ->)].
    + cbn. intros [= <- <- <-]. eauto.
    + destruct e; [contradiction|]. cbn. discriminate.
  - unfold fetch_elaws_citation.
    destruct (fetch url) as [msg|soup]; [discriminate|].
    destruct (elaws_titles _ _) as [full short].
    destruct (truthy full); intros [= <- <- <-]; eauto.
Qed.

Lemma generate_docx_call_strings (l : list str) :
  generate_docx_call (map Some l)
  = match generate_docx l with
    | Returns doc => Buffer doc
    | IndexError => RaisesIndexError
    | Unfinished => ScanUnfinished
    end.
Proof.
  induction l as [|c l IH]; [reflexivity|].
  cbn [map generate_docx_call generate_docx].
  destruct (render_citation c) as [p| |]; cbn [bind]; try reflexivity.
  rewrite IH. destruct (generate_docx l); reflexivity.
Qed.

Lemma all_citation_texts_strings pdf html get fetch (l : list str) :
  exists texts,
    all_citation_texts (citations (map (process_url pdf html get fetch) l))
    = map Some texts.
Proof.
  induction l as [|u l [texts IH]]; [exists []; reflexivity|].
  cbn [map citations flat_map]. unfold all_citation_texts in *.
  unfold citations in IH. rewrite map_app, IH.
  destruct (process_url pdf html get fetch u) as [u' e|u' c k] eqn:E.
  - exists texts. reflexivity.
  - apply process_url_collected in E. destruct E as (_ & _ & s & ->).
    exists (s :: texts). reflexivity.
Qed.


Lemma process_url_ag_one_line pdf html get fetch (url u : str)
      (c : option str) (k : citation_type) :
  detect_citation_type url = Some ag -> one_line url ->
  process_url pdf html get fetch url = Collected u c k ->
  exists s, c = Some s /\ one_line s.
Proof.
  intros Hd Hu. unfold process_url. rewrite Hd.
  destruct (fetch_ag_citation_result pdf html url) as [[s Hs]|(e & He & Hs)];
    rewrite Hs.
  - cbn [truthy]. intros [= <- <- <-]. exists s. split; [reflexivity|].
    apply (fetch_ag_citation_one_line pdf html url s None Hu Hs).
  - destruct e; [contradiction|]. cbn [truthy]. discriminate.
Qed.

Lemma all_citation_texts_ag pdf html get fetch (l : list str) :
  Forall (fun url => detect_citation_type url = Some ag /\ one_line url) l ->
  exists texts,
    all_citation_texts (citations (map (process_url pdf html get fetch) l))
    = map Some texts
    /\ Forall one_line texts.
Proof.
  induction 1 as [|u l [Hd Hu] _ (texts & IH & Hall)].
  - exists []. split; [reflexivity | constructor].
  - cbn [map citations flat_map]. unfold all_citation_texts in *.
    unfold citations in IH. rewrite map_app, IH.
    destruct (process_url pdf html get fetch u) as [u' e|u' c k] eqn:E.
    + exists texts. split; [reflexivity | exact Hall].
    + apply (process_url_ag_one_line _ _ _ _ _ _ _ _ Hd Hu) in E.
      destruct E as (s & -> & Hs).
      exists (s :: texts). split; [reflexivity|]. constructor; assumption.
Qed.



Lemma elaws_titles_regulation (page_title : option str) :
  truthy page_title = true ->
  fst (elaws_titles page_title true) = None.
Proof.
  intros H. unfold elaws_titles. rewrite H. reflexivity.
Qed.

(** X18: for an e-Laws URL whose page is fetched, the page collects one
    citation of type [elaws]: the one with the full title when there is
    a non-empty one, else the one with the short title.  A URL that
    holds [regulation] has no full title when the page has a title; a
    URL that does not always has one. *)
Theorem process_url_elaws
        (extract_title_from_pdf_metadata extract_title_from_html
           : str -> option str)
        (requests_get : str -> api_response) (fetch : str -> response)
        (url : str) (soup : page) :
  detect_citation_type url = Some elaws ->
  fetch url = Fetched soup ->
  exists full_title short_title clean_url section,
    elaws_titles (page_title_string soup) (contains url "regulation")
    = (full_title, short_title)
    /\ process_url extract_title_from_pdf_metadata extract_title_from_html
                   requests_get fetch url
       = Collected url
           (Some (citation_of (if truthy full_title then text full_title
                               else short_title) clean_url section))
           elaws
    /\ (occurs "regulation" url ->
        truthy (page_title_string soup) = true -> full_title = None)
    /\ (~ occurs "regulation" url -> exists t, full_title = Some t).
Proof.
  intros Hd Hf. unfold process_url, fetch_elaws_citation. rewrite Hd, Hf.
  destruct (elaws_titles (page_title_string soup) (contains url "regulation"))
    as [full short] eqn:Et.
  exists full, short. do 2 eexists. split; [reflexivity|]. split.
  - destruct (truthy full) eqn:E; reflexivity.
  - split.
    + intros Ho Hp. apply contains_occurs in Ho. rewrite Ho in Et.
      pose proof (elaws_titles_regulation _ Hp) as H. rewrite Et in H.
      exact H.
    + intros Hn.
      assert (Hc : contains url "regulation" = false).
      { destruct (contains url "regulation") eqn:E; [|reflexivity].
        apply contains_occurs in E. contradiction. }
      rewrite Hc in Et. unfold elaws_titles in Et.
      destruct (truthy (page_title_string soup)); injection Et as <- _;
        eexists; reflexivity.
Qed.

Lemma process_url_elaws_witness :
  exists full_title short_title clean_url section,
    elaws_titles
      (page_title_string
         (mkPage (Some ("Planning Act, 1990 - x" : str)) (fun _ => None)))
      (contains "https://www.ontario.ca/laws/statute/90p13?x=1" "regulation")
    = (full_title, short_title)
    /\ process_url (fun _ => None) (fun _ => None)
                   (fun _ => RequestRaises "down")
                   (fun _ => Fetched
                               (mkPage (Some ("Planning Act, 1990 - x" : str))
                                       (fun _ => None)))
                   "https://www.ontario.ca/laws/statute/90p13?x=1"
       = Collected "https://www.ontario.ca/laws/statute/90p13?x=1"
           (Some (citation_of (if truthy full_title then text full_title
                               else short_title) clean_url section))
           elaws
    /\ (occurs "regulation" "https://www.ontario.ca/laws/statute/90p13?x=1" ->
        truthy (page_title_string
                  (mkPage (Some ("Planning Act, 1990 - x" : str))
                          (fun _ => None))) = true ->
        full_title = None)
    /\ (~ occurs "regulation" "https://www.ontario.ca/laws/statute/90p13?x=1" ->
        exists t, full_title = Some t).
Proof.
  apply (process_url_elaws (fun _ => None) (fun _ => None)
           (fun _ => RequestRaises "down")
           (fun _ => Fetched (mkPage (Some ("Planning Act, 1990 - x" : str))
                                     (fun _ => None)))
           "https://www.ontario.ca/laws/statute/90p13?x=1"
           (mkPage (Some ("Planning Act, 1990 - x" : str)) (fun _ => None)));
    reflexivity.
Defined.
